(** * csharpClassParserBasic.ts: a shallow embedding and its properties

    The TypeScript module [src/csharpClassParserBasic.ts] extracts classes
    from C# source text with regular expressions and nesting counters and
    resolves the names it finds against a registry of declared classes.

    JavaScript strings are sequences of UTF-16 code units: they are modelled
    as [list N], a code unit being its number.  JavaScript numbers that may
    be negative (indices with the [-1] sentinel, nesting depths) are [Z].
    The [Map] used as class registry is a [gmap], the [Set] of resolved names
    a [gset].  A call either returns, throws, or runs a loop for longer than
    the fuel it was given: see [outcome]. *)

From Stdlib Require Import ZArith NArith Lia Ascii.
From stdpp Require Import base strings list gmap sets.

Local Open Scope Z_scope.

(** ** JavaScript strings *)

Abbreviation jsstring := (list N).

(** The code unit of an ASCII character, and the string of a literal. *)
Definition code (a : ascii) : N := N_of_ascii a.

(** The double quote. *)
Definition dquote : N := 34.

Definition js (s : string) : jsstring :=
  map code (String.list_ascii_of_string s).

(** WhiteSpace and LineTerminator code points of ECMA-262: what [trim]
    strips and what [\s] matches. *)
Definition isWhiteSpace (c : N) : bool :=
  (bool_decide (c ∈ [9; 10; 11; 12; 13; 32; 160; 5760; 8232; 8233; 8239;
                      8287; 12288; 65279]%N))
  || ((8192 <=? c)%N && (c <=? 8202)%N).

(** [\w]: ASCII letters, digits and the underscore. *)
Definition isWordChar (c : N) : bool :=
  ((48 <=? c)%N && (c <=? 57)%N) || ((65 <=? c)%N && (c <=? 90)%N)
  || (c =? 95)%N || ((97 <=? c)%N && (c <=? 122)%N).

Fixpoint isPrefixOf (search str : jsstring) : bool :=
  match search, str with
  | [], _ => true
  | _ :: _, [] => false
  | a :: search', b :: str' => (a =? b)%N && isPrefixOf search' str'
  end.

Definition jsstring_eqb (a b : jsstring) : bool := bool_decide (a = b).

(** [str.startsWith(search, position)] *)
Definition startsWith (str search : jsstring) (position : nat) : bool :=
  isPrefixOf search (drop position str).

(** [str.endsWith(search)] *)
Definition endsWith (str search : jsstring) : bool :=
  isPrefixOf (rev search) (rev str).

Fixpoint indexOf_from (str search : jsstring) (i : Z) : Z :=
  if isPrefixOf search str then i
  else match str with
       | [] => -1
       | _ :: str' => indexOf_from str' search (i + 1)
       end.

(** [str.indexOf(search)]: the first index at which [search] occurs, or -1. *)
Definition indexOf (str search : jsstring) : Z := indexOf_from str search 0.

Fixpoint lastIndexOf_from (str search : jsstring) (i found : Z) : Z :=
  let found' := if isPrefixOf search str then i else found in
  match str with
  | [] => found'
  | _ :: str' => lastIndexOf_from str' search (i + 1) found'
  end.

(** [str.lastIndexOf(search)]: the last index at which [search] occurs, or -1. *)
Definition lastIndexOf (str search : jsstring) : Z :=
  lastIndexOf_from str search 0 (-1).

(** [str.includes(search)] *)
Definition includes (str search : jsstring) : bool :=
  negb (indexOf str search =? -1).

(** [str[index]]: [None] stands for [undefined]. *)
Definition charAt (str : jsstring) (index : Z) : option N :=
  if index <? 0 then None else str !! Z.to_nat index.

(** [str.slice(start, end)]: a negative index counts from the end. *)
Definition slice (str : jsstring) (start end_ : Z) : jsstring :=
  let len := Z.of_nat (length str) in
  let from := if start <? 0 then Z.max (len + start) 0 else Z.min start len in
  let to := if end_ <? 0 then Z.max (len + end_) 0 else Z.min end_ len in
  take (Z.to_nat (to - from)) (drop (Z.to_nat from) str).

(** [str.substring(start, end)]: indices are clamped to the string and
    swapped when out of order. *)
Definition substring (str : jsstring) (start end_ : Z) : jsstring :=
  let len := Z.of_nat (length str) in
  let s := Z.min (Z.max start 0) len in
  let e := Z.min (Z.max end_ 0) len in
  let from := Z.min s e in
  let to := Z.max s e in
  take (Z.to_nat (to - from)) (drop (Z.to_nat from) str).

Fixpoint dropWhile {A} (p : A -> bool) (l : list A) : list A :=
  match l with
  | [] => []
  | x :: l' => if p x then dropWhile p l' else l
  end.

(** [str.trim()] *)
Definition trim (str : jsstring) : jsstring :=
  rev (dropWhile isWhiteSpace (rev (dropWhile isWhiteSpace str))).

(** [str.split(separator)] for a separator of one code unit, which is what
    every call of [split] in the module passes (a line feed, ["<"], ["."]).
    The result is never empty: a string without separator is its only
    segment. *)
Fixpoint split (str : jsstring) (separator : N) : list jsstring :=
  match str with
  | [] => [[]]
  | c :: str' =>
      if (c =? separator)%N then [] :: split str' separator
      else match split str' separator with
           | seg :: segs => (c :: seg) :: segs
           | [] => [[c]]
           end
  end.

(** [parts.join(separator)] *)
Fixpoint join (parts : list jsstring) (separator : jsstring) : jsstring :=
  match parts with
  | [] => []
  | p :: parts' =>
      match parts' with
      | [] => p
      | _ :: _ => p ++ separator ++ join parts' separator
      end
  end.

(** [str.replaceAll(pattern, replacement)] for a string pattern of one code
    unit ([";"], ["{"], ["}"] in the module). *)
Definition replaceAll (str : jsstring) (pattern : N) (replacement : jsstring)
  : jsstring :=
  flat_map (fun c => if (c =? pattern)%N then replacement else [c]) str.

(** A string is truthy when it is not empty. *)
Definition truthy_string (s : jsstring) : bool :=
  match s with [] => false | _ :: _ => true end.

(** ** Outcomes of a call *)

(** What is thrown: the [TypeError] of a built-in, or the error with which
    the promise of [readFile] is rejected. *)
Inductive exn := TypeError | ReadError.

(** A call returns a value, throws, or is still looping when the fuel that
    bounds the iterations of its [while] loops is used up. *)
Inductive outcome (A : Type) :=
| Return (a : A)
| Throw (e : exn)
| OutOfFuel.
Arguments Return {A} a.
Arguments Throw {A} e.
Arguments OutOfFuel {A}.

#[global] Instance outcome_bind : MBind outcome := fun A B k m =>
  match m with
  | Return a => k a
  | Throw e => Throw e
  | OutOfFuel => OutOfFuel
  end.

#[global] Instance outcome_ret : MRet outcome := @Return.

(** [arr.forEach((x, i, arr) => arr[i] = f(x))]: the elements are replaced in
    order, and the first call that does not return ends the loop. *)
Fixpoint forEach_assign {A} (f : A -> outcome A) (arr : list A)
  : outcome (list A) :=
  match arr with
  | [] => Return []
  | x :: arr' =>
      y ← f x;
      ys ← forEach_assign f arr';
      Return (y :: ys)
  end.

(** ** The depth-aware scanner *)

Definition BRACKETS_ANGLE : Z := 1.
Definition BRACKETS_ROUND : Z := 2.
Definition BRACKETS_BOX : Z := 4.
Definition BRACKETS_CURLY : Z := 8.
Definition BRACKETS_STRING : Z := 16.
Definition BRACKETS_CHAR : Z := 32.
Definition BRACKETS_ALL : Z := 63.

(** A number is truthy when it is not zero. *)
Definition truthy (n : Z) : bool := negb (n =? 0).

(** [current.reduce((a, b) => a + b)]; the array of depths always has six
    entries, so the empty case is not reached. *)
Definition reduce_add (current : list Z) : Z :=
  match current with
  | [] => 0
  | a :: rest => fold_left Z.add rest a
  end.

(** [bracketsToIncludes] updates the counters of the tracked bracket kinds in
    place and tells whether they sum to zero; the updated array is returned
    next to the result.  The array is the one that [findNext] creates, with
    an entry for each of the six kinds. *)
Definition bracketsToIncludes (current : list Z) (brackets : Z) (char : N)
  : list Z * bool :=
  let upd (mask : Z) (ch : N) (f : Z -> Z) (i : nat) (cur : list Z) :=
    if truthy (Z.land brackets mask) && (char =? ch)%N
    then alter f i cur else cur in
  let toggle (v : Z) := Z.abs (v - 1) in
  let i := 0%nat in
  let current := upd BRACKETS_ANGLE (code "<") Z.succ i current in
  let current := upd BRACKETS_ANGLE (code ">") Z.pred i current in
  let i := S i in
  let current := upd BRACKETS_ROUND (code "(") Z.succ i current in
  let current := upd BRACKETS_ROUND (code ")") Z.pred i current in
  let i := S i in
  let current := upd BRACKETS_BOX (code "[") Z.succ i current in
  let current := upd BRACKETS_BOX (code "]") Z.pred i current in
  let i := S i in
  let current := upd BRACKETS_CURLY (code "{") Z.succ i current in
  let current := upd BRACKETS_CURLY (code "}") Z.pred i current in
  let i := S i in
  let current := upd BRACKETS_STRING dquote toggle i current in
  let i := S i in
  let current := upd BRACKETS_CHAR (code "'") toggle i current in
  (current, reduce_add current =? 0).

(** The [for] loop of [findNext], on the part of the string that starts at
    [index]: [str.startsWith(search, index)] is a prefix test on that part. *)
Fixpoint findNext_loop (rest search : jsstring) (ignore : Z)
    (depths : list Z) (index : Z) : Z :=
  match rest with
  | [] => -1
  | char :: rest' =>
      let '(depths', level) := bracketsToIncludes depths ignore char in
      if level && isPrefixOf search rest then index
      else findNext_loop rest' search ignore depths' (index + 1)
  end.

(** [findNext(str, search, ignore, startIndex)]; the start index is never
    negative at a call site. *)
Definition findNext (str search : jsstring) (ignore : Z) (startIndex : nat)
  : Z :=
  findNext_loop (drop startIndex str) search ignore [0; 0; 0; 0; 0; 0]
    (Z.of_nat startIndex).

(** ** The comment and layout normalizer *)

(** The [while] loop of [stripRightComment].  The [let index] of the loop
    body declares a new variable: the [index] that the loop condition reads
    is the outer one and keeps its value. *)
Fixpoint stripRightComment_loop (fuel : nat) (line : jsstring) (index : Z)
  : outcome jsstring :=
  if (index >? -1) && (index <? Z.of_nat (length line) - 1) then
    match fuel with
    | O => OutOfFuel
    | S fuel' =>
        let index' :=
          findNext line (js "/") (Z.lor BRACKETS_STRING BRACKETS_CHAR) 0 in
        if negb (index' =? -1)
           && bool_decide (charAt line (index' + 1) = Some (code "/"))
        then Return (substring line 0 index')
        else stripRightComment_loop fuel' line index
    end
  else Return line.

Definition stripRightComment (fuel : nat) (line : jsstring)
  : outcome jsstring :=
  if indexOf line (js "//") =? -1 then Return line
  else stripRightComment_loop fuel line 0.

(** ** Regular expressions

    The patterns of the module that are embedded here are sequences of
    literal characters, greedy quantifiers on a character class, capture
    groups and the word boundary.  The matcher backtracks as the JavaScript
    one does: a quantifier first takes as many characters as it may and gives
    them back one at a time when what follows does not match. *)

Inductive regex :=
| Lit (c : N)
| Rep (cls : N -> bool) (min : nat) (max : option nat)
| Seq (r1 r2 : regex)
| Group (r : regex)
| WordBoundary.

(** The pattern of a literal word. *)
Fixpoint Word (w : jsstring) : regex :=
  match w with
  | [] => Rep (fun _ => false) 0 (Some 0%nat)
  | [c] => Lit c
  | c :: w' => Seq (Lit c) (Word w')
  end.

(** [.] matches every code unit that is not a line terminator. *)
Definition isDot (c : N) : bool :=
  negb (bool_decide (c ∈ [10; 13; 8232; 8233]%N)).

(** The least number of code units that a match of a pattern takes. *)
Fixpoint minLength (r : regex) : nat :=
  match r with
  | Lit _ => 1
  | Rep _ min _ => min
  | Seq r1 r2 => minLength r1 + minLength r2
  | Group r' => minLength r'
  | WordBoundary => 0
  end.

(** Where the matcher stands: the index, the character before it and the
    rest of the input. *)
Record cursor := Cursor {
  cur_pos : nat;
  cur_prev : option N;
  cur_rest : jsstring
}.

Definition is_word (c : option N) : bool :=
  match c with Some c => isWordChar c | None => false end.

Definition may_take (max : option nat) : bool :=
  match max with Some O => false | _ => true end.

Fixpoint rep_greedy {R} (cls : N -> bool) (min : nat) (max : option nat)
    (pos : nat) (prev : option N) (rest : jsstring)
    (k : cursor -> option R) : option R :=
  let stop := match min with
              | O => k (Cursor pos prev rest)
              | S _ => None
              end in
  match rest with
  | c :: rest' =>
      if cls c && may_take max then
        match rep_greedy cls (Nat.pred min) (Nat.pred <$> max)
                (S pos) (Some c) rest' k with
        | Some r => Some r
        | None => stop
        end
      else stop
  | [] => stop
  end.

Fixpoint rmatch {R} (r : regex) (cur : cursor) (caps : list jsstring)
    (k : cursor -> list jsstring -> option R) : option R :=
  match r with
  | Lit c =>
      match cur_rest cur with
      | c' :: rest' =>
          if (c' =? c)%N then k (Cursor (S (cur_pos cur)) (Some c') rest') caps
          else None
      | [] => None
      end
  | Rep cls min max =>
      rep_greedy cls min max (cur_pos cur) (cur_prev cur) (cur_rest cur)
        (fun cur' => k cur' caps)
  | Seq r1 r2 =>
      rmatch r1 cur caps (fun cur' caps' => rmatch r2 cur' caps' k)
  | Group r' =>
      let idx := length caps in
      rmatch r' cur (caps ++ [[]])
        (fun cur' caps' =>
           k cur' (<[idx := take (cur_pos cur' - cur_pos cur) (cur_rest cur)]>
                     caps'))
  | WordBoundary =>
      if xorb (is_word (cur_prev cur)) (is_word (head (cur_rest cur)))
      then k cur caps else None
  end.

(** The result of [exec]: where the match starts and ends and what its
    groups captured ([match[1]] is the first entry of [m_groups]). *)
Record MatchResult := {
  m_index : nat;
  m_end : nat;
  m_groups : list jsstring
}.

Fixpoint exec_loop (r : regex) (pos : nat) (prev : option N)
    (rest : jsstring) : option MatchResult :=
  match rmatch r (Cursor pos prev rest) []
          (fun cur caps => Some (cur, caps)) with
  | Some (cur, caps) =>
      Some {| m_index := pos; m_end := cur_pos cur; m_groups := caps |}
  | None =>
      match rest with
      | [] => None
      | c :: rest' => exec_loop r (S pos) (Some c) rest'
      end
  end.

(** The leftmost match that starts at [lastIndex] or later. *)
Definition exec_from (r : regex) (str : jsstring) (lastIndex : nat)
  : option MatchResult :=
  if bool_decide (lastIndex ≤ length str)%nat then
    exec_loop r lastIndex
      (match lastIndex with O => None | S i => str !! i end)
      (drop lastIndex str)
  else None.

(** A [RegExp] object: its pattern and its flags. *)
Record RegExp := {
  source : regex;
  flags : jsstring
}.

(** [re.exec(str)] on a pattern without the [g] flag. *)
Definition exec (re : RegExp) (str : jsstring) : option MatchResult :=
  exec_from (source re) str 0.

(** [match[1]] *)
Definition group1 (m : MatchResult) : jsstring := default [] (m_groups m !! 0%nat).

(** Replacing every match, as [replaceAll] and [replace] do for a pattern
    with the [g] flag and a replacement without [$]: the search goes on after
    each match, one code unit further when the match was empty. *)
Fixpoint replace_matches (fuel : nat) (r : regex) (str : jsstring)
    (nextSourcePosition lastIndex : nat) (replacement : jsstring) : jsstring :=
  match fuel with
  | O => drop nextSourcePosition str
  | S fuel' =>
      match exec_from r str lastIndex with
      | None => drop nextSourcePosition str
      | Some m =>
          take (m_index m - nextSourcePosition) (drop nextSourcePosition str)
          ++ replacement
          ++ replace_matches fuel' r str (m_end m)
               (if (m_end m =? m_index m)%nat then S (m_end m) else m_end m)
               replacement
      end
  end.

(** [str.replaceAll(re, replacement)] with a [RegExp] as pattern: a
    [TypeError] is thrown when the flags of the pattern do not contain [g]
    (ECMA-262, String.prototype.replaceAll, step 2.b.iii). *)
Definition replaceAll_RegExp (str : jsstring) (re : RegExp)
    (replacement : jsstring) : outcome jsstring :=
  if includes (flags re) (js "g")
  then Return (replace_matches (S (length str)) (source re) str 0 0 replacement)
  else Throw TypeError.

(** The pattern [/\/\*.*\*\//] of [preParseText]; it has no flag. *)
Definition blockCommentRegExp : RegExp :=
  {| source := Seq (Word (js "/*")) (Seq (Rep isDot 0 None) (Word (js "*/")));
     flags := [] |}.

(** [preParseText]: lines that are only a comment or a directive are
    dropped, the comment at the right of a line is stripped, the lines are
    joined, block comments are removed and a line break is put after every
    [;], [{] and [}]. *)
Definition preParseText (fuel : nat) (str : jsstring) : outcome jsstring :=
  let noComments :=
    filter (fun line =>
              negb (startsWith (trim line) (js "//") 0
                    || startsWith (trim line) (js "#") 0) = true)
      (split str 10%N) in
  noComments ← forEach_assign (stripRightComment fuel) noComments;
  content ← replaceAll_RegExp (join noComments []) blockCommentRegExp [];
  Return
    (replaceAll
       (replaceAll (replaceAll content (code ";") (js ";" ++ [10%N]))
          (code "{") (js "{" ++ [10%N]))
       (code "}") (js "}" ++ [10%N])).

(** ** The data model *)

(** [interface DependencyInfo] *)
Record DependencyInfo := {
  className : jsstring;
  namespace : jsstring;
  projectName : jsstring
}.

(** [interface Type extends DependencyInfo]: a parsed type expression with
    the types of its generic arguments or tuple elements. *)
#[warnings="-register-all"] Inductive Type_ := mkType {
  Type_className : jsstring;
  Type_namespace : jsstring;
  Type_projectName : jsstring;
  subTypes : list Type_
}.

(** [interface Function extends Callable] *)
Record Function_ := {
  Function_parameters : list Type_;
  returnType : option Type_
}.

(** [interface Constructor extends Callable] *)
Record Constructor := {
  Constructor_parameters : list Type_;
  name : jsstring
}.

(** [interface Class extends ClassBody].  The interface declares
    [className] a string; [processSingleClass] stores [classNameMatch[1]] in
    it, which is [undefined] when the pattern has no group: [None] stands
    for [undefined]. *)
Record Class_ := {
  functions : list Function_;
  constructors : list Constructor;
  lines : list Type_;
  staticCalls : list Type_;
  variables : list Type_;
  Class_className : option jsstring;
  inheritances : option (list Type_)
}.

(** [interface BaseFile] *)
Record BaseFile := {
  classes : list Class_;
  BaseFile_namespace : jsstring;
  imports : list jsstring
}.

(** [interface File extends BaseFile] *)
Record File := {
  File_classes : list Class_;
  File_namespace : jsstring;
  File_imports : list jsstring;
  File_projectName : jsstring
}.

(** [interface ClassInfo] *)
Record ClassInfo := {
  ClassInfo_namespace : jsstring;
  ClassInfo_projectName : jsstring
}.

(** [interface ClassDependency]: [className] is the [className] of the
    class, [undefined] included. *)
Record ClassDependency := {
  ClassDependency_className : option jsstring;
  ClassDependency_projectName : jsstring;
  ClassDependency_namespace : jsstring;
  dependencies : list DependencyInfo;
  filePath : jsstring
}.

#[global] Instance DependencyInfo_eq_dec : EqDecision DependencyInfo.
Proof. solve_decision. Defined.

#[global] Instance ClassInfo_eq_dec : EqDecision ClassInfo.
Proof. solve_decision. Defined.

(** [type ClassMapping = Map<string, ClassInfo>] *)
Abbreviation ClassMapping := (gmap jsstring ClassInfo).

(** ** The generic type tree parser *)

(** The [for] loop of [splitByTopLevelCommas].  It visits the code points of
    [str]; the three characters it tests for are single code units, and any
    other code point is appended whole to the current part, so that visiting
    the code units one by one builds the same parts. *)
Fixpoint splitByTopLevelCommas_loop (str : jsstring)
    (result : list jsstring) (currentPart : jsstring) (angleBracketDepth : Z)
  : list jsstring * jsstring :=
  match str with
  | [] => (result, currentPart)
  | char :: str' =>
      if (char =? code "<")%N then
        splitByTopLevelCommas_loop str' result (currentPart ++ [char])
          (angleBracketDepth + 1)
      else if (char =? code ">")%N then
        splitByTopLevelCommas_loop str' result (currentPart ++ [char])
          (angleBracketDepth - 1)
      else if (char =? code ",")%N && (angleBracketDepth =? 0) then
        splitByTopLevelCommas_loop str' (result ++ [trim currentPart]) []
          angleBracketDepth
      else
        splitByTopLevelCommas_loop str' result (currentPart ++ [char])
          angleBracketDepth
  end.

Definition splitByTopLevelCommas (str : jsstring) : list jsstring :=
  let '(result, currentPart) := splitByTopLevelCommas_loop str [] [] 0 in
  if truthy_string (trim currentPart) then result ++ [trim currentPart]
  else result.

(** The strings on which [recursiveParseType rawType] calls itself: the
    parts between the first ["<"] and the last [">"], and the parts of a
    value tuple. *)
Definition genericParts (rawType : jsstring) : list jsstring :=
  if indexOf rawType (js "<") >=? 0 then
    let first := indexOf rawType (js "<") in
    let last := lastIndexOf rawType (js ">") in
    splitByTopLevelCommas (slice rawType (first + 1) last)
  else [].

Definition isTuple (rawType : jsstring) : bool :=
  startsWith rawType (js "(") 0 && endsWith rawType (js ")").

Definition tupleParts (rawType : jsstring) : list jsstring :=
  if isTuple rawType then
    splitByTopLevelCommas
      (slice rawType 1 (Z.of_nat (length rawType) - 1))
  else [].

(** [recursiveParseType], with the depth of the recursion bounded by
    [fuel]. *)
Fixpoint recursiveParseType_fuel (fuel : nat) (rawType : jsstring)
  : outcome Type_ :=
  match fuel with
  | O => OutOfFuel
  | S fuel' =>
      subTypes1 ← mapM (recursiveParseType_fuel fuel') (genericParts rawType);
      subTypes2 ← mapM (recursiveParseType_fuel fuel') (tupleParts rawType);
      let baseClassName :=
        if isTuple rawType then []
        else trim (default [] (head (split rawType (code "<")))) in
      Return
        {| Type_className := baseClassName;
           Type_namespace := js "unknown";
           Type_projectName := js "external";
           subTypes := subTypes1 ++ subTypes2 |}
  end.

(** [recursiveParseType]: the recursion is run with more fuel than the
    string is long, which [recursiveParseType_fuel_enough] shows to be
    enough on every string. *)
Definition recursiveParseType (rawType : jsstring) : Type_ :=
  match recursiveParseType_fuel (S (length rawType)) rawType with
  | Return t => t
  | _ => mkType [] (js "unknown") (js "external") []
  end.

(** What one call of [recursiveParseType] builds from the results of the
    calls it makes. *)
Definition recursiveParseType_node (rawType : jsstring)
    (parse : jsstring -> Type_) : Type_ :=
  {| Type_className :=
       if isTuple rawType then []
       else trim (default [] (head (split rawType (code "<"))));
     Type_namespace := js "unknown";
     Type_projectName := js "external";
     subTypes := map parse (genericParts rawType)
                 ++ map parse (tupleParts rawType) |}.

(** [p] is a substring of [s]. *)
Definition substringOf (p s : jsstring) : Prop :=
  exists before after, s = before ++ p ++ after.

(** ** Primitive types *)

Definition primitiveTypes : list jsstring :=
  map js
    ["int"; "string"; "bool"; "float"; "double"; "decimal"; "char"; "byte";
     "sbyte"; "short"; "ushort"; "uint"; "long"; "ulong"; "object";
     "dynamic"; "var"; "void"; "this"; "base"; "DateTime"; "return"; "Guid";
     "TimeSpan"; "Task"; "List"; "Dictionary"; "IEnumerable"; "IList";
     "IDictionary"; "ICollection"]%string.

(** [type.split("<")[0].trim()] *)
Definition baseTypeOf (type : jsstring) : jsstring :=
  trim (default [] (head (split type (code "<")))).

Definition isPrimitiveType (type : jsstring) : bool :=
  let baseType := baseTypeOf type in
  bool_decide (baseType ∈ primitiveTypes)
  || startsWith baseType (js "Action") 0
  || startsWith baseType (js "Func") 0
  || startsWith baseType (js "System.") 0.

(** ** The dependency resolver *)

Definition resolveFullyQualifiedName (fullName : jsstring)
    (classRegistry : ClassMapping) : DependencyInfo :=
  let parts := split fullName (code ".") in
  (* [parts.pop() ?? ""] takes the last part off the array *)
  let className := default [] (last parts) in
  let parts := removelast parts in
  let namespace := join parts (js ".") in
  match classRegistry !! fullName with
  | Some info =>
      {| className := className;
         namespace := ClassInfo_namespace info;
         projectName := ClassInfo_projectName info |}
  | None =>
      {| className := className;
         namespace := namespace;
         projectName := js "external" |}
  end.

Definition resolveWithNamespace (baseType currentNamespace : jsstring)
    (classRegistry : ClassMapping) : option DependencyInfo :=
  let fullName :=
    if truthy_string currentNamespace
    then currentNamespace ++ js "." ++ baseType
    else baseType in
  match classRegistry !! fullName with
  | None => None
  | Some info =>
      Some {| className := baseType;
              namespace := ClassInfo_namespace info;
              projectName := ClassInfo_projectName info |}
  end.

Fixpoint resolveWithImports (baseType : jsstring) (imports : list jsstring)
    (classRegistry : ClassMapping) : option DependencyInfo :=
  match imports with
  | [] => None
  | imp :: imports' =>
      let qualifiedName := imp ++ js "." ++ baseType in
      match classRegistry !! qualifiedName with
      | Some info =>
          Some {| className := baseType;
                  namespace := imp;
                  projectName := ClassInfo_projectName info |}
      | None => resolveWithImports baseType imports' classRegistry
      end
  end.

(** [resolveClassDependency]: [None] stands for [null]. *)
Definition resolveClassDependency (baseType currentNamespace : jsstring)
    (imports : list jsstring) (classRegistry : ClassMapping)
  : option DependencyInfo :=
  if includes baseType (js ".") then
    Some (resolveFullyQualifiedName baseType classRegistry)
  else
    match resolveWithNamespace baseType currentNamespace classRegistry with
    | Some fromCurrentNamespace => Some fromCurrentNamespace
    | None =>
        match resolveWithImports baseType imports classRegistry with
        | Some fromImports => Some fromImports
        | None =>
            if truthy_string baseType then
              Some {| className := baseType;
                      namespace := js "unknown";
                      projectName := js "external" |}
            else None
        end
    end.

(** One turn of the [for] loop of [resolveDependencies], on the set of
    resolved base names and the array of resolved dependencies. *)
Definition resolveDependencies_step (currentClassName : jsstring)
    (classRegistry : ClassMapping) (file : File)
    (st : gset jsstring * list DependencyInfo) (dep : DependencyInfo)
  : gset jsstring * list DependencyInfo :=
  let '(resolved, resolvedDependencies) := st in
  if isPrimitiveType (className dep)
     || jsstring_eqb (className dep) currentClassName
  then st
  else
    let baseType := baseTypeOf (className dep) in
    if bool_decide (baseType ∈ resolved) then st
    else
      match resolveClassDependency baseType (File_namespace file)
              (File_imports file) classRegistry with
      | Some dependencyInfo =>
          ({[baseType]} ∪ resolved, resolvedDependencies ++ [dependencyInfo])
      | None => st
      end.

Definition resolveDependencies (dependencies : list DependencyInfo)
    (imports : list jsstring) (currentNamespace currentClassName : jsstring)
    (classRegistry : ClassMapping) (file : File) (classItem : Class_)
  : list DependencyInfo :=
  snd (fold_left (resolveDependencies_step currentClassName classRegistry file)
         dependencies (∅, [])).

(** ** The symbol registry *)

(** [/namespace\s+([\w.]+)/] *)
Definition namespaceRegex : RegExp :=
  {| source :=
       Seq (Word (js "namespace"))
         (Seq (Rep isWhiteSpace 1 None)
            (Group (Rep (fun c => isWordChar c || (c =? code ".")%N) 1 None)));
     flags := [] |}.

Definition MAX_CLASS_NAME_LENGTH : nat := 60.

(** [new RegExp(`\\bclass\\s+(\\w{1,${MAX_CLASS_NAME_LENGTH}})`, "g")] *)
Definition classRegex : RegExp :=
  {| source :=
       Seq WordBoundary
         (Seq (Word (js "class"))
            (Seq (Rep isWhiteSpace 1 None)
               (Group (Rep isWordChar 1 (Some MAX_CLASS_NAME_LENGTH)))));
     flags := js "g" |}.

(** The [while] loop of [registerClassesFromFile]: [classRegex.exec] goes on
    from the [lastIndex] that the match before it left, until it finds no
    match.  Every match is at least seven code units long, so the loop makes
    at most [length content] turns; [fuel] bounds their number. *)
Fixpoint registerClassesFromFile_loop (fuel : nat) (content : jsstring)
    (lastIndex : nat) (namespace projectName : jsstring)
    (classRegistry : ClassMapping) : ClassMapping :=
  match fuel with
  | O => classRegistry
  | S fuel' =>
      match exec_from (source classRegex) content lastIndex with
      | None => classRegistry
      | Some match_ =>
          let className := group1 match_ in
          let info := {| ClassInfo_namespace := namespace;
                         ClassInfo_projectName := projectName |} in
          let classRegistry := <[className := info]> classRegistry in
          let classRegistry :=
            if truthy_string namespace
            then <[namespace ++ js "." ++ className := info]> classRegistry
            else classRegistry in
          registerClassesFromFile_loop fuel' content (m_end match_)
            namespace projectName classRegistry
      end
  end.

(** [registerClassesFromFile]: the registry after the call. *)
Definition registerClassesFromFile (content projectName : jsstring)
    (classRegistry : ClassMapping) : ClassMapping :=
  let namespaceMatch := exec namespaceRegex content in
  let namespace :=
    match namespaceMatch with Some m => group1 m | None => [] end in
  registerClassesFromFile_loop (S (length content)) content 0
    namespace projectName classRegistry.

(** ** Segmenting a file into classes *)

(** [REGEX.class], [/\bclass\s+\w{1,60}/], and [REGEX.namespace]. *)
Definition REGEX_class : RegExp :=
  {| source :=
       Seq WordBoundary
         (Seq (Word (js "class"))
            (Seq (Rep isWhiteSpace 1 None) (Rep isWordChar 1 (Some 60%nat))));
     flags := [] |}.

Definition REGEX_namespace : RegExp := namespaceRegex.

(** [re.test(str)] on a pattern without the [g] flag *)
Definition test (re : RegExp) (str : jsstring) : bool :=
  bool_decide (is_Some (exec re str)).

Definition extractImports (content : jsstring) : list jsstring :=
  flat_map
    (fun line =>
       let trimmed := trim line in
       if startsWith trimmed (js "using ") 0 && endsWith trimmed (js ";")
       then [trim (slice trimmed 5 (-1))]
       else [])
    (split content 10%N).

(** [allLines.slice(classIndices[index], classIndices[index + 1])] for every
    index but the last. *)
Fixpoint sliceBetween (allLines : list jsstring) (classIndices : list nat)
  : list (list jsstring) :=
  match classIndices with
  | [] => []
  | a :: rest =>
      match rest with
      | [] => []
      | b :: _ => take (b - a) (drop a allLines) :: sliceBetween allLines rest
      end
  end.

Definition splitFileIntoClasses (content : jsstring) : list (list jsstring) :=
  let allLines := split content 10%N in
  let classIndices :=
    filter (fun i => test REGEX_class (default [] (allLines !! i)) = true)
      (seq 0 (length allLines)) in
  sliceBetween allLines (classIndices ++ [length allLines]).

(** ** The two passes of [parseClassDependencies] *)

(** [try { body } catch (error) { handler }]: what is thrown in the body is
    handled; a body that does not come back is not. *)
Definition try_catch {A} (body : outcome A) (handler : exn -> outcome A)
  : outcome A :=
  match body with
  | Throw e => handler e
  | other => other
  end.

(** A [for ... of] loop whose body may throw or not come back. *)
Fixpoint for_of {A S} (body : S -> A -> outcome S) (l : list A) (s : S)
  : outcome S :=
  match l with
  | [] => Return s
  | x :: l' => s' ← body s x; for_of body l' s'
  end.

(** ** The records of a file

    [resolveClassDependencies] hands [total], the records pushed so far, to
    [resolveDependencies] as the candidates, and the [className] of the
    class as the name of the current class.  A [ClassDependency] has the
    fields of a [DependencyInfo] and is accepted where one is expected, but
    its [className] may be [undefined], which the types do not tell.  The
    definitions below are [resolveDependencies] on such values. *)

(** [isPrimitiveType(type)] on a value that may be [undefined]: the call of
    [type.split] throws a [TypeError] on [undefined]. *)
Definition isPrimitiveType_untyped (type : option jsstring) : outcome bool :=
  match type with
  | Some type => Return (isPrimitiveType type)
  | None => Throw TypeError
  end.

(** One turn of the [for] loop of [resolveDependencies] on a record of
    [total].  [===] compares the two names as they are, [undefined]
    included.  [dep.className.split] would throw on [undefined] as well, but
    [isPrimitiveType] has thrown before. *)
Definition resolveDependencies_untyped_step
    (currentClassName : option jsstring) (classRegistry : ClassMapping)
    (file : File) (st : gset jsstring * list DependencyInfo)
    (dep : ClassDependency)
  : outcome (gset jsstring * list DependencyInfo) :=
  let '(resolved, resolvedDependencies) := st in
  primitive ← isPrimitiveType_untyped (ClassDependency_className dep);
  if primitive
     || bool_decide (ClassDependency_className dep = currentClassName)
  then Return st
  else
    match ClassDependency_className dep with
    | None => Throw TypeError
    | Some depName =>
        let baseType := baseTypeOf depName in
        if bool_decide (baseType ∈ resolved) then Return st
        else
          match resolveClassDependency baseType (File_namespace file)
                  (File_imports file) classRegistry with
          | Some dependencyInfo =>
              Return ({[baseType]} ∪ resolved,
                      resolvedDependencies ++ [dependencyInfo])
          | None => Return st
          end
    end.

Definition resolveDependencies_untyped (dependencies : list ClassDependency)
    (imports : list jsstring) (currentNamespace : jsstring)
    (currentClassName : option jsstring) (classRegistry : ClassMapping)
    (file : File) (classItem : Class_) : outcome (list DependencyInfo) :=
  st ← for_of
         (resolveDependencies_untyped_step currentClassName classRegistry
            file)
         dependencies (∅, []);
  Return (snd st).

(** [resolveClassDependencies]: the callback of [forEach] evaluates the
    call of [resolveDependencies], with [total] as it is before the record
    of the class is pushed, and then pushes the record; what the callback
    throws leaves [forEach] and the function. *)
Definition resolveClassDependencies (filePath : jsstring) (file : File)
    (classRegistry : ClassMapping) : outcome (list ClassDependency) :=
  for_of
    (fun total c =>
       resolved ← resolveDependencies_untyped total (File_imports file)
                    (File_namespace file) (Class_className c) classRegistry
                    file c;
       Return (total
               ++ [ {| ClassDependency_className := Class_className c;
                       filePath := filePath;
                       ClassDependency_namespace := File_namespace file;
                       ClassDependency_projectName := File_projectName file;
                       dependencies := resolved |} ]))
    (File_classes file) [].

(** ** The name that [processSingleClass] gives a class *)

(** [match[1]] as the engine gives it: [None] stands for [undefined], the
    value of a group that the pattern does not have. *)
Definition group1_untyped (m : MatchResult) : option jsstring :=
  m_groups m !! 0%nat.

(** The head of [processSingleClass] on the first line of a class: the
    outer [None] stands for the [null] that is returned when [REGEX.class]
    does not match the line; otherwise the result is the [className] of the
    class that the function builds. *)
Definition processSingleClass_className (line : jsstring)
  : option (option jsstring) :=
  let classNameMatch := exec REGEX_class line in
  match classNameMatch with
  | None => None
  | Some classNameMatch => Some (group1_untyped classNameMatch)
  end.

Section Pipeline.

(** The file-read capability: [None] is a read that fails. *)
Variable readFile : jsstring -> option jsstring.

(** The per-class extractor [processSingleClass], which mines the lines of
    one class with the patterns of [REGEX]; [None] stands for [null].  It is
    a parameter of the pipeline: [extractClassesFromFile] calls it after
    [preParseText], and the properties of the pipeline hold for every
    extractor. *)
Variable processSingleClass : list jsstring -> outcome (option Class_).

(** [await readFile(filePath, "utf8")] *)
Definition await_readFile (filePath : jsstring) : outcome jsstring :=
  match readFile filePath with
  | Some content => Return content
  | None => Throw ReadError
  end.

Definition extractClassesFromFile (fuel : nat) (content : jsstring)
  : outcome BaseFile :=
  cleanedContent ← preParseText fuel content;
  let namespaceMatch := exec REGEX_namespace cleanedContent in
  let namespace :=
    match namespaceMatch with Some m => group1 m | None => [] end in
  let imports := extractImports cleanedContent in
  classes ←
    for_of (fun classes rawClass =>
              classDep ← processSingleClass rawClass;
              Return (match classDep with
                      | Some c => classes ++ [c]
                      | None => classes
                      end))
      (splitFileIntoClasses cleanedContent) [];
  Return {| classes := classes;
            BaseFile_namespace := namespace;
            imports := imports |}.

(** The body of the first pass for one file.  [registerClassesFromFile]
    does not throw: the [catch] clause is reached by a failed read only,
    and leaves the registry as it is. *)
Definition firstPass_file (projectName : jsstring)
    (classRegistry : ClassMapping) (filePath : jsstring) : ClassMapping :=
  match readFile filePath with
  | Some content => registerClassesFromFile content projectName classRegistry
  | None => classRegistry
  end.

Definition firstPass (projectSourceFiles : list (jsstring * list jsstring))
    (classRegistry : ClassMapping) : ClassMapping :=
  fold_left
    (fun classRegistry '(projectName, sourceFiles) =>
       fold_left (firstPass_file projectName) sourceFiles classRegistry)
    projectSourceFiles classRegistry.

(** The body of the second pass for one file: the records of the file are
    pushed on [classDependencies] once all of them are computed; when
    [resolveClassDependencies] throws, none is. *)
Definition secondPass_file (fuel : nat) (projectName : jsstring)
    (classRegistry : ClassMapping)
    (classDependencies : list ClassDependency) (filePath : jsstring)
  : outcome (list ClassDependency) :=
  try_catch
    (content ← await_readFile filePath;
     rawFile ← extractClassesFromFile fuel content;
     let fileClasses :=
       {| File_classes := classes rawFile;
          File_imports := imports rawFile;
          File_namespace := BaseFile_namespace rawFile;
          File_projectName := projectName |} in
     records ← resolveClassDependencies filePath fileClasses classRegistry;
     Return (classDependencies ++ records))
    (fun error => Return classDependencies).

Definition secondPass (fuel : nat)
    (projectSourceFiles : list (jsstring * list jsstring))
    (classRegistry : ClassMapping)
    (classDependencies : list ClassDependency)
  : outcome (list ClassDependency) :=
  for_of
    (fun classDependencies '(projectName, sourceFiles) =>
       for_of (secondPass_file fuel projectName classRegistry)
         sourceFiles classDependencies)
    projectSourceFiles classDependencies.

(** [parseClassDependencies]: the map from projects to their source files
    is the list of its entries, in the order in which [entries()] yields
    them. *)
Definition parseClassDependencies (fuel : nat)
    (projectSourceFiles : list (jsstring * list jsstring))
    (complete includeClassDependencies : bool)
  : outcome (list ClassDependency) :=
  if negb includeClassDependencies then Return []
  else
    let classRegistry := firstPass projectSourceFiles ∅ in
    secondPass fuel projectSourceFiles classRegistry [].

End Pipeline.

(** ** The calls of [classRegistry.set], in order

    The registry after the first pass is described by the sequence of the
    [set] calls that the pass makes: these definitions follow the loops of
    [registerClassesFromFile] and of the first pass and collect the key and
    the entry of every call. *)

Fixpoint registrations_loop (fuel : nat) (content : jsstring)
    (lastIndex : nat) (namespace projectName : jsstring)
  : list (jsstring * ClassInfo) :=
  match fuel with
  | O => []
  | S fuel' =>
      match exec_from (source classRegex) content lastIndex with
      | None => []
      | Some match_ =>
          let className := group1 match_ in
          let info := {| ClassInfo_namespace := namespace;
                         ClassInfo_projectName := projectName |} in
          (className, info)
          :: (if truthy_string namespace
              then [(namespace ++ js "." ++ className, info)] else [])
          ++ registrations_loop fuel' content (m_end match_)
               namespace projectName
      end
  end.

Definition registrationsOfFile (content projectName : jsstring)
  : list (jsstring * ClassInfo) :=
  let namespace :=
    match exec namespaceRegex content with
    | Some m => group1 m
    | None => []
    end in
  registrations_loop (S (length content)) content 0 namespace projectName.

Definition registrations (readFile : jsstring -> option jsstring)
    (projectSourceFiles : list (jsstring * list jsstring))
  : list (jsstring * ClassInfo) :=
  flat_map
    (fun '(projectName, sourceFiles) =>
       flat_map
         (fun filePath =>
            match readFile filePath with
            | Some content => registrationsOfFile content projectName
            | None => []
            end)
         sourceFiles)
    projectSourceFiles.

(** Making the [set] calls of a sequence on a registry. *)
Definition setAll (calls : list (jsstring * ClassInfo))
    (classRegistry : ClassMapping) : ClassMapping :=
  fold_left (fun m kv => <[kv.1 := kv.2]> m) calls classRegistry.

(** ** Further string operations *)

(** [str.indexOf(search, position)]: the first occurrence that starts at
    [position] or after; the position is clamped to the string. *)
Definition indexOf_at (str search : jsstring) (position : Z) : Z :=
  let k := Z.to_nat (Z.min (Z.max position 0) (Z.of_nat (length str))) in
  indexOf_from (drop k str) search (Z.of_nat k).

Fixpoint lastIndexOf_upto (str search : jsstring) (i found position : Z) : Z :=
  let found' :=
    if isPrefixOf search str && (i <=? position) then i else found in
  match str with
  | [] => found'
  | _ :: str' => lastIndexOf_upto str' search (i + 1) found' position
  end.

(** [str.lastIndexOf(search, position)]: the last occurrence that starts at
    [position] or before; a negative position counts as zero. *)
Definition lastIndexOf_at (str search : jsstring) (position : Z) : Z :=
  lastIndexOf_upto str search 0 (-1) (Z.max position 0).

(** ** System classes, parameters and return types *)

Definition systemClasses : list jsstring :=
  map js
    ["Console"; "Math"; "Environment"; "Thread"; "File"; "Directory"; "Path";
     "Convert"; "Enum"; "Array"; "String"; "Exception"]%string.

Definition isSystemClass (type : jsstring) : bool :=
  let baseType := baseTypeOf type in
  bool_decide (baseType ∈ systemClasses)
  || startsWith baseType (js "System.") 0.

(** [addParameterTypeDependency]: [None] stands for [undefined]. *)
Definition addParameterTypeDependency (param : jsstring) : option Type_ :=
  let paramParts := split (trim param) (code " ") in
  if (length paramParts <? 2)%nat then None
  else
    let paramType := trim (default [] (head paramParts)) in
    if negb (isSystemClass paramType)
    then Some (recursiveParseType paramType)
    else None.

Definition processParameters (params : jsstring) : list Type_ :=
  if negb (truthy_string params) then []
  else
    let paramParts := splitByTopLevelCommas params in
    omap addParameterTypeDependency paramParts.

Definition processReturnType (returnType : jsstring) : option Type_ :=
  let trimmedType := trim returnType in
  if jsstring_eqb trimmedType (js "void") || isSystemClass trimmedType
  then None
  else Some (recursiveParseType trimmedType).

(** ** The declaration line of a class *)

(** [p.className !== "object" && p.className !== "System.Object"] *)
Definition notObject (p : Type_) : bool :=
  negb (jsstring_eqb (Type_className p) (js "object"))
  && negb (jsstring_eqb (Type_className p) (js "System.Object")).

(** [extractInheritanceDependencies]: [None] stands for [undefined]. *)
Definition extractInheritanceDependencies (line : jsstring)
  : option (list Type_) :=
  let colonIndex := indexOf line (js ":") in
  if colonIndex =? -1 then None
  else
    let braceIndex := indexOf_at line (js "{") colonIndex in
    let endIndex :=
      if braceIndex =? -1 then Z.of_nat (length line) else braceIndex in
    let inheritanceStr := trim (substring line (colonIndex + 1) endIndex) in
    if negb (truthy_string inheritanceStr) then None
    else
      let parts := splitByTopLevelCommas inheritanceStr in
      Some (filter (fun p => notObject p = true)
              (map recursiveParseType parts)).

(** [extractInlineConstructor]: [None] stands for [undefined]. *)
Definition extractInlineConstructor (declarationLine : jsstring)
  : option Constructor :=
  let startBracketIndex := indexOf declarationLine (js "(") in
  if startBracketIndex =? -1 then None
  else
    let braceIndex := indexOf declarationLine (js "{") in
    if braceIndex <=? startBracketIndex then None
    else
      let endBracketIndex :=
        lastIndexOf_at declarationLine (js ")") startBracketIndex in
      if endBracketIndex =? -1 then None
      else
        let parameters :=
          processParameters
            (substring declarationLine (startBracketIndex + 1)
               endBracketIndex) in
        Some {| Constructor_parameters :=
                  filter (fun p => notObject p = true) parameters;
                name :=
                  slice declarationLine
                    (lastIndexOf_at declarationLine (js " ")
                       startBracketIndex - 1)
                    startBracketIndex |}.

(** ** Flattening a type and the body of a class *)

(** [flattenType]: [types.concat(...)] builds a new array and leaves
    [types] as it is; the array it builds is not used. *)
Fixpoint flattenType (type : Type_) : list Type_ :=
  let types : list Type_ := [] in
  let concatenated := types ++ flat_map flattenType (subTypes type) in
  types ++ [ {| Type_className := Type_className type;
                Type_namespace := Type_namespace type;
                Type_projectName := Type_projectName type;
                subTypes := [] |} ].

(** The first [for] loop of [getClassBody], on the part of the content that
    starts at [i]. *)
Fixpoint getClassBody_brace (rest : jsstring) (i : Z) : Z :=
  match rest with
  | [] => -1
  | c :: rest' =>
      if (c =? code "{")%N then i else getClassBody_brace rest' (i + 1)
  end.

(** [getClassBody]: [None] stands for [null]; the start index is not
    negative. *)
Definition getClassBody (content : jsstring) (startIndex : nat)
  : option jsstring :=
  let startPos :=
    getClassBody_brace (drop startIndex content) (Z.of_nat startIndex) in
  if startPos =? -1 then None
  else
    let i := findNext content (js "}") BRACKETS_CURLY (Z.to_nat startPos) in
    Some (substring content startPos (i + 1)).

(** The characters that [bracketsToIncludes] may count. *)
Definition trackedChars : list N :=
  [code "<"; code ">"; code "("; code ")"; code "["; code "]"; code "{";
   code "}"; dquote; code "'"].

(** What a character adds to the nesting depth of curly brackets, and the
    number of opening curly brackets of a string minus the number of its
    closing ones. *)
Definition braceDelta (c : N) : Z :=
  if (c =? code "{")%N then 1 else if (c =? code "}")%N then -1 else 0.

Fixpoint braceBalance (s : jsstring) : Z :=
  match s with
  | [] => 0
  | c :: s' => braceDelta c + braceBalance s'
  end.

(** The first occurrences of the elements of a list, in order: an element is
    kept unless it is in [seen] or stands earlier in the list. *)
Fixpoint firstOccurrences (seen l : list jsstring) : list jsstring :=
  match l with
  | [] => []
  | x :: l' =>
      if bool_decide (x ∈ seen) then firstOccurrences seen l'
      else x :: firstOccurrences (x :: seen) l'
  end.

(** The candidates that [resolveDependencies] does not skip at once: those
    that are not primitive and do not bear the name of the current class. *)
Definition keptCandidate (currentClassName : jsstring) (dep : DependencyInfo)
  : bool :=
  negb (isPrimitiveType (className dep)
        || jsstring_eqb (className dep) currentClassName).

(** The class names that the loop of [registerClassesFromFile] finds in a
    content, in order, and the namespace that it finds (empty when there is
    none). *)
Fixpoint declaredClassNames_loop (fuel : nat) (content : jsstring)
    (lastIndex : nat) : list jsstring :=
  match fuel with
  | O => []
  | S fuel' =>
      match exec_from (source classRegex) content lastIndex with
      | None => []
      | Some match_ =>
          group1 match_
          :: declaredClassNames_loop fuel' content (m_end match_)
      end
  end.

Definition declaredClassNames (content : jsstring) : list jsstring :=
  declaredClassNames_loop (S (length content)) content 0.

Definition declaredNamespace (content : jsstring) : jsstring :=
  match exec namespaceRegex content with
  | Some m => group1 m
  | None => []
  end.

(** ** Static calls *)

(** [[A-Z]] and [[\w.]] *)
Definition isUpper (c : N) : bool := (65 <=? c)%N && (c <=? 90)%N.

Definition isWordOrDot (c : N) : bool := isWordChar c || (c =? code ".")%N.

(** [REGEX.staticMethodCall], with the flag [g]: a word boundary; the
    group, which is one upper-case letter and then as many word characters
    and dots as the rest allows; a dot; one word character or more; an
    opening parenthesis. *)
Definition REGEX_staticMethodCall : RegExp :=
  {| source :=
       Seq WordBoundary
         (Seq (Group (Seq (Rep isUpper 1 (Some 1%nat))
                        (Rep isWordOrDot 0 None)))
            (Seq (Lit (code "."))
               (Seq (Rep isWordChar 1 None) (Lit (code "(")))));
     flags := js "g" |}.

Definition staticCallKeywords : list jsstring :=
  map js ["this"; "base"; "var"; "string"; "int"]%string.

(** The [while] loop of [findStaticCalls]: [staticRegex.exec] goes on from
    the [lastIndex] that the match before it left, until it finds no match,
    which sets [lastIndex] back to zero for the next call.  Every match is
    at least four code units long; [fuel] bounds the number of turns. *)
Fixpoint findStaticCalls_loop (fuel : nat) (content : jsstring)
    (lastIndex : nat) : list Type_ :=
  match fuel with
  | O => []
  | S fuel' =>
      match exec_from (source REGEX_staticMethodCall) content lastIndex with
      | None => []
      | Some match_ =>
          let className := group1 match_ in
          (if negb (isPrimitiveType className)
              && negb (isSystemClass className)
              && negb (bool_decide (className ∈ staticCallKeywords))
           then [recursiveParseType className]
           else [])
          ++ findStaticCalls_loop fuel' content (m_end match_)
      end
  end.

Definition findStaticCalls (content : jsstring) : list Type_ :=
  findStaticCalls_loop (S (length content)) content 0.

(** The names before the last dot of the static calls of a content, in
    order. *)
Fixpoint staticCallNames_loop (fuel : nat) (content : jsstring)
    (lastIndex : nat) : list jsstring :=
  match fuel with
  | O => []
  | S fuel' =>
      match exec_from (source REGEX_staticMethodCall) content lastIndex with
      | None => []
      | Some match_ =>
          group1 match_ :: staticCallNames_loop fuel' content (m_end match_)
      end
  end.

Definition staticCallNames (content : jsstring) : list jsstring :=
  staticCallNames_loop (S (length content)) content 0.

(** A pattern without capture group. *)
Fixpoint groupFree (r : regex) : bool :=
  match r with
  | Lit _ | Rep _ _ _ | WordBoundary => true
  | Seq r1 r2 => groupFree r1 && groupFree r2
  | Group _ => false
  end.

(** ** Angle bracket depth *)

(** The angle bracket depth at the end of a text: the number of ["<"] in it
    less the number of [">"].  A position of a text is inside angle brackets
    when the depth of the text before it is not zero. *)
Definition angleDepth (s : jsstring) : Z :=
  Z.of_nat (length (filter (fun c => c = code "<") s))
  - Z.of_nat (length (filter (fun c => c = code ">") s)).

(** ** Example inputs *)

(** The file of the end-to-end example and its sibling class, in two files
    and in one. *)
Definition Foo_source : jsstring :=
  js "namespace App; class Foo : Base { private List<Bar> items; public Bar Make() { return new Bar(); } }".

Definition Bar_source : jsstring := js "namespace App; class Bar { }".

Definition FooBar_source : jsstring :=
  Foo_source ++ [10%N] ++ js "class Bar { }".

Definition example_readFile (filePath : jsstring) : option jsstring :=
  if jsstring_eqb filePath (js "Foo.cs") then Some Foo_source
  else if jsstring_eqb filePath (js "Bar.cs") then Some Bar_source
  else if jsstring_eqb filePath (js "FooBar.cs") then Some FooBar_source
  else None.

(** The classes [Foo] and [Bar] of the example with the types that their
    text refers to, and the registry in which both are registered. *)
Definition example_Foo : Class_ :=
  {| functions :=
       [ {| Function_parameters := [];
            returnType := Some (recursiveParseType (js "Bar")) |} ];
     constructors := [];
     lines := [recursiveParseType (js "Bar")];
     staticCalls := [];
     variables := [recursiveParseType (js "List<Bar>")];
     Class_className := Some (js "Foo");
     inheritances := Some [recursiveParseType (js "Base")] |}.

Definition example_Bar : Class_ :=
  {| functions := [];
     constructors := [];
     lines := [];
     staticCalls := [];
     variables := [];
     Class_className := Some (js "Bar");
     inheritances := None |}.

Definition example_File : File :=
  {| File_classes := [example_Foo; example_Bar];
     File_namespace := js "App";
     File_imports := [];
     File_projectName := js "Shop" |}.

Definition example_registry : ClassMapping :=
  registerClassesFromFile FooBar_source (js "Shop") ∅.

(** A class name of sixty-one characters and a file that declares it. *)
Definition example_longName : jsstring := replicate 61 (code "N").

(** The same classes as [processSingleClass] builds them, with [undefined]
    as their name, in the file that holds both and in the file of [Foo]. *)
Definition withoutName (c : Class_) : Class_ :=
  {| functions := functions c;
     constructors := constructors c;
     lines := lines c;
     staticCalls := staticCalls c;
     variables := variables c;
     Class_className := None;
     inheritances := inheritances c |}.

Definition example_File_built : File :=
  {| File_classes := [withoutName example_Foo; withoutName example_Bar];
     File_namespace := js "App";
     File_imports := [];
     File_projectName := js "Shop" |}.

Definition example_FooFile_built : File :=
  {| File_classes := [withoutName example_Foo];
     File_namespace := js "App";
     File_imports := [];
     File_projectName := js "Shop" |}.

(** Two projects that each declare a class [Foo] without namespace. *)
Definition twoFoo_readFile (filePath : jsstring) : option jsstring :=
  if jsstring_eqb filePath (js "Web/Foo.cs") then Some (js "class Foo { }")
  else if jsstring_eqb filePath (js "Api/Foo.cs") then Some (js "class Foo { }")
  else None.

Definition twoFoo_projects : list (jsstring * list jsstring) :=
  [(js "Web", [js "Web/Foo.cs"]); (js "Api", [js "Api/Foo.cs"])].

(** A line whose only comment marker is inside a string literal,
    [x = "a//b";], and a line with a division before its comment. *)
Definition line_marker_in_literal : jsstring :=
  js "x = " ++ [dquote] ++ js "a//b" ++ [dquote] ++ js ";".

Definition line_division_then_comment : jsstring :=
  js "return a / b; // ratio".

(** * Properties *)

(** ** Strings *)

Lemma dropWhile_length {A} (p : A -> bool) (l : list A) :
  (length (dropWhile p l) <= length l)%nat.
Proof.
  induction l as [|x l IH]; simpl; [lia|].
  destruct (p x); simpl; lia.
Qed.

Lemma trim_length (s : jsstring) : (length (trim s) <= length s)%nat.
Proof.
  unfold trim. rewrite length_rev.
  etransitivity; [apply dropWhile_length|].
  rewrite length_rev. apply dropWhile_length.
Qed.

Lemma slice_shorter (s : jsstring) (a b : Z) :
  s <> [] -> 1 <= a -> (length (slice s a b) < length s)%nat.
Proof.
  intros Hs Ha. unfold slice.
  destruct s as [|c s]; [done|].
  rewrite length_take, length_drop.
  destruct (a <? 0) eqn:E; [apply Z.ltb_lt in E; lia|].
  simpl length. lia.
Qed.

Lemma isPrefixOf_singleton (c : N) (s : jsstring) :
  isPrefixOf [c] s = true <-> head s = Some c.
Proof.
  destruct s as [|d s]; simpl; [split; discriminate|].
  rewrite andb_true_r, N.eqb_eq. split; intros H; congruence.
Qed.

Lemma indexOf_from_range (s search : jsstring) (i : Z) :
  indexOf_from s search i = -1
  \/ i <= indexOf_from s search i <= i + Z.of_nat (length s).
Proof.
  revert i. induction s as [|c s IH]; intros i; simpl.
  - destruct (isPrefixOf search []); [right; lia | left; done].
  - destruct (isPrefixOf search (c :: s)); [right; lia|].
    destruct (IH (i + 1)) as [->|H]; [left; done | right; lia].
Qed.

Lemma indexOf_from_char (s : jsstring) (c : N) (i : Z) :
  0 <= i -> (indexOf_from s [c] i = -1 <-> c ∉ s).
Proof.
  revert i. induction s as [|d s IH]; intros i Hi; simpl.
  - split; [intros _; apply not_elem_of_nil | done].
  - rewrite andb_true_r. destruct (N.eqb_spec c d) as [->|Hne].
    + split; [lia | intros H; exfalso; apply H; left].
    + rewrite (IH (i + 1)) by lia. rewrite not_elem_of_cons. tauto.
Qed.

Lemma indexOf_char (s : jsstring) (c : N) : indexOf s [c] = -1 <-> c ∉ s.
Proof. apply indexOf_from_char. lia. Qed.

Lemma includes_char (s : jsstring) (c : N) : includes s [c] = true <-> c ∈ s.
Proof.
  unfold includes. rewrite negb_true_iff, Z.eqb_neq, indexOf_char.
  split; [apply dec_stable | auto].
Qed.

Lemma split_not_in (s : jsstring) (c : N) : c ∉ s -> split s c = [s].
Proof.
  induction s as [|d s IH]; intros H; [done|].
  apply not_elem_of_cons in H as [Hne Hs]. simpl.
  destruct (N.eqb_spec d c) as [->|_]; [done|].
  by rewrite (IH Hs).
Qed.

(** ** The generic type tree parser *)

Lemma splitByTopLevelCommas_loop_length (n : nat) (str : jsstring) :
  forall result currentPart depth,
    Forall (fun p : jsstring => (length p <= n)%nat) result ->
    (length currentPart + length str <= n)%nat ->
    Forall (fun p : jsstring => (length p <= n)%nat)
      (splitByTopLevelCommas_loop str result currentPart depth).1
    /\ (length (splitByTopLevelCommas_loop str result currentPart depth).2
        <= n)%nat.
Proof.
  induction str as [|char str IH]; intros result cur depth Hres Hlen; simpl.
  - split; [done | simpl in Hlen; lia].
  - simpl in Hlen.
    assert (Hpush : (length (cur ++ [char]) + length str <= n)%nat)
      by (rewrite length_app; simpl; lia).
    repeat case_match; try (apply IH; [done | exact Hpush]).
    apply IH; [|simpl; lia].
    apply Forall_app; split; [done|].
    constructor; [|done]. pose proof (trim_length cur). lia.
Qed.

(** Every part that [splitByTopLevelCommas] returns is at most as long as
    the string it splits. *)
Lemma splitByTopLevelCommas_length (str : jsstring) :
  Forall (fun p : jsstring => (length p <= length str)%nat)
    (splitByTopLevelCommas str).
Proof.
  unfold splitByTopLevelCommas.
  pose proof (splitByTopLevelCommas_loop_length (length str) str [] [] 0
                (Forall_nil_2 _)) as H.
  destruct (splitByTopLevelCommas_loop str [] [] 0) as [result cur].
  destruct H as [Hres Hcur]; [simpl; lia|]. simpl in *.
  case_match; [|done].
  apply Forall_app; split; [done|].
  constructor; [|done]. pose proof (trim_length cur). lia.
Qed.

Lemma genericParts_shorter (rawType : jsstring) :
  Forall (fun p : jsstring => (length p < length rawType)%nat)
    (genericParts rawType).
Proof.
  unfold genericParts.
  destruct (indexOf rawType (js "<") >=? 0) eqn:E; [|done].
  assert (Hne : rawType <> []) by (intros ->; discriminate E).
  assert (Hfirst : 0 <= indexOf rawType (js "<")) by lia.
  eapply Forall_impl; [apply splitByTopLevelCommas_length|].
  intros p Hp. simpl in Hp.
  pose proof (slice_shorter rawType (indexOf rawType (js "<") + 1)
                (lastIndexOf rawType (js ">")) Hne).
  lia.
Qed.

Lemma isTuple_nonempty (rawType : jsstring) :
  isTuple rawType = true -> rawType <> [].
Proof. intros H ->. discriminate H. Qed.

Lemma tupleParts_shorter (rawType : jsstring) :
  Forall (fun p : jsstring => (length p < length rawType)%nat)
    (tupleParts rawType).
Proof.
  unfold tupleParts.
  destruct (isTuple rawType) eqn:E; [|done].
  apply isTuple_nonempty in E.
  eapply Forall_impl; [apply splitByTopLevelCommas_length|].
  intros p Hp. simpl in Hp.
  pose proof (slice_shorter rawType 1 (Z.of_nat (length rawType) - 1) E).
  lia.
Qed.

Lemma mapM_Return_map {A B} (f : A -> outcome B) (g : A -> B) (l : list A) :
  Forall (fun x => f x = Return (g x)) l -> mapM f l = Return (map g l).
Proof.
  induction 1 as [|x l Hx _ IH]; [done|].
  simpl. rewrite Hx. simpl. rewrite IH. done.
Qed.

Lemma recursiveParseType_fuel_step (fuel : nat) (rawType : jsstring)
    (parse : jsstring -> Type_) :
  (forall p, (length p < length rawType)%nat ->
             recursiveParseType_fuel fuel p = Return (parse p)) ->
  recursiveParseType_fuel (S fuel) rawType
  = Return (recursiveParseType_node rawType parse).
Proof.
  intros Hcalls. simpl.
  rewrite (mapM_Return_map _ parse (genericParts rawType))
    by (eapply Forall_impl; [apply genericParts_shorter|]; auto).
  simpl.
  rewrite (mapM_Return_map _ parse (tupleParts rawType))
    by (eapply Forall_impl; [apply tupleParts_shorter|]; auto).
  done.
Qed.

(** More fuel than the string is long is enough, and the result is that of
    [recursiveParseType]. *)
Lemma recursiveParseType_fuel_enough (rawType : jsstring) :
  forall fuel, (length rawType < fuel)%nat ->
    recursiveParseType_fuel fuel rawType = Return (recursiveParseType rawType).
Proof.
  remember (length rawType) as n eqn:Hn. revert rawType Hn.
  induction (lt_wf n) as [n _ IH].
  intros rawType -> [|fuel] Hfuel; [lia|].
  assert (Hstep : forall k, (length rawType <= k)%nat ->
            recursiveParseType_fuel (S k) rawType
            = Return (recursiveParseType_node rawType recursiveParseType)).
  { intros k Hk. apply recursiveParseType_fuel_step.
    intros p Hp. eapply IH; [|reflexivity|]; lia. }
  assert (Heq : recursiveParseType rawType
                = recursiveParseType_node rawType recursiveParseType).
  { unfold recursiveParseType at 1. rewrite Hstep by lia. done. }
  rewrite Hstep by lia. by rewrite Heq.
Qed.

Lemma recursiveParseType_unfold (rawType : jsstring) :
  recursiveParseType rawType
  = recursiveParseType_node rawType recursiveParseType.
Proof.
  pose proof (recursiveParseType_fuel_enough rawType (S (length rawType))
                ltac:(lia)) as H.
  rewrite (recursiveParseType_fuel_step _ _ recursiveParseType) in H.
  - congruence.
  - intros p Hp. apply recursiveParseType_fuel_enough. lia.
Qed.

(** *** Substrings *)

Lemma substringOf_refl (s : jsstring) : substringOf s s.
Proof. exists [], []. by rewrite app_nil_r. Qed.

Lemma substringOf_trans (p q s : jsstring) :
  substringOf p q -> substringOf q s -> substringOf p s.
Proof.
  intros (a & b & ->) (c & d & ->).
  exists (c ++ a), (b ++ d). by rewrite <- !app_assoc.
Qed.

Lemma dropWhile_suffix {A} (p : A -> bool) (l : list A) :
  exists before, l = before ++ dropWhile p l.
Proof.
  induction l as [|x l [before IH]]; [by exists []|].
  simpl. destruct (p x).
  - exists (x :: before). simpl. by rewrite <- IH.
  - by exists [].
Qed.

Lemma trim_substringOf (s : jsstring) : substringOf (trim s) s.
Proof.
  unfold trim.
  destruct (dropWhile_suffix isWhiteSpace s) as [before Hs].
  destruct (dropWhile_suffix isWhiteSpace (rev (dropWhile isWhiteSpace s)))
    as [after Hr].
  exists before, (rev after).
  rewrite <- rev_app_distr, <- Hr, rev_involutive. exact Hs.
Qed.

Lemma take_drop_substringOf (n m : nat) (s : jsstring) :
  substringOf (take n (drop m s)) s.
Proof.
  exists (take m s), (drop n (drop m s)).
  by rewrite take_drop, take_drop.
Qed.

Lemma slice_substringOf (s : jsstring) (a b : Z) : substringOf (slice s a b) s.
Proof. unfold slice. apply take_drop_substringOf. Qed.

Lemma splitByTopLevelCommas_loop_substringOf (whole : jsstring)
    (str : jsstring) :
  forall seen result currentPart depth,
    whole = seen ++ str ->
    (exists before, seen = before ++ currentPart) ->
    Forall (fun p => substringOf p whole) result ->
    Forall (fun p => substringOf p whole)
      (splitByTopLevelCommas_loop str result currentPart depth).1
    /\ substringOf
         (splitByTopLevelCommas_loop str result currentPart depth).2 whole.
Proof.
  induction str as [|char str IH];
    intros seen result cur depth Hwhole [before Hseen] Hres; simpl.
  - split; [done|]. exists before, []. by rewrite Hwhole, Hseen, !app_nil_r.
  - assert (Hwhole' : whole = (seen ++ [char]) ++ str)
      by (by rewrite <- app_assoc).
    assert (Hcur : exists before', seen ++ [char] = before' ++ cur ++ [char])
      by (exists before; by rewrite Hseen, <- app_assoc).
    repeat case_match; try (by eapply IH).
    eapply IH; [exact Hwhole' | by exists (seen ++ [char]); rewrite app_nil_r|].
    apply Forall_app; split; [done|].
    constructor; [|done].
    eapply substringOf_trans; [apply trim_substringOf|].
    exists before, (char :: str). by rewrite Hwhole, Hseen, <- app_assoc.
Qed.

(** Every part that [splitByTopLevelCommas] returns is a substring of the
    string it splits. *)
Lemma splitByTopLevelCommas_substringOf (str : jsstring) :
  Forall (fun p => substringOf p str) (splitByTopLevelCommas str).
Proof.
  unfold splitByTopLevelCommas.
  pose proof (splitByTopLevelCommas_loop_substringOf str str [] [] [] 0
                eq_refl (ex_intro _ [] eq_refl) (Forall_nil_2 _)) as [Hres Hcur].
  destruct (splitByTopLevelCommas_loop str [] [] 0) as [result cur].
  simpl in *. case_match; [|done].
  apply Forall_app; split; [done|].
  constructor; [|done].
  eapply substringOf_trans; [apply trim_substringOf | done].
Qed.

Lemma genericParts_substringOf (rawType : jsstring) :
  Forall (fun p => substringOf p rawType) (genericParts rawType).
Proof.
  unfold genericParts. case_match; [|done].
  eapply Forall_impl; [apply splitByTopLevelCommas_substringOf|].
  intros p Hp. eapply substringOf_trans; [exact Hp | apply slice_substringOf].
Qed.

Lemma tupleParts_substringOf (rawType : jsstring) :
  Forall (fun p => substringOf p rawType) (tupleParts rawType).
Proof.
  unfold tupleParts. case_match; [|done].
  eapply Forall_impl; [apply splitByTopLevelCommas_substringOf|].
  intros p Hp. eapply substringOf_trans; [exact Hp | apply slice_substringOf].
Qed.

(** C5.  [recursiveParseType] terminates on every string.  The strings on
    which a call on [rawType] calls itself (the parts between the angle
    brackets and the parts of a tuple) are substrings of [rawType] and
    strictly shorter than it; hence the recursion, run with any fuel greater
    than the length of [rawType], returns, and returns the same tree
    whatever that fuel is. *)
Theorem recursiveParseType_terminates (rawType : jsstring) (fuel : nat) :
  (length rawType < fuel)%nat ->
  Forall (fun p => substringOf p rawType /\ (length p < length rawType)%nat)
    (genericParts rawType ++ tupleParts rawType)
  /\ recursiveParseType_fuel fuel rawType
     = Return (recursiveParseType rawType)
  /\ subTypes (recursiveParseType rawType)
     = map recursiveParseType (genericParts rawType ++ tupleParts rawType).
Proof.
  intros Hfuel. split; [|split].
  - apply Forall_app; split; apply Forall_and; split;
      auto using genericParts_substringOf, genericParts_shorter,
                 tupleParts_substringOf, tupleParts_shorter.
  - by apply recursiveParseType_fuel_enough.
  - rewrite recursiveParseType_unfold at 1. simpl. by rewrite map_app.
Qed.

Lemma recursiveParseType_terminates_witness :
  recursiveParseType_fuel 40 (js "Dictionary<string, (Foo, Bar<Baz>)>")
  = Return (recursiveParseType (js "Dictionary<string, (Foo, Bar<Baz>)>")).
Proof.
  apply (recursiveParseType_terminates
           (js "Dictionary<string, (Foo, Bar<Baz>)>") 40).
  vm_compute. lia.
Defined.

(** C6.  On a type expression with neither ["<"] nor ["("],
    [recursiveParseType] returns a leaf: the class name is the trimmed
    expression and there are no sub-types. *)
Theorem recursiveParseType_leaf (rawType : jsstring) :
  code "<" ∉ rawType ->
  code "(" ∉ rawType ->
  recursiveParseType rawType
  = {| Type_className := trim rawType;
       Type_namespace := js "unknown";
       Type_projectName := js "external";
       subTypes := [] |}.
Proof.
  intros Hlt Hparen.
  rewrite recursiveParseType_unfold. unfold recursiveParseType_node.
  assert (Hgen : genericParts rawType = []).
  { unfold genericParts.
    change (js "<") with [code "<"].
    apply indexOf_char in Hlt. by rewrite Hlt. }
  assert (Htup : isTuple rawType = false).
  { unfold isTuple, startsWith. rewrite drop_0.
    change (js "(") with [code "("].
    destruct (isPrefixOf [code "("] rawType) eqn:E; [|done].
    apply isPrefixOf_singleton in E.
    destruct rawType as [|c s]; [done|]. simpl in E.
    exfalso. apply Hparen. injection E as ->. left. }
  unfold tupleParts. rewrite Hgen, Htup, (split_not_in _ _ Hlt). done.
Qed.

Lemma recursiveParseType_leaf_witness :
  recursiveParseType (js "  System.Collections.IEnumerable ")
  = {| Type_className := js "System.Collections.IEnumerable";
       Type_namespace := js "unknown";
       Type_projectName := js "external";
       subTypes := [] |}.
Proof.
  apply (recursiveParseType_leaf (js "  System.Collections.IEnumerable "));
    compute_done.
Defined.

Lemma angleDepth_nil : angleDepth [] = 0.
Proof. reflexivity. Qed.

Lemma angleDepth_cons (c : N) (s : jsstring) :
  angleDepth (c :: s)
  = (if (c =? code "<")%N then 1 else if (c =? code ">")%N then -1 else 0)
    + angleDepth s.
Proof.
  unfold angleDepth. rewrite !filter_cons.
  destruct (N.eqb_spec c (code "<")) as [->|Hlt].
  - rewrite decide_True by done. rewrite decide_False by done.
    cbn [length]. lia.
  - rewrite (decide_False (P := c = code "<")) by done.
    destruct (N.eqb_spec c (code ">")) as [->|Hgt].
    + rewrite decide_True by done. cbn [length]. lia.
    + rewrite decide_False by done. lia.
Qed.

(** The loop of [splitByTopLevelCommas] goes through a text all of whose
    commas are inside angle brackets without cutting: the text is appended
    to the current part and the depth moves by the depth of the text. *)
Lemma splitByTopLevelCommas_loop_nested (part rest : jsstring)
    (result : list jsstring) :
  forall (currentPart : jsstring) (depth : Z),
    (forall i : nat,
        part !! i = Some (code ",") ->
        depth + angleDepth (take i part) <> 0) ->
    splitByTopLevelCommas_loop (part ++ rest) result currentPart depth
    = splitByTopLevelCommas_loop rest result (currentPart ++ part)
        (depth + angleDepth part).
Proof.
  induction part as [|c part IH]; intros cur depth Hnested.
  - rewrite angleDepth_nil, app_nil_r, Z.add_0_r. done.
  - assert (Hrest : forall d : Z,
               d = (if (c =? code "<")%N then 1
                    else if (c =? code ">")%N then -1 else 0) ->
               splitByTopLevelCommas_loop (part ++ rest) result
                 (cur ++ [c]) (depth + d)
               = splitByTopLevelCommas_loop rest result (cur ++ c :: part)
                   (depth + angleDepth (c :: part))).
    { intros d Hd. rewrite IH.
      - rewrite <- app_assoc, angleDepth_cons, <- Hd. f_equal. lia.
      - intros i Hi. specialize (Hnested (S i) Hi).
        cbn [take] in Hnested. rewrite angleDepth_cons, <- Hd in Hnested.
        lia. }
    cbn [app splitByTopLevelCommas_loop].
    destruct (c =? code "<")%N eqn:Hlt; [by apply Hrest|].
    destruct (c =? code ">")%N eqn:Hgt; [by apply Hrest|].
    destruct (c =? code ",")%N eqn:Hcomma.
    + apply N.eqb_eq in Hcomma. subst c.
      specialize (Hnested 0%nat eq_refl) as Hdepth.
      cbn [take] in Hdepth. rewrite angleDepth_nil, Z.add_0_r in Hdepth.
      apply Z.eqb_neq in Hdepth. rewrite Hdepth. cbn [andb].
      rewrite <- (Z.add_0_r depth) at 1. by apply Hrest.
    + cbn [andb]. rewrite <- (Z.add_0_r depth) at 1. by apply Hrest.
Qed.

(** The parts that the loop has pushed stay in front of those it pushes. *)
Lemma splitByTopLevelCommas_loop_result (str : jsstring) :
  forall (result : list jsstring) (currentPart : jsstring) (depth : Z),
    splitByTopLevelCommas_loop str result currentPart depth
    = (result ++ (splitByTopLevelCommas_loop str [] currentPart depth).1,
       (splitByTopLevelCommas_loop str [] currentPart depth).2).
Proof.
  induction str as [|c str IH]; intros result cur depth.
  - cbn. by rewrite app_nil_r.
  - cbn [splitByTopLevelCommas_loop].
    destruct (c =? code "<")%N; [apply IH|].
    destruct (c =? code ">")%N; [apply IH|].
    destruct ((c =? code ",")%N && (depth =? 0)); [|apply IH].
    rewrite (IH (result ++ [trim cur])), (IH ([] ++ [trim cur])).
    cbn [fst snd app]. by rewrite <- app_assoc.
Qed.

(** A text has a first comma outside angle brackets, or none. *)
Lemma first_top_level_comma (str : jsstring) (n : nat) :
  (forall i : nat,
      (i < n)%nat -> str !! i = Some (code ",") ->
      angleDepth (take i str) <> 0)
  \/ exists i : nat,
       (i < n)%nat
       /\ str !! i = Some (code ",")
       /\ angleDepth (take i str) = 0
       /\ forall j : nat,
            (j < i)%nat -> str !! j = Some (code ",") ->
            angleDepth (take j str) <> 0.
Proof.
  induction n as [|n [IH|IH]].
  - left. intros i Hi. lia.
  - destruct (decide (str !! n = Some (code ",")
                      /\ angleDepth (take n str) = 0)) as [[Hc Hd]|Hnot].
    + right. exists n. split; [lia|]. split; [done|]. split; [done|].
      intros j Hj. by apply IH.
    + left. intros i Hi Hc Hd.
      destruct (decide (i = n)) as [->|Hne]; [by apply Hnot|].
      apply (IH i); [lia | done | done].
  - right. destruct IH as (i & Hi & Hrest). exists i. split; [lia | done].
Qed.

(** C7.  [splitByTopLevelCommas] splits ["A, B<C,D>, E"] into ["A"],
    ["B<C,D>"] and ["E"], and a comma inside angle brackets is never a split
    point, at any depth: a text all of whose commas are inside angle
    brackets, as counted from its start, comes back whole, as one part; the
    text is cut at a comma before which as many brackets are closed as are
    opened, and the parts after it are those of the rest.  Every text is of
    one of these two kinds. *)
Theorem splitByTopLevelCommas_example :
  splitByTopLevelCommas (js "A, B<C,D>, E") = [js "A"; js "B<C,D>"; js "E"]
  /\ splitByTopLevelCommas (js "A<B<C>,D>, E") = [js "A<B<C>,D>"; js "E"]
  /\ (forall part : jsstring,
        (forall i : nat,
            part !! i = Some (code ",") -> angleDepth (take i part) <> 0) ->
        splitByTopLevelCommas part
        = if truthy_string (trim part) then [trim part] else [])
  /\ (forall part rest : jsstring,
        (forall i : nat,
            part !! i = Some (code ",") -> angleDepth (take i part) <> 0) ->
        angleDepth part = 0 ->
        splitByTopLevelCommas (part ++ code "," :: rest)
        = trim part :: splitByTopLevelCommas rest)
  /\ (forall str : jsstring,
        (forall i : nat,
            str !! i = Some (code ",") -> angleDepth (take i str) <> 0)
        \/ exists part rest,
             str = part ++ code "," :: rest
             /\ (forall i : nat,
                   part !! i = Some (code ",") ->
                   angleDepth (take i part) <> 0)
             /\ angleDepth part = 0).
Proof.
  split; [reflexivity|]. split; [reflexivity|]. split; [|split].
  - intros part Hnested. unfold splitByTopLevelCommas.
    rewrite <- (app_nil_r part) at 1.
    rewrite splitByTopLevelCommas_loop_nested
      by (intros i Hi; rewrite Z.add_0_l; by apply Hnested).
    done.
  - intros part rest Hnested Hdepth. unfold splitByTopLevelCommas.
    rewrite splitByTopLevelCommas_loop_nested
      by (intros i Hi; rewrite Z.add_0_l; by apply Hnested).
    rewrite Hdepth. change (0 + 0) with 0.
    cbn [app splitByTopLevelCommas_loop].
    change (code "," =? code "<")%N with false.
    change (code "," =? code ">")%N with false.
    change ((code "," =? code ",")%N && (0 =? 0)) with true. cbn iota.
    rewrite splitByTopLevelCommas_loop_result.
    destruct (splitByTopLevelCommas_loop rest [] [] 0)
      as [result currentPart].
    cbn [fst snd app]. by destruct (truthy_string (trim currentPart)).
  - intros str.
    destruct (first_top_level_comma str (length str))
      as [Hnone|(i & Hi & Hcomma & Hdepth & Hbefore)].
    + left. intros i Hcomma. apply Hnone; [|done].
      by apply lookup_lt_Some in Hcomma.
    + right. exists (take i str), (drop (S i) str). split; [|split].
      * rewrite <- (take_drop i str) at 1. f_equal.
        by rewrite (drop_S _ _ _ Hcomma).
      * intros j Hj.
        assert (Hlt : (j < i)%nat).
        { apply lookup_lt_Some in Hj. rewrite length_take in Hj. lia. }
        rewrite lookup_take_lt in Hj by done.
        rewrite take_take, Nat.min_l by lia. by apply Hbefore.
      * exact Hdepth.
Qed.

Lemma splitByTopLevelCommas_example_witness :
  splitByTopLevelCommas (js "B<C,D>") = [js "B<C,D>"]
  /\ splitByTopLevelCommas (js "A<B<C>,D>, E")
     = js "A<B<C>,D>" :: splitByTopLevelCommas (js " E").
Proof.
  destruct splitByTopLevelCommas_example as (_ & _ & Hwhole & Hcut & _).
  split.
  - apply (Hwhole (js "B<C,D>")).
    intros i Hi.
    do 6 (destruct i as [|i]; [first [discriminate Hi | vm_compute; discriminate]|]).
    discriminate Hi.
  - apply (Hcut (js "A<B<C>,D>") (js " E")); [|reflexivity].
    intros i Hi.
    do 9 (destruct i as [|i]; [first [discriminate Hi | vm_compute; discriminate]|]).
    discriminate Hi.
Defined.

(** ** Splitting and joining *)

Lemma split_nonempty (s : jsstring) (c : N) : split s c <> [].
Proof.
  destruct s as [|d s]; simpl; [done|].
  destruct (d =? c)%N; [done|]. by destruct (split s c).
Qed.

Lemma split_length_elem_of (s : jsstring) (c : N) :
  c ∈ s -> (2 <= length (split s c))%nat.
Proof.
  induction s as [|d s IH]; intros H; [by apply elem_of_nil in H|].
  simpl. destruct (N.eqb_spec d c) as [->|Hne].
  - pose proof (split_nonempty s c). destruct (split s c); [done|simpl; lia].
  - apply elem_of_cons in H as [->|H]; [done|].
    specialize (IH H). destruct (split s c); simpl in *; lia.
Qed.

Lemma split_no_separator (s : jsstring) (c : N) :
  Forall (fun p : jsstring => c ∉ p) (split s c).
Proof.
  induction s as [|d s IH]; simpl.
  - constructor; [apply not_elem_of_nil | done].
  - destruct (N.eqb_spec d c) as [->|Hne].
    + constructor; [apply not_elem_of_nil | done].
    + destruct (split s c) as [|seg segs]; [|inversion IH; subst];
        (constructor; [|done]); rewrite not_elem_of_cons; split; auto.
      apply not_elem_of_nil.
Qed.

Lemma join_split (s : jsstring) (c : N) : join (split s c) [c] = s.
Proof.
  induction s as [|d s IH]; [done|].
  simpl. destruct (N.eqb_spec d c) as [->|Hne].
  - pose proof (split_nonempty s c).
    destruct (split s c) eqn:E; [done|]. simpl. by rewrite <- IH.
  - pose proof (split_nonempty s c).
    destruct (split s c) as [|seg segs] eqn:E; [done|].
    rewrite <- IH. simpl. by destruct segs.
Qed.

Lemma join_snoc (parts : list jsstring) (p sep : jsstring) :
  parts <> [] -> join (parts ++ [p]) sep = join parts sep ++ sep ++ p.
Proof.
  induction parts as [|q parts IH]; intros Hne; [done|].
  destruct parts as [|q' parts]; [done|].
  change (join ((q :: q' :: parts) ++ [p]) sep)
    with (q ++ sep ++ join ((q' :: parts) ++ [p]) sep).
  rewrite IH by done.
  change (join (q :: q' :: parts) sep)
    with (q ++ sep ++ join (q' :: parts) sep).
  by rewrite <- !app_assoc.
Qed.

Lemma removelast_last {A} (l : list A) :
  l <> [] -> exists x, last l = Some x /\ l = removelast l ++ [x].
Proof.
  induction l as [|y l IH]; intros Hne; [done|].
  destruct l as [|z l]; [by exists y|].
  destruct IH as (x & Hlast & Heq); [done|].
  exists x. split; [done|].
  change (removelast (y :: z :: l) ++ [x])
    with (y :: (removelast (z :: l) ++ [x])).
  by rewrite <- Heq.
Qed.

(** A name with a dot in it is split at its last dot by [split], [pop] and
    [join]. *)
Lemma split_pop_join (fullName : jsstring) :
  code "." ∈ fullName ->
  exists cls,
    last (split fullName (code ".")) = Some cls
    /\ (code "." ∉ cls)
    /\ fullName
       = join (removelast (split fullName (code "."))) (js ".")
         ++ js "." ++ cls.
Proof.
  intros Hdot.
  pose proof (split_length_elem_of _ _ Hdot) as Hlen.
  pose proof (split_no_separator fullName (code ".")) as Hsep.
  pose proof (join_split fullName (code ".")) as Hjoin.
  destruct (removelast_last (split fullName (code ".")))
    as (cls & Hlast & Heq); [apply split_nonempty|].
  exists cls. split; [done|]. split.
  - rewrite Heq in Hsep. apply Forall_app in Hsep as [_ Hsep].
    by inversion Hsep.
  - rewrite Heq in Hjoin at 1. rewrite <- Hjoin at 1.
    apply join_snoc. intros Hnil. rewrite Heq, Hnil in Hlen.
    simpl in Hlen. lia.
Qed.

(** ** The dependency resolver *)

(** C9.  A base name with a dot in it is resolved as a fully qualified
    name: it is cut at its last dot into a namespace and a class name (the
    part without dot after it).  When the registry has no entry for the
    name, the dependency carries this class name, this namespace and the
    project ["external"]; when it has one, the dependency carries this class
    name and the namespace and project of the entry. *)
Theorem resolveClassDependency_qualified (baseType currentNamespace : jsstring)
    (imports : list jsstring) (classRegistry : ClassMapping) :
  includes baseType (js ".") = true ->
  exists cls ns,
    baseType = ns ++ js "." ++ cls
    /\ (code "." ∉ cls)
    /\ (classRegistry !! baseType = None ->
        resolveClassDependency baseType currentNamespace imports classRegistry
        = Some {| className := cls;
                  namespace := ns;
                  projectName := js "external" |})
    /\ (forall info, classRegistry !! baseType = Some info ->
        resolveClassDependency baseType currentNamespace imports classRegistry
        = Some {| className := cls;
                  namespace := ClassInfo_namespace info;
                  projectName := ClassInfo_projectName info |}).
Proof.
  intros Hinc.
  assert (Hdot : code "." ∈ baseType) by (by apply includes_char).
  destruct (split_pop_join baseType Hdot) as (cls & Hlast & Hcls & Heq).
  exists cls, (join (removelast (split baseType (code "."))) (js ".")).
  split; [exact Heq|]. split; [exact Hcls|].
  unfold resolveClassDependency, resolveFullyQualifiedName.
  rewrite Hinc, Hlast.
  split; [intros -> | intros info ->]; done.
Qed.

Lemma resolveClassDependency_qualified_witness :
  exists cls ns,
    js "Vendor.Ui.Widget" = ns ++ js "." ++ cls
    /\ (code "." ∉ cls)
    /\ resolveClassDependency (js "Vendor.Ui.Widget") (js "App") [] ∅
       = Some {| className := cls;
                 namespace := ns;
                 projectName := js "external" |}.
Proof.
  destruct (resolveClassDependency_qualified (js "Vendor.Ui.Widget")
              (js "App") [] ∅ eq_refl) as (cls & ns & Heq & Hdot & Hmiss & _).
  exists cls, ns. split; [exact Heq|]. split; [exact Hdot|].
  apply Hmiss. reflexivity.
Defined.

(** ** The records of a file *)

Lemma resolveDependencies_untyped_step_named
    (currentClassName : option jsstring) (classRegistry : ClassMapping)
    (file : File) (st : gset jsstring * list DependencyInfo)
    (dep : ClassDependency) :
  is_Some (ClassDependency_className dep) ->
  exists st',
    resolveDependencies_untyped_step currentClassName classRegistry file st
      dep = Return st'.
Proof.
  intros [depName Hname]. destruct st as [resolved out].
  unfold resolveDependencies_untyped_step. rewrite Hname.
  cbn [isPrimitiveType_untyped mbind outcome_bind].
  destruct (isPrimitiveType depName || bool_decide (Some depName = _));
    [eauto|].
  destruct (bool_decide (baseTypeOf depName ∈ resolved)); [eauto|].
  destruct (resolveClassDependency _ _ _ _); eauto.
Qed.

Lemma resolveDependencies_untyped_step_unnamed
    (currentClassName : option jsstring) (classRegistry : ClassMapping)
    (file : File) (st : gset jsstring * list DependencyInfo)
    (dep : ClassDependency) :
  ClassDependency_className dep = None ->
  resolveDependencies_untyped_step currentClassName classRegistry file st dep
  = Throw TypeError.
Proof.
  intros Hname. destruct st as [resolved out].
  unfold resolveDependencies_untyped_step. by rewrite Hname.
Qed.

(** The call returns when every candidate has a name. *)
Lemma resolveDependencies_untyped_returns (total : list ClassDependency)
    (imports : list jsstring) (currentNamespace : jsstring)
    (currentClassName : option jsstring) (classRegistry : ClassMapping)
    (file : File) (classItem : Class_) :
  Forall (fun r => is_Some (ClassDependency_className r)) total ->
  exists resolved,
    resolveDependencies_untyped total imports currentNamespace
      currentClassName classRegistry file classItem = Return resolved.
Proof.
  unfold resolveDependencies_untyped. generalize (∅ : gset jsstring, @nil DependencyInfo).
  induction total as [|r total IH]; intros st Hall; [by eexists|].
  apply Forall_cons in Hall as [Hr Hall].
  destruct (resolveDependencies_untyped_step_named currentClassName
              classRegistry file st r Hr) as [st' Hst].
  cbn [for_of]. rewrite Hst. apply (IH st' Hall).
Qed.

(** The call throws as soon as a candidate has none. *)
Lemma resolveDependencies_untyped_throws (total : list ClassDependency)
    (imports : list jsstring) (currentNamespace : jsstring)
    (currentClassName : option jsstring) (classRegistry : ClassMapping)
    (file : File) (classItem : Class_) :
  ~ Forall (fun r => is_Some (ClassDependency_className r)) total ->
  resolveDependencies_untyped total imports currentNamespace currentClassName
    classRegistry file classItem = Throw TypeError.
Proof.
  unfold resolveDependencies_untyped. generalize (∅ : gset jsstring, @nil DependencyInfo).
  induction total as [|r total IH]; intros st Hnot.
  - destruct Hnot. constructor.
  - cbn [for_of].
    destruct (ClassDependency_className r) as [depName|] eqn:Hname.
    + destruct (resolveDependencies_untyped_step_named currentClassName
                  classRegistry file st r) as [st' Hst];
        [by rewrite Hname|].
      rewrite Hst. apply IH. intros Hall. apply Hnot.
      constructor; [by rewrite Hname | done].
    + by rewrite resolveDependencies_untyped_step_unnamed.
Qed.

(** On records that all have a name, and for a class that has one, the call
    returns what [resolveDependencies] returns on the candidates of these
    names. *)
Lemma resolveDependencies_untyped_typed (total : list ClassDependency)
    (dependencies : list DependencyInfo) (imports : list jsstring)
    (currentNamespace currentClassName : jsstring)
    (classRegistry : ClassMapping) (file : File) (classItem : Class_) :
  Forall2 (fun r dep => ClassDependency_className r = Some (className dep))
    total dependencies ->
  resolveDependencies_untyped total imports currentNamespace
    (Some currentClassName) classRegistry file classItem
  = Return (resolveDependencies dependencies imports currentNamespace
              currentClassName classRegistry file classItem).
Proof.
  intros Hnames. unfold resolveDependencies_untyped, resolveDependencies.
  generalize (∅ : gset jsstring, @nil DependencyInfo).
  induction Hnames as [|r dep total deps Hname _ IH]; intros st; [done|].
  cbn [for_of fold_left].
  assert (Hstep :
    resolveDependencies_untyped_step (Some currentClassName) classRegistry
      file st r
    = Return (resolveDependencies_step currentClassName classRegistry file
                st dep)).
  { destruct st as [resolved out].
    unfold resolveDependencies_untyped_step, resolveDependencies_step.
    rewrite Hname. cbn [isPrimitiveType_untyped mbind outcome_bind].
    unfold jsstring_eqb.
    rewrite (bool_decide_ext (Some (className dep) = Some currentClassName)
               (className dep = currentClassName))
      by (split; congruence).
    destruct (isPrimitiveType (className dep) || bool_decide _); [done|].
    destruct (bool_decide (baseTypeOf (className dep) ∈ resolved)); [done|].
    by destruct (resolveClassDependency _ _ _ _). }
  rewrite Hstep. apply IH.
Qed.

Lemma resolveDependencies_untyped_ext (total : list ClassDependency)
    (imports imports' : list jsstring)
    (currentNamespace currentNamespace' : jsstring)
    (currentClassName : option jsstring) (classRegistry : ClassMapping)
    (file file' : File) (classItem classItem' : Class_) :
  File_namespace file' = File_namespace file ->
  File_imports file' = File_imports file ->
  resolveDependencies_untyped total imports' currentNamespace'
    currentClassName classRegistry file' classItem'
  = resolveDependencies_untyped total imports currentNamespace
      currentClassName classRegistry file classItem.
Proof.
  intros Hns Himp. unfold resolveDependencies_untyped.
  generalize (∅ : gset jsstring, @nil DependencyInfo).
  induction total as [|r total IH]; intros st; [done|].
  cbn [for_of].
  replace (resolveDependencies_untyped_step currentClassName classRegistry
             file' st r)
    with (resolveDependencies_untyped_step currentClassName classRegistry
            file st r)
    by (destruct st; unfold resolveDependencies_untyped_step;
        by rewrite Hns, Himp).
  destruct (resolveDependencies_untyped_step _ _ file st r) as [st'| |];
    [apply IH | done | done].
Qed.

(** The loop of [resolveClassDependencies] on classes that all have a name,
    the last one apart: it returns, and the record of each class carries
    what [resolveDependencies] made of the records before it. *)
Lemma resolveClassDependencies_loop (filePath : jsstring) (file : File)
    (classRegistry : ClassMapping) (cs : list Class_) :
  forall total : list ClassDependency,
    Forall (fun r => is_Some (ClassDependency_className r)) total ->
    Forall (fun c => is_Some (Class_className c)) (removelast cs) ->
    exists added,
      for_of
        (fun total c =>
           resolved ← resolveDependencies_untyped total (File_imports file)
                        (File_namespace file) (Class_className c)
                        classRegistry file c;
           Return (total
                   ++ [ {| ClassDependency_className := Class_className c;
                           filePath := filePath;
                           ClassDependency_namespace := File_namespace file;
                           ClassDependency_projectName :=
                             File_projectName file;
                           dependencies := resolved |} ]))
        cs total
      = Return (total ++ added)
      /\ length added = length cs
      /\ forall (i : nat) c, cs !! i = Some c ->
           exists resolved,
             resolveDependencies_untyped (total ++ take i added)
               (File_imports file) (File_namespace file) (Class_className c)
               classRegistry file c = Return resolved
             /\ added !! i
                = Some {| ClassDependency_className := Class_className c;
                          filePath := filePath;
                          ClassDependency_namespace := File_namespace file;
                          ClassDependency_projectName :=
                            File_projectName file;
                          dependencies := resolved |}.
Proof.
  induction cs as [|c cs IH]; intros total Htotal Hcs.
  - exists []. rewrite app_nil_r. split; [done|]. split; [done|].
    intros i c Hc. by rewrite lookup_nil in Hc.
  - destruct (resolveDependencies_untyped_returns total (File_imports file)
                (File_namespace file) (Class_className c) classRegistry file
                c Htotal) as [resolved Hres].
    cbn [for_of]. rewrite Hres. cbn [mbind outcome_bind].
    set (r := {| ClassDependency_className := Class_className c;
                 filePath := filePath;
                 ClassDependency_namespace := File_namespace file;
                 ClassDependency_projectName := File_projectName file;
                 dependencies := resolved |}).
    destruct cs as [|c' cs'].
    + exists [r]. split; [done|]. split; [done|].
      intros [|i] c0 Hc0; [|by destruct i].
      injection Hc0 as <-. exists resolved.
      cbn [take]. by rewrite app_nil_r.
    + change (removelast (c :: c' :: cs'))
        with (c :: removelast (c' :: cs')) in Hcs.
      apply Forall_cons in Hcs as [Hc Hcs].
      destruct (IH (total ++ [r])) as (added & Heq & Hlen & Hidx);
        [apply Forall_app; split; [done|]; by constructor | done |].
      exists (r :: added). split; [|split].
      * rewrite Heq. by rewrite <- app_assoc.
      * cbn [length]. by rewrite Hlen.
      * intros [|i] c0 Hc0.
        -- injection Hc0 as <-. exists resolved.
           cbn [take]. by rewrite app_nil_r.
        -- destruct (Hidx i c0 Hc0) as (resolved0 & Hres0 & Hlook).
           exists resolved0. split; [|exact Hlook].
           cbn [take]. by rewrite <- app_assoc in Hres0.
Qed.

(** The loop throws when a class that is not the last one has no name: the
    record of that class is a candidate of the class after it. *)
Lemma resolveClassDependencies_loop_throws (filePath : jsstring)
    (file : File) (classRegistry : ClassMapping) (cs : list Class_) :
  forall total : list ClassDependency,
    Forall (fun r => is_Some (ClassDependency_className r)) total ->
    ~ Forall (fun c => is_Some (Class_className c)) (removelast cs) ->
    for_of
      (fun total c =>
         resolved ← resolveDependencies_untyped total (File_imports file)
                      (File_namespace file) (Class_className c)
                      classRegistry file c;
         Return (total
                 ++ [ {| ClassDependency_className := Class_className c;
                         filePath := filePath;
                         ClassDependency_namespace := File_namespace file;
                         ClassDependency_projectName :=
                           File_projectName file;
                         dependencies := resolved |} ]))
      cs total
    = Throw TypeError.
Proof.
  induction cs as [|c cs IH]; intros total Htotal Hnot.
  - destruct Hnot. constructor.
  - destruct cs as [|c' cs']; [destruct Hnot; constructor|].
    change (removelast (c :: c' :: cs'))
      with (c :: removelast (c' :: cs')) in Hnot.
    destruct (resolveDependencies_untyped_returns total (File_imports file)
                (File_namespace file) (Class_className c) classRegistry file
                c Htotal) as [resolved Hres].
    cbn [for_of]. rewrite Hres. cbn [mbind outcome_bind].
    destruct (Class_className c) as [clsName|] eqn:Hname.
    + apply IH.
      * apply Forall_app. split; [done|]. by constructor.
      * intros Hall. apply Hnot. constructor; [by rewrite Hname | done].
    + cbn [for_of].
      rewrite resolveDependencies_untyped_throws; [done|].
      intros Hall. apply Forall_app in Hall as [_ Hall].
      apply Forall_cons in Hall as [[? Hr] _]. discriminate Hr.
Qed.

(** Two loops whose bodies agree on classes of the same name have the same
    outcome on lists of classes that bear the same names. *)
Lemma for_of_same_names {S : Type} (body body' : S -> Class_ -> outcome S) :
  (forall s c c',
      Class_className c' = Class_className c -> body' s c' = body s c) ->
  forall (cs cs' : list Class_) (s : S),
    map Class_className cs' = map Class_className cs ->
    for_of body' cs' s = for_of body cs s.
Proof.
  intros Hbody.
  induction cs as [|c cs IH]; intros [|c' cs'] s Hnames; try done.
  injection Hnames as Hname Hnames. cbn [for_of].
  rewrite (Hbody s c c' Hname).
  destruct (body s c) as [s'| |]; [|done|done].
  cbn [mbind outcome_bind]. by apply IH.
Qed.

(** C2.  In [resolveClassDependencies], the candidates that are resolved for
    the class at index [i] of a file are the records pushed for the classes
    before it in the same file, not the types extracted for the class: the
    outcome is the same whatever the bodies of the classes are, and the
    record of the first class of a file has no dependency.  The function
    returns when every class but the last has a name; it throws a
    [TypeError] otherwise, since a record without name is a candidate of
    the next class.  On the classes as [processSingleClass] builds them,
    without name, a file of one class gives one record without dependency
    and a file of two classes or more gives none. *)
Theorem resolveClassDependencies_candidates (filePath : jsstring)
    (file : File) (classRegistry : ClassMapping) :
  (forall total,
      resolveClassDependencies filePath file classRegistry = Return total ->
      length total = length (File_classes file)
      /\ forall (i : nat) c, File_classes file !! i = Some c ->
           exists resolved,
             resolveDependencies_untyped (take i total) (File_imports file)
               (File_namespace file) (Class_className c) classRegistry file c
             = Return resolved
             /\ total !! i
                = Some {| ClassDependency_className := Class_className c;
                          filePath := filePath;
                          ClassDependency_namespace := File_namespace file;
                          ClassDependency_projectName :=
                            File_projectName file;
                          dependencies := resolved |})
  /\ (forall file',
        File_namespace file' = File_namespace file ->
        File_imports file' = File_imports file ->
        File_projectName file' = File_projectName file ->
        map Class_className (File_classes file')
        = map Class_className (File_classes file) ->
        resolveClassDependencies filePath file' classRegistry
        = resolveClassDependencies filePath file classRegistry)
  /\ (forall total r,
        resolveClassDependencies filePath file classRegistry = Return total ->
        head total = Some r ->
        dependencies r = [])
  /\ (Forall (fun c => is_Some (Class_className c))
        (removelast (File_classes file)) ->
      exists total,
        resolveClassDependencies filePath file classRegistry = Return total)
  /\ (~ Forall (fun c => is_Some (Class_className c))
          (removelast (File_classes file)) ->
      resolveClassDependencies filePath file classRegistry = Throw TypeError)
  /\ (Forall (fun c => Class_className c = None) (File_classes file) ->
      resolveClassDependencies filePath file classRegistry
      = match File_classes file with
        | [] => Return []
        | [c] =>
            Return [ {| ClassDependency_className := None;
                        filePath := filePath;
                        ClassDependency_namespace := File_namespace file;
                        ClassDependency_projectName := File_projectName file;
                        dependencies := [] |} ]
        | _ :: _ :: _ => Throw TypeError
        end).
Proof.
  assert (Hreturns :
    forall total,
      resolveClassDependencies filePath file classRegistry = Return total ->
      length total = length (File_classes file)
      /\ forall (i : nat) c, File_classes file !! i = Some c ->
           exists resolved,
             resolveDependencies_untyped (take i total) (File_imports file)
               (File_namespace file) (Class_className c) classRegistry file c
             = Return resolved
             /\ total !! i
                = Some {| ClassDependency_className := Class_className c;
                          filePath := filePath;
                          ClassDependency_namespace := File_namespace file;
                          ClassDependency_projectName :=
                            File_projectName file;
                          dependencies := resolved |}).
  { intros total Hret. unfold resolveClassDependencies in Hret.
    destruct (decide (Forall (fun c => is_Some (Class_className c))
                        (removelast (File_classes file)))) as [Hall|Hnot].
    - destruct (resolveClassDependencies_loop filePath file classRegistry
                  (File_classes file) [] (Forall_nil_2 _) Hall)
        as (added & Heq & Hlen & Hidx).
      rewrite Heq in Hret. injection Hret as <-. by cbn [app] in *.
    - rewrite (resolveClassDependencies_loop_throws filePath file
                 classRegistry (File_classes file) [] (Forall_nil_2 _) Hnot)
        in Hret.
      discriminate Hret. }
  split; [exact Hreturns|]. split; [|split; [|split; [|split]]].
  - intros file' Hns Himp Hproj Hnames. unfold resolveClassDependencies.
    apply for_of_same_names; [|exact Hnames].
    intros total c c' Hname. rewrite Hns, Himp, Hproj, Hname.
    by rewrite (resolveDependencies_untyped_ext total (File_imports file)
                  (File_imports file) (File_namespace file)
                  (File_namespace file) (Class_className c) classRegistry
                  file file' c c' Hns Himp).
  - intros total r Hret Hr.
    destruct (Hreturns total Hret) as [Hlen Hidx].
    destruct (File_classes file) as [|c cs] eqn:Hcs;
      [by destruct total|].
    destruct (Hidx 0%nat c eq_refl) as (resolved & Hres & Hlook).
    rewrite head_lookup, Hlook in Hr. injection Hr as <-.
    cbn [take] in Hres. by injection Hres as <-.
  - intros Hall. unfold resolveClassDependencies.
    destruct (resolveClassDependencies_loop filePath file classRegistry
                (File_classes file) [] (Forall_nil_2 _) Hall)
      as (added & Heq & _).
    by exists added.
  - intros Hnot. unfold resolveClassDependencies.
    by apply resolveClassDependencies_loop_throws.
  - intros Hnone. unfold resolveClassDependencies.
    destruct (File_classes file) as [|c [|c' cs]]; [done| |].
    + apply Forall_cons in Hnone as [Hc _]. cbn. by rewrite Hc.
    + apply resolveClassDependencies_loop_throws; [constructor|].
      change (removelast (c :: c' :: cs))
        with (c :: removelast (c' :: cs)).
      intros Hall. apply Forall_cons in Hall as [[? Hc] _].
      apply Forall_cons in Hnone as [Hc' _]. congruence.
Qed.

Lemma resolveClassDependencies_candidates_witness :
  resolveClassDependencies (js "FooBar.cs") example_File_built
    example_registry = Throw TypeError
  /\ exists r,
       resolveClassDependencies (js "Foo.cs") example_FooFile_built
         example_registry = Return [r]
       /\ ClassDependency_className r = None
       /\ dependencies r = [].
Proof.
  split.
  - destruct (resolveClassDependencies_candidates (js "FooBar.cs")
                example_File_built example_registry)
      as (_ & _ & _ & _ & Hthrow & _).
    apply Hthrow. intros Hall.
    apply Forall_cons in Hall as [[? Hname] _]. discriminate Hname.
  - destruct (resolveClassDependencies_candidates (js "Foo.cs")
                example_FooFile_built example_registry)
      as (Hidx & _ & Hhead & Hret & _ & _).
    destruct (Hret (Forall_nil_2 _)) as [total Htotal].
    destruct (Hidx total Htotal) as [Hlen Hrec].
    destruct (Hrec 0%nat (withoutName example_Foo) eq_refl)
      as (resolved & _ & Hlook).
    destruct total as [|r [|r' total]]; try discriminate Hlen.
    exists r. split; [exact Htotal|]. split.
    + injection Hlook as ->. reflexivity.
    + by apply (Hhead [r] r).
Defined.

(** ** Regular expressions *)

Lemma rep_greedy_spec {R} (cls : N -> bool) (rest : jsstring) :
  forall min max pos prev (k : cursor -> option R) res,
    rep_greedy cls min max pos prev rest k = Some res ->
    exists cur,
      k cur = Some res
      /\ (pos + min <= cur_pos cur)%nat
      /\ (cur_pos cur + length (cur_rest cur) = pos + length rest)%nat.
Proof.
  induction rest as [|c rest IH]; intros min max pos prev k res H.
  - simpl in H. destruct min; [|done].
    eexists. split; [exact H|]. simpl. lia.
  - cbn [rep_greedy] in H.
    assert (Hstop :
      match min with
      | O => k (Cursor pos prev (c :: rest))
      | S _ => None
      end = Some res ->
      exists cur,
        k cur = Some res
        /\ (pos + min <= cur_pos cur)%nat
        /\ (cur_pos cur + length (cur_rest cur)
            = pos + length (c :: rest))%nat).
    { intros Hk. destruct min; [|done].
      eexists. split; [exact Hk|]. simpl. lia. }
    destruct (cls c && may_take max); [|by apply Hstop].
    destruct (rep_greedy cls (Nat.pred min) (Nat.pred <$> max) (S pos)
                (Some c) rest k) as [res'|] eqn:E; [|by apply Hstop].
    injection H as ->.
    destruct (IH _ _ _ _ _ _ E) as (cur & Hk & Hpos & Hlen).
    exists cur. split; [exact Hk|]. simpl. lia.
Qed.

(** A match moves the cursor forward inside the input, by at least the
    least length of the pattern. *)
Lemma rmatch_spec {R} (r : regex) :
  forall cur caps (k : cursor -> list jsstring -> option R) res,
    rmatch r cur caps k = Some res ->
    exists cur' caps',
      k cur' caps' = Some res
      /\ (cur_pos cur + minLength r <= cur_pos cur')%nat
      /\ (cur_pos cur' + length (cur_rest cur')
          = cur_pos cur + length (cur_rest cur))%nat.
Proof.
  induction r as [c|cls min max|r1 IH1 r2 IH2|r IH|];
    intros cur caps k res H; simpl in H.
  - destruct (cur_rest cur) as [|c' rest] eqn:Hrest; [done|].
    destruct (c' =? c)%N; [|done].
    eexists _, _. split; [exact H|]. simpl. lia.
  - apply rep_greedy_spec in H as (cur' & Hk & Hpos & Hlen).
    exists cur', caps. simpl. auto.
  - apply IH1 in H as (cur1 & caps1 & H & Hpos1 & Hlen1).
    apply IH2 in H as (cur2 & caps2 & H & Hpos2 & Hlen2).
    exists cur2, caps2. simpl. split; [exact H|]. lia.
  - apply IH in H as (cur' & caps' & H & Hpos & Hlen).
    eexists _, _. split; [exact H|]. simpl. lia.
  - destruct (xorb _ _); [|done].
    exists cur, caps. simpl. split; [exact H|]. lia.
Qed.

Lemma exec_loop_spec (r : regex) (rest : jsstring) :
  forall pos prev m,
    exec_loop r pos prev rest = Some m ->
    (pos <= m_index m)%nat
    /\ (m_index m + minLength r <= m_end m)%nat
    /\ (m_end m <= pos + length rest)%nat.
Proof.
  induction rest as [|c rest IH]; intros pos prev m H; cbn [exec_loop] in H.
  - destruct (rmatch r _ _ _) as [[cur caps]|] eqn:E; [|done].
    injection H as <-.
    apply rmatch_spec in E as (cur' & caps' & [= -> ->] & Hpos & Hlen).
    simpl in *. lia.
  - destruct (rmatch r _ _ _) as [[cur caps]|] eqn:E.
    + injection H as <-.
      apply rmatch_spec in E as (cur' & caps' & [= -> ->] & Hpos & Hlen).
      simpl in *. lia.
    + apply IH in H. simpl. lia.
Qed.

(** A match found from [lastIndex] on starts at [lastIndex] or later, is at
    least as long as the least length of the pattern and ends inside the
    string. *)
Lemma exec_from_spec (r : regex) (str : jsstring) (lastIndex : nat)
    (m : MatchResult) :
  exec_from r str lastIndex = Some m ->
  (lastIndex <= m_index m)%nat
  /\ (m_index m + minLength r <= m_end m)%nat
  /\ (m_end m <= length str)%nat.
Proof.
  unfold exec_from. case_bool_decide as Hle; [|done].
  intros H. apply exec_loop_spec in H. rewrite length_drop in H. lia.
Qed.

(** ** The symbol registry *)

Lemma setAll_app (calls1 calls2 : list (jsstring * ClassInfo))
    (classRegistry : ClassMapping) :
  setAll (calls1 ++ calls2) classRegistry
  = setAll calls2 (setAll calls1 classRegistry).
Proof. apply fold_left_app. Qed.

Lemma registerClassesFromFile_loop_setAll (fuel : nat) (content : jsstring) :
  forall lastIndex namespace projectName (classRegistry : ClassMapping),
    registerClassesFromFile_loop fuel content lastIndex namespace projectName
      classRegistry
    = setAll (registrations_loop fuel content lastIndex namespace projectName)
        classRegistry.
Proof.
  induction fuel as [|fuel IH]; intros lastIndex ns pn reg; [done|].
  simpl. destruct (exec_from _ content lastIndex) as [m|]; [|done].
  rewrite IH. by destruct (truthy_string ns).
Qed.

(** The loop of [registerClassesFromFile] ends before its fuel is used up:
    with any fuel greater than what is left of the content, it makes the
    same [set] calls. *)
Lemma registrations_loop_fuel (content : jsstring)
    (namespace projectName : jsstring) (fuel1 : nat) :
  forall fuel2 lastIndex,
    (length content - lastIndex < fuel1)%nat ->
    (length content - lastIndex < fuel2)%nat ->
    registrations_loop fuel1 content lastIndex namespace projectName
    = registrations_loop fuel2 content lastIndex namespace projectName.
Proof.
  induction fuel1 as [|fuel1 IH]; intros [|fuel2] lastIndex H1 H2; try lia.
  cbn [registrations_loop].
  destruct (exec_from _ content lastIndex) as [m|] eqn:E; [|done].
  apply exec_from_spec in E as (Hstart & Hlen & Hend).
  change (minLength (source classRegex)) with 7%nat in Hlen.
  rewrite (IH fuel2) by lia. done.
Qed.

Lemma registerClassesFromFile_fuel_enough (content projectName : jsstring)
    (classRegistry : ClassMapping) (fuel : nat) :
  (length content < fuel)%nat ->
  registerClassesFromFile_loop fuel content 0
    (match exec namespaceRegex content with
     | Some m => group1 m
     | None => []
     end) projectName classRegistry
  = registerClassesFromFile content projectName classRegistry.
Proof.
  intros Hfuel. unfold registerClassesFromFile.
  rewrite !registerClassesFromFile_loop_setAll.
  f_equal. apply registrations_loop_fuel; lia.
Qed.

Lemma registerClassesFromFile_setAll (content projectName : jsstring)
    (classRegistry : ClassMapping) :
  registerClassesFromFile content projectName classRegistry
  = setAll (registrationsOfFile content projectName) classRegistry.
Proof. apply registerClassesFromFile_loop_setAll. Qed.

(** The registry after the first pass is the registry on which the [set]
    calls of the pass were made in order. *)
Lemma firstPass_setAll (readFile : jsstring -> option jsstring)
    (projectSourceFiles : list (jsstring * list jsstring)) :
  forall classRegistry : ClassMapping,
    firstPass readFile projectSourceFiles classRegistry
    = setAll (registrations readFile projectSourceFiles) classRegistry.
Proof.
  unfold firstPass.
  induction projectSourceFiles as [|[projectName sourceFiles] rest IH];
    intros reg; [done|].
  simpl. rewrite IH, setAll_app. f_equal.
  clear IH. revert reg.
  induction sourceFiles as [|filePath sourceFiles IH]; intros reg; [done|].
  simpl. rewrite IH, setAll_app. f_equal.
  unfold firstPass_file. destruct (readFile filePath); [|done].
  apply registerClassesFromFile_setAll.
Qed.

Lemma setAll_lookup_notin (calls : list (jsstring * ClassInfo))
    (key : jsstring) :
  forall classRegistry : ClassMapping,
    key ∉ calls.*1 ->
    setAll calls classRegistry !! key = classRegistry !! key.
Proof.
  induction calls as [|[k v] calls IH]; intros reg Hkey; [done|].
  simpl in Hkey. apply not_elem_of_cons in Hkey as [Hne Hkey].
  unfold setAll in *. simpl. rewrite IH by done.
  by rewrite lookup_insert_ne.
Qed.

Lemma setAll_lookup_last (before after : list (jsstring * ClassInfo))
    (key : jsstring) (info : ClassInfo) (classRegistry : ClassMapping) :
  key ∉ after.*1 ->
  setAll (before ++ (key, info) :: after) classRegistry !! key = Some info.
Proof.
  intros Hkey. rewrite setAll_app.
  change (setAll ((key, info) :: after) (setAll before classRegistry))
    with (setAll after (<[key := info]> (setAll before classRegistry))).
  rewrite setAll_lookup_notin by done. apply lookup_insert_eq.
Qed.

Lemma registrationsOfFile_class_Foo (projectName : jsstring) :
  registrationsOfFile (js "class Foo { }") projectName
  = [(js "Foo", {| ClassInfo_namespace := [];
                   ClassInfo_projectName := projectName |})].
Proof. vm_compute. reflexivity. Qed.

(** C8.  After the first pass, a key of the registry maps to the entry of
    the last [set] call made under that key, and a key under which no call
    was made has no entry.  When two projects each declare a class [Foo]
    without namespace, the bare name [Foo] maps to the entry of the project
    that was registered last, and it is that project to which [Foo] is
    resolved. *)
Theorem registry_last_registration_wins
    (readFile : jsstring -> option jsstring)
    (projectSourceFiles : list (jsstring * list jsstring)) :
  (forall key info before after,
      registrations readFile projectSourceFiles
      = before ++ (key, info) :: after ->
      key ∉ after.*1 ->
      firstPass readFile projectSourceFiles ∅ !! key = Some info)
  /\ (forall key,
        key ∉ (registrations readFile projectSourceFiles).*1 ->
        firstPass readFile projectSourceFiles ∅ !! key = None)
  /\ (forall project1 project2 file1 file2 imports,
        readFile file1 = Some (js "class Foo { }") ->
        readFile file2 = Some (js "class Foo { }") ->
        firstPass readFile [(project1, [file1]); (project2, [file2])] ∅
          !! js "Foo"
        = Some {| ClassInfo_namespace := [];
                  ClassInfo_projectName := project2 |}
        /\ resolveClassDependency (js "Foo") [] imports
             (firstPass readFile [(project1, [file1]); (project2, [file2])] ∅)
           = Some {| className := js "Foo";
                     namespace := [];
                     projectName := project2 |}).
Proof.
  split; [|split].
  - intros key info before after Hcalls Hkey.
    rewrite firstPass_setAll, Hcalls. by apply setAll_lookup_last.
  - intros key Hkey.
    rewrite firstPass_setAll, setAll_lookup_notin by done.
    apply lookup_empty.
  - intros project1 project2 file1 file2 imports H1 H2.
    assert (Hreg :
      firstPass readFile [(project1, [file1]); (project2, [file2])] ∅
        !! js "Foo"
      = Some {| ClassInfo_namespace := [];
                ClassInfo_projectName := project2 |}).
    { unfold firstPass, firstPass_file. simpl. rewrite H1, H2.
      rewrite !registerClassesFromFile_setAll, !registrationsOfFile_class_Foo.
      apply lookup_insert_eq. }
    split; [exact Hreg|].
    unfold resolveClassDependency, resolveWithNamespace.
    change (includes (js "Foo") (js ".")) with false.
    change (truthy_string []) with false.
    cbv iota. by rewrite Hreg.
Qed.

Lemma registry_last_registration_wins_witness :
  firstPass twoFoo_readFile twoFoo_projects ∅ !! js "Foo"
  = Some {| ClassInfo_namespace := []; ClassInfo_projectName := js "Api" |}
  /\ firstPass twoFoo_readFile (reverse twoFoo_projects) ∅ !! js "Foo"
     = Some {| ClassInfo_namespace := []; ClassInfo_projectName := js "Web" |}.
Proof.
  split.
  - apply (proj1 (registry_last_registration_wins twoFoo_readFile
                    twoFoo_projects)
             (js "Foo")
             {| ClassInfo_namespace := []; ClassInfo_projectName := js "Api" |}
             [(js "Foo", {| ClassInfo_namespace := [];
                            ClassInfo_projectName := js "Web" |})]
             []).
    + reflexivity.
    + apply not_elem_of_nil.
  - apply (proj2 (proj2 (registry_last_registration_wins twoFoo_readFile []))
             (js "Api") (js "Web") (js "Api/Foo.cs") (js "Web/Foo.cs") []);
      reflexivity.
Defined.

(** ** The comment and layout normalizer *)

(** The loop of [stripRightComment] never changes what its condition reads:
    when a turn does not return, no later turn does. *)
Lemma stripRightComment_loop_stuck (line : jsstring) (index : Z) :
  (index >? -1) && (index <? Z.of_nat (length line) - 1) = true ->
  (let index' :=
     findNext line (js "/") (Z.lor BRACKETS_STRING BRACKETS_CHAR) 0 in
   negb (index' =? -1)
   && bool_decide (charAt line (index' + 1) = Some (code "/"))) = false ->
  forall fuel, stripRightComment_loop fuel line index = OutOfFuel.
Proof.
  intros Hcond Hturn fuel. cbv zeta in Hturn.
  induction fuel as [|fuel IH]; cbn [stripRightComment_loop];
    rewrite Hcond; [done|].
  cbv zeta. rewrite Hturn. exact IH.
Qed.

Lemma stripRightComment_loop_no_throw (fuel : nat) (line : jsstring)
    (index : Z) (e : exn) :
  stripRightComment_loop fuel line index <> Throw e.
Proof.
  induction fuel as [|fuel IH]; simpl; repeat case_match; done.
Qed.

Lemma stripRightComment_no_throw (fuel : nat) (line : jsstring) (e : exn) :
  stripRightComment fuel line <> Throw e.
Proof.
  unfold stripRightComment. case_match; [done|].
  apply stripRightComment_loop_no_throw.
Qed.

Lemma forEach_assign_no_throw {A} (f : A -> outcome A) (arr : list A)
    (e : exn) :
  (forall x e', f x <> Throw e') -> forEach_assign f arr <> Throw e.
Proof.
  intros Hf. induction arr as [|x arr IH]; [done|].
  simpl. pose proof (Hf x) as Hx.
  destruct (f x) as [y| |]; simpl; [|by destruct (Hx e0)|done].
  destruct (forEach_assign f arr); simpl; done.
Qed.

(** [preParseText] never returns: once the comments at the right of the
    lines are stripped, [replaceAll] is called with a pattern that has no
    [g] flag and throws. *)
Lemma preParseText_never_returns (fuel : nat) (str : jsstring) :
  preParseText fuel str = Throw TypeError \/ preParseText fuel str = OutOfFuel.
Proof.
  unfold preParseText.
  match goal with |- context [forEach_assign ?f ?l] =>
    pose proof (fun e => forEach_assign_no_throw f l e
                  (stripRightComment_no_throw fuel)) as Hno;
    destruct (forEach_assign f l) as [noComments|e|] end; simpl.
  - left. reflexivity.
  - by destruct (Hno e).
  - right. reflexivity.
Qed.

(** C3.  [preParseText] is not total.  On the text
    ["int x; /* c */ int y;"], whose block comment opens and closes on one
    line, it throws a [TypeError] whatever the fuel; and there is no text
    at all on which it returns a normalized string: on every text it throws
    or is still running when the fuel is used up. *)
Theorem preParseText_throws :
  (forall fuel, preParseText fuel (js "int x; /* c */ int y;") = Throw TypeError)
  /\ (forall fuel str,
        preParseText fuel str = Throw TypeError
        \/ preParseText fuel str = OutOfFuel).
Proof.
  split.
  - intros fuel. reflexivity.
  - apply preParseText_never_returns.
Qed.

(** When the first slash outside literals starts the comment, the first turn
    of the loop cuts the line there. *)
Example stripRightComment_trailing_comment :
  stripRightComment 1 (js "int x; // count") = Return (js "int x; ")
  /\ stripRightComment 1
       (js "var u = " ++ [dquote] ++ js "http://a" ++ [dquote] ++ js "; // u")
     = Return (js "var u = " ++ [dquote] ++ js "http://a" ++ [dquote] ++ js "; ").
Proof. split; reflexivity. Qed.

(** C4.  [stripRightComment] does not terminate on a line whose only
    comment marker is inside a string literal, nor on a line whose comment
    comes after a division: whatever the fuel, the loop is still running
    when it is used up. *)
Theorem stripRightComment_diverges (fuel : nat) :
  stripRightComment fuel line_marker_in_literal = OutOfFuel
  /\ stripRightComment fuel line_division_then_comment = OutOfFuel.
Proof.
  split.
  - change (stripRightComment fuel line_marker_in_literal)
      with (stripRightComment_loop fuel line_marker_in_literal 0).
    by apply stripRightComment_loop_stuck.
  - change (stripRightComment fuel line_division_then_comment)
      with (stripRightComment_loop fuel line_division_then_comment 0).
    by apply stripRightComment_loop_stuck.
Qed.

(** ** The two passes *)

Lemma for_of_app {A S} (body : S -> A -> outcome S) (l1 l2 : list A) (s : S) :
  for_of body (l1 ++ l2) s = for_of body l1 s ≫= for_of body l2.
Proof.
  revert s. induction l1 as [|x l1 IH]; intros s; [done|].
  simpl. destruct (body s x); simpl; [apply IH | done | done].
Qed.

(** An element on which the body of a loop returns the state it was given
    can be left out of the loop. *)
Lemma for_of_skip {A S} (body : S -> A -> outcome S) (l1 l2 : list A) (x : A)
    (s : S) :
  (forall s', body s' x = Return s') ->
  for_of body (l1 ++ x :: l2) s = for_of body (l1 ++ l2) s.
Proof.
  intros Hx. rewrite !for_of_app.
  destruct (for_of body l1 s) as [s'| |]; simpl; [|done|done].
  by rewrite Hx.
Qed.

Lemma for_of_replace {A S} (body : S -> A -> outcome S) (l1 l2 : list A)
    (x y : A) (s : S) :
  (forall s', body s' x = body s' y) ->
  for_of body (l1 ++ x :: l2) s = for_of body (l1 ++ y :: l2) s.
Proof.
  intros Hxy. rewrite !for_of_app.
  destruct (for_of body l1 s) as [s'| |]; simpl; [|done|done].
  by rewrite Hxy.
Qed.

Section PipelineProperties.

Variable readFile : jsstring -> option jsstring.
Variable processSingleClass : list jsstring -> outcome (option Class_).

(** A file that cannot be read leaves the registry as it is. *)
Lemma firstPass_file_read_failure (projectName filePath : jsstring)
    (classRegistry : ClassMapping) :
  readFile filePath = None ->
  firstPass_file readFile projectName classRegistry filePath = classRegistry.
Proof. intros H. unfold firstPass_file. by rewrite H. Qed.

(** A file that cannot be read adds no record, and the error of the read
    does not leave the loop body. *)
Lemma secondPass_file_read_failure (fuel : nat)
    (projectName filePath : jsstring) (classRegistry : ClassMapping)
    (classDependencies : list ClassDependency) :
  readFile filePath = None ->
  secondPass_file readFile processSingleClass fuel projectName classRegistry
    classDependencies filePath
  = Return classDependencies.
Proof.
  intros H. unfold secondPass_file, await_readFile. by rewrite H.
Qed.

Lemma extractClassesFromFile_never_returns (fuel : nat)
    (content : jsstring) :
  extractClassesFromFile processSingleClass fuel content = Throw TypeError
  \/ extractClassesFromFile processSingleClass fuel content = OutOfFuel.
Proof.
  unfold extractClassesFromFile.
  destruct (preParseText_never_returns fuel content) as [-> | ->];
    [left | right]; reflexivity.
Qed.

(** As [preParseText] never returns, no file adds a record. *)
Lemma secondPass_file_no_record (fuel : nat)
    (projectName filePath : jsstring) (classRegistry : ClassMapping)
    (classDependencies : list ClassDependency) :
  secondPass_file readFile processSingleClass fuel projectName classRegistry
    classDependencies filePath
  = Return classDependencies
  \/ secondPass_file readFile processSingleClass fuel projectName
       classRegistry classDependencies filePath
     = OutOfFuel.
Proof.
  unfold secondPass_file, await_readFile.
  destruct (readFile filePath) as [content|]; [|by left].
  simpl.
  destruct (extractClassesFromFile_never_returns fuel content) as [-> | ->];
    [left | right]; reflexivity.
Qed.

Lemma firstPass_skip (before after : list (jsstring * list jsstring))
    (projectName : jsstring) (files1 files2 : list jsstring)
    (filePath : jsstring) (classRegistry : ClassMapping) :
  readFile filePath = None ->
  firstPass readFile
    (before ++ (projectName, files1 ++ filePath :: files2) :: after)
    classRegistry
  = firstPass readFile
      (before ++ (projectName, files1 ++ files2) :: after) classRegistry.
Proof.
  intros H. unfold firstPass. rewrite !fold_left_app. simpl.
  rewrite !fold_left_app. simpl.
  by rewrite firstPass_file_read_failure.
Qed.

Lemma secondPass_skip (fuel : nat)
    (before after : list (jsstring * list jsstring))
    (projectName : jsstring) (files1 files2 : list jsstring)
    (filePath : jsstring) (classRegistry : ClassMapping)
    (classDependencies : list ClassDependency) :
  readFile filePath = None ->
  secondPass readFile processSingleClass fuel
    (before ++ (projectName, files1 ++ filePath :: files2) :: after)
    classRegistry classDependencies
  = secondPass readFile processSingleClass fuel
      (before ++ (projectName, files1 ++ files2) :: after)
      classRegistry classDependencies.
Proof.
  intros H. unfold secondPass. apply for_of_replace.
  intros acc. apply for_of_skip.
  intros acc'. by apply secondPass_file_read_failure.
Qed.

End PipelineProperties.

(** C10.  A file whose read fails is skipped in both passes: its [catch]
    clause leaves the registry and the records as they are, no error leaves
    the loop, and the registry, the records and the outcome of the whole run
    are those of the run on the same projects without that file. *)
Theorem read_failure_is_skipped
    (readFile : jsstring -> option jsstring)
    (processSingleClass : list jsstring -> outcome (option Class_))
    (fuel : nat) (before after : list (jsstring * list jsstring))
    (projectName : jsstring) (files1 files2 : list jsstring)
    (filePath : jsstring) (complete includeClassDependencies : bool) :
  readFile filePath = None ->
  (forall classRegistry classDependencies,
      firstPass_file readFile projectName classRegistry filePath
      = classRegistry
      /\ secondPass_file readFile processSingleClass fuel projectName
           classRegistry classDependencies filePath
         = Return classDependencies)
  /\ (forall classRegistry,
        firstPass readFile
          (before ++ (projectName, files1 ++ filePath :: files2) :: after)
          classRegistry
        = firstPass readFile
            (before ++ (projectName, files1 ++ files2) :: after)
            classRegistry)
  /\ (forall classRegistry classDependencies,
        secondPass readFile processSingleClass fuel
          (before ++ (projectName, files1 ++ filePath :: files2) :: after)
          classRegistry classDependencies
        = secondPass readFile processSingleClass fuel
            (before ++ (projectName, files1 ++ files2) :: after)
            classRegistry classDependencies)
  /\ parseClassDependencies readFile processSingleClass fuel
       (before ++ (projectName, files1 ++ filePath :: files2) :: after)
       complete includeClassDependencies
     = parseClassDependencies readFile processSingleClass fuel
         (before ++ (projectName, files1 ++ files2) :: after)
         complete includeClassDependencies.
Proof.
  intros H. split; [|split; [|split]].
  - intros reg acc. split.
    + by apply firstPass_file_read_failure.
    + by apply secondPass_file_read_failure.
  - intros reg. by apply firstPass_skip.
  - intros reg acc. by apply secondPass_skip.
  - unfold parseClassDependencies.
    destruct includeClassDependencies; simpl; [|done].
    rewrite firstPass_skip by done. by apply secondPass_skip.
Qed.

Lemma read_failure_is_skipped_witness :
  firstPass example_readFile
    [(js "Shop", [js "Foo.cs"; js "Gone.cs"; js "Bar.cs"])] ∅
  = firstPass example_readFile [(js "Shop", [js "Foo.cs"; js "Bar.cs"])] ∅.
Proof.
  apply (read_failure_is_skipped example_readFile
           (fun _ => Return None) 0 [] [] (js "Shop") [js "Foo.cs"]
           [js "Bar.cs"] (js "Gone.cs") true true).
  reflexivity.
Defined.

(** C1.  The end-to-end example does not yield a record for [Foo].  Whether
    [Foo] and [Bar] are in two files of the project or in one, and whatever
    the per-class extractor and the fuel are, [parseClassDependencies]
    returns the empty list: [preParseText] throws on each file and the file
    is skipped.  And on the classes that the text of the example declares,
    [resolveClassDependencies] gives [Foo], the first class of its file, an
    empty dependency list: there is no entry for [Bar] in it.  On the same
    classes without name, as [processSingleClass] builds them, it throws: no
    record is made for [Foo]. *)
Theorem end_to_end_Foo_has_no_record
    (processSingleClass : list jsstring -> outcome (option Class_))
    (fuel : nat) :
  parseClassDependencies example_readFile processSingleClass fuel
    [(js "Shop", [js "Foo.cs"; js "Bar.cs"])] true true
  = Return []
  /\ parseClassDependencies example_readFile processSingleClass fuel
       [(js "Shop", [js "FooBar.cs"])] true true
     = Return []
  /\ (exists total,
        resolveClassDependencies (js "FooBar.cs") example_File
          example_registry = Return total
        /\ dependencies <$> head total = Some [])
  /\ resolveClassDependencies (js "FooBar.cs") example_File_built
       example_registry = Throw TypeError.
Proof.
  split; [|split; [|split]]; [| |eexists; split|]; vm_compute; reflexivity.
Qed.

(** * Further properties *)

(** ** The depth-aware scanner *)

Lemma findNext_loop_occurs (search : jsstring) (ignore : Z)
    (rest : jsstring) :
  forall depths index,
    findNext_loop rest search ignore depths index = -1
    \/ (index <= findNext_loop rest search ignore depths index
        < index + Z.of_nat (length rest)
        /\ isPrefixOf search
             (drop (Z.to_nat
                      (findNext_loop rest search ignore depths index - index))
                rest) = true).
Proof.
  induction rest as [|char rest IH]; intros depths index; [by left|].
  cbn [findNext_loop].
  destruct (bracketsToIncludes depths ignore char) as [depths' level].
  destruct (level && isPrefixOf search (char :: rest)) eqn:E.
  - right. apply andb_true_iff in E as [_ E].
    rewrite Z.sub_diag. simpl length. split; [lia | exact E].
  - destruct (IH depths' (index + 1)) as [H | [Hrange Hocc]]; [by left|].
    right. simpl length. split; [lia|].
    replace (Z.to_nat (findNext_loop rest search ignore depths' (index + 1)
                       - index))
      with (S (Z.to_nat (findNext_loop rest search ignore depths' (index + 1)
                         - (index + 1)))) by lia.
    exact Hocc.
Qed.

Lemma findNext_occurs (str search : jsstring) (ignore : Z)
    (startIndex : nat) :
  findNext str search ignore startIndex = -1
  \/ (Z.of_nat startIndex <= findNext str search ignore startIndex
      < Z.of_nat (length str)
      /\ startsWith str search
           (Z.to_nat (findNext str search ignore startIndex)) = true).
Proof.
  unfold findNext, startsWith.
  destruct (findNext_loop_occurs search ignore (drop startIndex str)
              [0; 0; 0; 0; 0; 0] (Z.of_nat startIndex))
    as [H | [Hrange Hocc]]; [by left|].
  set (r := findNext_loop _ _ _ _ _) in *.
  right. rewrite length_drop in Hrange. split; [lia|].
  rewrite drop_drop in Hocc.
  replace (Z.to_nat r)
    with (startIndex + Z.to_nat (r - Z.of_nat startIndex))%nat by lia.
  exact Hocc.
Qed.

(** X1.  [findNext] returns the sentinel [-1] or an index of the string, not
    before the start index, at which the searched text occurs. *)
Theorem findNext_sound (str search : jsstring) (ignore : Z)
    (startIndex : nat) :
  findNext str search ignore startIndex = -1
  \/ (Z.of_nat startIndex <= findNext str search ignore startIndex
      < Z.of_nat (length str)
      /\ startsWith str search
           (Z.to_nat (findNext str search ignore startIndex)) = true).
Proof. apply findNext_occurs. Qed.

Lemma bracketsToIncludes_untracked (depths : list Z) (ignore : Z) (char : N) :
  char ∉ trackedChars ->
  bracketsToIncludes depths ignore char = (depths, reduce_add depths =? 0).
Proof.
  intros H. unfold trackedChars in H.
  rewrite !not_elem_of_cons in H. destruct_and!.
  unfold bracketsToIncludes.
  repeat match goal with
         | Hne : char <> ?c |- _ =>
             apply N.eqb_neq in Hne; rewrite Hne; clear Hne
         end.
  by rewrite !andb_false_r.
Qed.

Lemma findNext_loop_plain (search : jsstring) (ignore : Z) (rest : jsstring) :
  search <> [] ->
  Forall (fun c => c ∉ trackedChars) rest ->
  forall depths index,
    reduce_add depths = 0 ->
    findNext_loop rest search ignore depths index
    = indexOf_from rest search index.
Proof.
  intros Hsearch Hrest.
  induction Hrest as [|char rest Hchar _ IH]; intros depths index Hsum.
  - simpl. by destruct search.
  - cbn [findNext_loop indexOf_from].
    rewrite bracketsToIncludes_untracked, Hsum by done.
    change (0 =? 0) with true. cbn [andb].
    destruct (isPrefixOf search (char :: rest)); [done|].
    by apply IH.
Qed.

(** X2.  On a string that holds no bracket and no quote, [findNext] from the
    start is a plain search, whatever kinds it is asked to track: it returns
    what [indexOf] returns. *)
Theorem findNext_plain_search (str search : jsstring) (ignore : Z) :
  search <> [] ->
  Forall (fun c => c ∉ trackedChars) str ->
  findNext str search ignore 0 = indexOf str search.
Proof.
  intros Hsearch Hstr. unfold findNext, indexOf. rewrite drop_0.
  by apply findNext_loop_plain.
Qed.

Lemma findNext_plain_search_witness :
  findNext (js "int total = price / count;") (js "/") BRACKETS_ALL 0
  = indexOf (js "int total = price / count;") (js "/").
Proof.
  apply (findNext_plain_search (js "int total = price / count;") (js "/")
           BRACKETS_ALL).
  - discriminate.
  - compute_done.
Defined.

(** ** The comment at the right of a line *)

Lemma substring_from_0 (str : jsstring) (i : Z) :
  0 <= i <= Z.of_nat (length str) ->
  substring str 0 i = take (Z.to_nat i) str.
Proof.
  intros Hi. unfold substring.
  replace (Z.min (Z.max 0 0) (Z.of_nat (length str))) with 0 by lia.
  replace (Z.min (Z.max i 0) (Z.of_nat (length str))) with i by lia.
  replace (Z.min 0 i) with 0 by lia.
  replace (Z.max 0 i) with i by lia.
  by rewrite Z.sub_0_r, drop_0.
Qed.

Lemma stripRightComment_loop_cuts (line : jsstring) (fuel : nat) :
  forall index r,
    stripRightComment_loop fuel line index = Return r ->
    r = line
    \/ exists i : nat,
         (i < length line)%nat
         /\ r = take i line
         /\ isPrefixOf (js "//") (drop i line) = true.
Proof.
  induction fuel as [|fuel IH]; intros index r H;
    cbn [stripRightComment_loop] in H;
    destruct ((index >? -1) && (index <? Z.of_nat (length line) - 1));
    try (injection H as <-; by left); [done|].
  cbv zeta in H.
  set (index' := findNext line (js "/") (Z.lor BRACKETS_STRING BRACKETS_CHAR)
                   0) in *.
  destruct (negb (index' =? -1)
            && bool_decide (charAt line (index' + 1) = Some (code "/")))
    eqn:E; [|by eapply IH].
  injection H as <-.
  apply andb_true_iff in E as [Hfound Hnext].
  apply negb_true_iff, Z.eqb_neq in Hfound.
  apply bool_decide_eq_true in Hnext.
  destruct (findNext_occurs line (js "/")
              (Z.lor BRACKETS_STRING BRACKETS_CHAR) 0)
    as [Hnone | [Hrange Hocc]]; [done|].
  fold index' in Hrange, Hocc.
  right. exists (Z.to_nat index'). split; [lia|].
  split; [apply substring_from_0; lia|].
  unfold startsWith in Hocc. unfold charAt in Hnext.
  destruct (index' + 1 <? 0) eqn:Hneg; [done|].
  replace (Z.to_nat (index' + 1)) with (Z.to_nat index' + 1)%nat in Hnext
    by lia.
  rewrite <- (lookup_drop line (Z.to_nat index') 1) in Hnext.
  destruct (drop (Z.to_nat index') line) as [|c [|c' rest]];
    simpl in *; try done.
  injection Hnext as ->.
  by rewrite andb_true_r in *.
Qed.

(** X3.  When [stripRightComment] returns, it returns the line itself or the
    line cut at an index at which ["//"] stands: it never cuts a line
    anywhere else and never adds to it. *)
Theorem stripRightComment_cuts_at_marker (fuel : nat) (line r : jsstring) :
  stripRightComment fuel line = Return r ->
  r = line
  \/ exists i : nat,
       (i < length line)%nat
       /\ r = take i line
       /\ isPrefixOf (js "//") (drop i line) = true.
Proof.
  unfold stripRightComment.
  destruct (indexOf line (js "//") =? -1).
  - intros [= <-]. by left.
  - apply stripRightComment_loop_cuts.
Qed.

Lemma stripRightComment_cuts_at_marker_witness :
  js "total += 1; " = js "total += 1; // count"
  \/ exists i : nat,
       (i < length (js "total += 1; // count"))%nat
       /\ js "total += 1; " = take i (js "total += 1; // count")
       /\ isPrefixOf (js "//") (drop i (js "total += 1; // count")) = true.
Proof.
  apply (stripRightComment_cuts_at_marker 1 (js "total += 1; // count")).
  reflexivity.
Defined.

(** X4.  More fuel never helps [stripRightComment]: the loop returns in its
    first turn or it never returns. *)
Theorem stripRightComment_first_turn_decides (fuel : nat) (line : jsstring) :
  stripRightComment (S fuel) line = stripRightComment 1 line.
Proof.
  unfold stripRightComment.
  destruct (indexOf line (js "//") =? -1); [done|].
  cbn [stripRightComment_loop].
  destruct ((0 >? -1) && (0 <? Z.of_nat (length line) - 1)) eqn:Hcond;
    [|done].
  cbv zeta.
  destruct (negb (findNext line (js "/")
                    (Z.lor BRACKETS_STRING BRACKETS_CHAR) 0 =? -1)
            && bool_decide
                 (charAt line
                    (findNext line (js "/")
                       (Z.lor BRACKETS_STRING BRACKETS_CHAR) 0 + 1)
                  = Some (code "/"))) eqn:Hturn; [done|].
  rewrite (stripRightComment_loop_stuck line 0 Hcond Hturn fuel).
  done.
Qed.

(** ** The body of a class *)

Lemma bracketsToIncludes_curly (d : Z) (char : N) :
  bracketsToIncludes [0; 0; 0; d; 0; 0] BRACKETS_CURLY char
  = ([0; 0; 0; d + braceDelta char; 0; 0], d + braceDelta char =? 0).
Proof.
  unfold bracketsToIncludes, braceDelta.
  change (truthy (Z.land BRACKETS_CURLY BRACKETS_ANGLE)) with false.
  change (truthy (Z.land BRACKETS_CURLY BRACKETS_ROUND)) with false.
  change (truthy (Z.land BRACKETS_CURLY BRACKETS_BOX)) with false.
  change (truthy (Z.land BRACKETS_CURLY BRACKETS_STRING)) with false.
  change (truthy (Z.land BRACKETS_CURLY BRACKETS_CHAR)) with false.
  change (truthy (Z.land BRACKETS_CURLY BRACKETS_CURLY)) with true.
  cbn [andb].
  destruct (N.eqb_spec char (code "{")) as [->|H1].
  - change (code "{" =? code "}")%N with false. cbn.
    unfold Z.succ. f_equal. f_equal. lia.
  - destruct (N.eqb_spec char (code "}")) as [->|H2]; cbn;
      unfold Z.pred; rewrite ?Z.add_0_r; f_equal; f_equal; lia.
Qed.

Lemma braceBalance_app (s t : jsstring) :
  braceBalance (s ++ t) = braceBalance s + braceBalance t.
Proof. induction s as [|c s IH]; simpl; lia. Qed.

Lemma getClassBody_brace_none (rest : jsstring) (i : Z) :
  code "{" ∉ rest -> getClassBody_brace rest i = -1.
Proof.
  revert i. induction rest as [|c rest IH]; intros i H; [done|].
  apply not_elem_of_cons in H as [Hne H]. cbn [getClassBody_brace].
  destruct (N.eqb_spec c (code "{")) as [->|_]; [done|]. by apply IH.
Qed.

Lemma getClassBody_brace_first (before after : jsstring) (i : Z) :
  code "{" ∉ before ->
  getClassBody_brace (before ++ code "{" :: after) i
  = i + Z.of_nat (length before).
Proof.
  revert i. induction before as [|c before IH]; intros i H;
    cbn [app getClassBody_brace].
  - rewrite N.eqb_refl. simpl. lia.
  - apply not_elem_of_cons in H as [Hne H].
    destruct (N.eqb_spec c (code "{")) as [->|_]; [done|].
    rewrite IH by done. simpl length. lia.
Qed.

(** The closing bracket of a block: while the depth is positive, the scan
    goes on; it stops on the character with which the depth is back to
    zero. *)
Lemma findNext_loop_closing (block : jsstring) :
  forall (after : jsstring) (d index : Z),
    block <> [] ->
    0 < d ->
    d + braceBalance block = 0 ->
    (forall m : nat, (m < length block)%nat ->
                     0 < d + braceBalance (take m block)) ->
    findNext_loop (block ++ after) (js "}") BRACKETS_CURLY
      [0; 0; 0; d; 0; 0] index
    = index + Z.of_nat (length block) - 1.
Proof.
  induction block as [|c block IH]; intros after d index Hne Hd Hbal Hopen;
    [done|].
  simpl app. cbn [findNext_loop].
  rewrite bracketsToIncludes_curly.
  destruct block as [|c' block].
  - simpl in Hbal.
    assert (Hc : c = code "}").
    { unfold braceDelta in Hbal.
      destruct (N.eqb_spec c (code "{")); [lia|].
      destruct (N.eqb_spec c (code "}")); [done | lia]. }
    subst c. replace (d + braceDelta (code "}")) with 0 by lia.
    simpl. lia.
  - pose proof (Hopen 1%nat ltac:(simpl; lia)) as H1.
    simpl in H1. rewrite Z.add_0_r in H1.
    destruct (d + braceDelta c =? 0) eqn:E; [lia|].
    cbn [andb].
    rewrite (IH after (d + braceDelta c) (index + 1)).
    + simpl length. lia.
    + done.
    + lia.
    + simpl in Hbal. simpl. lia.
    + intros m Hm. specialize (Hopen (S m) ltac:(simpl in *; lia)).
      simpl in Hopen. simpl. lia.
Qed.

Lemma findNext_loop_no_closing (rest : jsstring) :
  forall depths index,
    code "}" ∉ rest ->
    findNext_loop rest (js "}") BRACKETS_CURLY depths index = -1.
Proof.
  induction rest as [|c rest IH]; intros depths index H; [done|].
  apply not_elem_of_cons in H as [Hne H].
  cbn [findNext_loop].
  destruct (bracketsToIncludes depths BRACKETS_CURLY c) as [depths' level].
  destruct (isPrefixOf (js "}") (c :: rest)) eqn:E.
  - apply (isPrefixOf_singleton (code "}")) in E.
    change (Some c = Some (code "}")) in E. congruence.
  - rewrite andb_false_r. by apply IH.
Qed.

(** X5.  [getClassBody] returns [null] when there is no opening curly
    bracket at or after the start index.  When there is one but no closing
    bracket after the start index, it returns the text that stands before
    the opening bracket, which is not a body. *)
Theorem getClassBody_without_closing (content : jsstring) (startIndex : nat) :
  (code "{" ∉ drop startIndex content ->
   getClassBody content startIndex = None)
  /\ (forall before after,
        drop startIndex content = before ++ code "{" :: after ->
        code "{" ∉ before ->
        code "}" ∉ drop startIndex content ->
        getClassBody content startIndex
        = Some (take (startIndex + length before) content)).
Proof.
  split.
  - intros H. unfold getClassBody.
    by rewrite getClassBody_brace_none.
  - intros before after Hdrop Hbefore Hclose. unfold getClassBody.
    rewrite Hdrop, getClassBody_brace_first by done.
    destruct (Z.eqb_spec (Z.of_nat startIndex + Z.of_nat (length before)) (-1));
      [lia|].
    unfold findNext.
    replace (Z.to_nat (Z.of_nat startIndex + Z.of_nat (length before)))
      with (startIndex + length before)%nat by lia.
    rewrite findNext_loop_no_closing.
    + assert (Hlen : (startIndex + length before < length content)%nat).
      { apply (f_equal length) in Hdrop.
        rewrite length_drop, length_app in Hdrop. simpl in Hdrop. lia. }
      unfold substring. f_equal.
      replace (Z.min (Z.max (Z.of_nat startIndex + Z.of_nat (length before)) 0)
                 (Z.of_nat (length content)))
        with (Z.of_nat (startIndex + length before)) by lia.
      replace (Z.min (Z.max (-1 + 1) 0) (Z.of_nat (length content)))
        with 0 by lia.
      replace (Z.min (Z.of_nat (startIndex + length before)) 0) with 0 by lia.
      replace (Z.max (Z.of_nat (startIndex + length before)) 0)
        with (Z.of_nat (startIndex + length before)) by lia.
      rewrite Z.sub_0_r, drop_0. f_equal. lia.
    + rewrite <- drop_drop, Hdrop, drop_app_length.
      rewrite Hdrop in Hclose. rewrite not_elem_of_app in Hclose.
      tauto.
Qed.

Lemma getClassBody_without_closing_witness :
  getClassBody (js "class A { int x;") 0 = Some (js "class A ").
Proof.
  apply (proj2 (getClassBody_without_closing (js "class A { int x;") 0)
           (js "class A ") (js " int x;")).
  - reflexivity.
  - compute_done.
  - compute_done.
Defined.

(** X6.  When the first opening curly bracket at or after the start index
    opens a block, that is a text in which the brackets balance and of which
    every proper prefix leaves a bracket open, [getClassBody] returns this
    block: the body runs up to the bracket that closes the first one. *)
Theorem getClassBody_block (content : jsstring) (startIndex : nat)
    (before block after : jsstring) :
  drop startIndex content = before ++ block ++ after ->
  code "{" ∉ before ->
  head block = Some (code "{") ->
  braceBalance block = 0 ->
  (forall m : nat, (0 < m < length block)%nat ->
                   0 < braceBalance (take m block)) ->
  getClassBody content startIndex = Some block.
Proof.
  intros Hdrop Hbefore Hhead Hbal Hopen.
  destruct block as [|c block]; [done|].
  change (Some c = Some (code "{")) in Hhead.
  assert (Hc : c = code "{") by congruence. subst c. clear Hhead.
  unfold getClassBody.
  rewrite Hdrop. cbn [app]. rewrite getClassBody_brace_first by done.
  destruct (Z.eqb_spec (Z.of_nat startIndex + Z.of_nat (length before)) (-1));
    [lia|].
  unfold findNext.
  replace (Z.to_nat (Z.of_nat startIndex + Z.of_nat (length before)))
    with (startIndex + length before)%nat by lia.
  rewrite <- drop_drop, Hdrop, drop_app_length.
  cbn [app]. cbn [findNext_loop].
  rewrite bracketsToIncludes_curly.
  change (0 + braceDelta (code "{")) with 1.
  change (1 =? 0) with false. cbn [andb].
  cbn [braceBalance] in Hbal. change (braceDelta (code "{")) with 1 in Hbal.
  assert (Hne : block <> [])
    by (intros ->; cbn [braceBalance] in Hbal; lia).
  rewrite findNext_loop_closing; [|done|lia|lia|].
  - assert (Hcontent :
      content
      = take (startIndex + length before) content
        ++ (code "{" :: block) ++ after).
    { rewrite <- (take_drop (startIndex + length before) content) at 1.
      f_equal. by rewrite <- drop_drop, Hdrop, drop_app_length. }
    assert (Hlen : (startIndex + length before + S (length block)
                    <= length content)%nat).
    { apply (f_equal length) in Hdrop.
      rewrite length_drop, !length_app in Hdrop. simpl in Hdrop. lia. }
    unfold substring. f_equal.
    replace (Z.min (Z.max (Z.of_nat startIndex + Z.of_nat (length before)) 0)
               (Z.of_nat (length content)))
      with (Z.of_nat (startIndex + length before)) by lia.
    replace (Z.min
               (Z.max
                  (Z.of_nat (startIndex + length before)%nat + 1
                   + Z.of_nat (length block) - 1 + 1) 0)
               (Z.of_nat (length content)))
      with (Z.of_nat (startIndex + length before + S (length block))) by lia.
    rewrite Z.min_l, Z.max_r by lia.
    replace (Z.to_nat (Z.of_nat (startIndex + length before + S (length block))
                       - Z.of_nat (startIndex + length before)))
      with (length (code "{" :: block)) by (simpl; lia).
    rewrite Nat2Z.id, <- drop_drop, Hdrop, drop_app_length.
    by rewrite take_app_length.
  - intros m Hm. specialize (Hopen (S m) ltac:(simpl; lia)).
    cbn [take braceBalance] in Hopen.
    change (braceDelta (code "{")) with 1 in Hopen. lia.
Qed.

Lemma getClassBody_block_witness :
  getClassBody (js "class A { int f() { return 1; } } class B { }") 0
  = Some (js "{ int f() { return 1; } }").
Proof.
  apply (getClassBody_block
           (js "class A { int f() { return 1; } } class B { }") 0
           (js "class A ") (js "{ int f() { return 1; } }")
           (js " class B { }")).
  - reflexivity.
  - compute_done.
  - reflexivity.
  - reflexivity.
  - intros m Hm.
    do 26 (destruct m as [|m]; [try (vm_compute; reflexivity); simpl in Hm; lia|]).
    simpl in Hm. lia.
Defined.

(** ** Shapes of type expressions *)

Lemma split_app_sep (a b : jsstring) (c : N) :
  c ∉ a -> split (a ++ c :: b) c = a :: split b c.
Proof.
  induction a as [|d a IH]; intros H; cbn [app split].
  - by rewrite N.eqb_refl.
  - apply not_elem_of_cons in H as [Hne H].
    destruct (N.eqb_spec d c) as [->|_]; [done|].
    by rewrite IH.
Qed.

Lemma indexOf_from_app_char (a b : jsstring) (c : N) (i : Z) :
  c ∉ a -> indexOf_from (a ++ c :: b) [c] i = i + Z.of_nat (length a).
Proof.
  revert i. induction a as [|d a IH]; intros i H;
    cbn [app indexOf_from isPrefixOf].
  - rewrite N.eqb_refl. simpl. lia.
  - apply not_elem_of_cons in H as [Hne H].
    destruct (N.eqb_spec c d) as [->|_]; [done|].
    cbn [andb]. rewrite IH by done. simpl length. lia.
Qed.

Lemma lastIndexOf_from_snoc (s : jsstring) (c : N) :
  forall i found,
    lastIndexOf_from (s ++ [c]) [c] i found = i + Z.of_nat (length s).
Proof.
  induction s as [|d s IH]; intros i found;
    cbn [app lastIndexOf_from isPrefixOf].
  - rewrite N.eqb_refl. simpl. lia.
  - rewrite IH. simpl length. lia.
Qed.

Lemma endsWith_snoc (s : jsstring) (c d : N) :
  endsWith (s ++ [c]) [d] = (d =? c)%N.
Proof.
  unfold endsWith. rewrite rev_app_distr. simpl.
  by rewrite andb_true_r.
Qed.

Lemma slice_middle (a b c : jsstring) :
  slice (a ++ b ++ c) (Z.of_nat (length a))
    (Z.of_nat (length a) + Z.of_nat (length b))
  = b.
Proof.
  unfold slice. rewrite !length_app.
  destruct (Z.ltb_spec (Z.of_nat (length a)) 0); [lia|].
  destruct (Z.ltb_spec (Z.of_nat (length a) + Z.of_nat (length b)) 0); [lia|].
  rewrite !Z.min_l by lia.
  replace (Z.to_nat (Z.of_nat (length a) + Z.of_nat (length b)
                     - Z.of_nat (length a))) with (length b) by lia.
  rewrite Nat2Z.id, drop_app_length. apply take_app_length.
Qed.

Lemma splitByTopLevelCommas_loop_plain (str : jsstring) :
  code "<" ∉ str ->
  code ">" ∉ str ->
  forall result currentPart,
    code "," ∉ currentPart ->
    splitByTopLevelCommas_loop str result currentPart 0
    = (result
       ++ map trim (removelast (split (currentPart ++ str) (code ","))),
       default [] (last (split (currentPart ++ str) (code ",")))).
Proof.
  induction str as [|c str IH]; intros Hlt Hgt result cur Hcur.
  - rewrite app_nil_r, (split_not_in _ _ Hcur). simpl. by rewrite app_nil_r.
  - apply not_elem_of_cons in Hlt as [Hlt1 Hlt], Hgt as [Hgt1 Hgt].
    cbn [splitByTopLevelCommas_loop].
    destruct (N.eqb_spec c (code "<")) as [->|_]; [done|].
    destruct (N.eqb_spec c (code ">")) as [->|_]; [done|].
    destruct (N.eqb_spec c (code ",")) as [->|Hc].
    + change (0 =? 0) with true. cbn [andb].
      rewrite (IH Hlt Hgt) by apply not_elem_of_nil.
      rewrite split_app_sep by done. cbn [app].
      pose proof (split_nonempty str (code ",")) as Hne.
      destruct (split str (code ",")) as [|seg segs] eqn:E; [done|].
      change (removelast (cur :: seg :: segs))
        with (cur :: removelast (seg :: segs)).
      change (last (cur :: seg :: segs)) with (last (seg :: segs)).
      cbn [map]. by rewrite <- app_assoc.
    + cbn [andb].
      rewrite (IH Hlt Hgt)
        by (rewrite not_elem_of_app, not_elem_of_cons;
            split; [done | split; [done | apply not_elem_of_nil]]).
      by rewrite <- app_assoc.
Qed.

(** X7.  On a string without angle brackets, [splitByTopLevelCommas] is the
    split at every comma with each segment trimmed, except that a last
    segment that is empty once trimmed is dropped. *)
Theorem splitByTopLevelCommas_plain (str : jsstring) :
  code "<" ∉ str ->
  code ">" ∉ str ->
  splitByTopLevelCommas str
  = map trim (removelast (split str (code ",")))
    ++ (if truthy_string (trim (default [] (last (split str (code ",")))))
        then [trim (default [] (last (split str (code ","))))]
        else []).
Proof.
  intros Hlt Hgt. unfold splitByTopLevelCommas.
  rewrite (splitByTopLevelCommas_loop_plain str Hlt Hgt [] [])
    by apply not_elem_of_nil.
  rewrite !app_nil_l.
  destruct (truthy_string _); [done | by rewrite app_nil_r].
Qed.

Lemma splitByTopLevelCommas_plain_witness :
  splitByTopLevelCommas (js "int a, Foo b ,, ")
  = [js "int a"; js "Foo b"; []].
Proof.
  apply (splitByTopLevelCommas_plain (js "int a, Foo b ,, ")); compute_done.
Defined.

(** X8.  A generic type expression, a base without ["<"] followed by
    arguments between ["<"] and a final [">"], is parsed into the node of the
    trimmed base whose sub-types are the parsed top-level parts of the
    arguments. *)
Theorem recursiveParseType_generic (base args : jsstring) :
  code "<" ∉ base ->
  recursiveParseType (base ++ js "<" ++ args ++ js ">")
  = {| Type_className := trim base;
       Type_namespace := js "unknown";
       Type_projectName := js "external";
       subTypes := map recursiveParseType (splitByTopLevelCommas args) |}.
Proof.
  intros Hbase.
  rewrite recursiveParseType_unfold. unfold recursiveParseType_node.
  change (js "<") with [code "<"]. change (js ">") with [code ">"].
  cbn [app].
  assert (Hfirst :
    indexOf (base ++ code "<" :: args ++ [code ">"]) [code "<"]
    = Z.of_nat (length base))
    by (unfold indexOf; rewrite indexOf_from_app_char by done; lia).
  assert (Hlast :
    lastIndexOf (base ++ code "<" :: args ++ [code ">"]) [code ">"]
    = Z.of_nat (length base) + 1 + Z.of_nat (length args)).
  { unfold lastIndexOf.
    replace (base ++ code "<" :: args ++ [code ">"])
      with ((base ++ code "<" :: args) ++ [code ">"])
      by (by rewrite <- app_assoc).
    rewrite lastIndexOf_from_snoc, length_app. simpl length. lia. }
  assert (Htuple : isTuple (base ++ code "<" :: args ++ [code ">"]) = false).
  { unfold isTuple.
    replace (base ++ code "<" :: args ++ [code ">"])
      with ((base ++ code "<" :: args) ++ [code ">"])
      by (by rewrite <- app_assoc).
    change (js ")") with [code ")"].
    rewrite endsWith_snoc. apply andb_false_r. }
  assert (Hgen :
    genericParts (base ++ code "<" :: args ++ [code ">"])
    = splitByTopLevelCommas args).
  { unfold genericParts. change (js "<") with [code "<"].
    change (js ">") with [code ">"]. rewrite Hfirst, Hlast.
    destruct (Z.geb_spec (Z.of_nat (length base)) 0); [|lia].
    f_equal.
    pose proof (slice_middle (base ++ [code "<"]) args [code ">"]) as Hs.
    rewrite <- app_assoc in Hs. cbn [app] in Hs.
    rewrite length_app in Hs. simpl length in Hs.
    replace (Z.of_nat (length base + 1)) with (Z.of_nat (length base) + 1)
      in Hs by lia.
    exact Hs. }
  unfold tupleParts. rewrite Hgen, Htuple, app_nil_r.
  by rewrite split_app_sep.
Qed.

Lemma recursiveParseType_generic_witness :
  recursiveParseType (js " Dictionary" ++ js "<" ++ js "string, List<Foo>"
                      ++ js ">")
  = {| Type_className := trim (js " Dictionary");
       Type_namespace := js "unknown";
       Type_projectName := js "external";
       subTypes :=
         map recursiveParseType
           (splitByTopLevelCommas (js "string, List<Foo>")) |}.
Proof.
  apply (recursiveParseType_generic (js " Dictionary")
           (js "string, List<Foo>")).
  compute_done.
Defined.

(** X9.  A value tuple without generic element, arguments without ["<"]
    between ["("] and a final [")"], is parsed into a node with an empty
    class name whose sub-types are the parsed top-level parts of the
    arguments. *)
Theorem recursiveParseType_tuple (args : jsstring) :
  code "<" ∉ args ->
  recursiveParseType (js "(" ++ args ++ js ")")
  = {| Type_className := [];
       Type_namespace := js "unknown";
       Type_projectName := js "external";
       subTypes := map recursiveParseType (splitByTopLevelCommas args) |}.
Proof.
  intros Hargs.
  rewrite recursiveParseType_unfold. unfold recursiveParseType_node.
  change (js "(") with [code "("]. change (js ")") with [code ")"].
  cbn [app].
  assert (Htuple : isTuple (code "(" :: args ++ [code ")"]) = true).
  { unfold isTuple.
    change (js "(") with [code "("]. change (js ")") with [code ")"].
    change (code "(" :: args ++ [code ")"])
      with ((code "(" :: args) ++ [code ")"]) at 2.
    rewrite endsWith_snoc. unfold startsWith. rewrite drop_0.
    cbn [isPrefixOf]. by rewrite !N.eqb_refl. }
  assert (Hgen : genericParts (code "(" :: args ++ [code ")"]) = []).
  { unfold genericParts. change (js "<") with [code "<"].
    assert (Hno : code "<" ∉ code "(" :: args ++ [code ")"]).
    { rewrite not_elem_of_cons, not_elem_of_app, not_elem_of_cons.
      repeat split; [done | done | done | apply not_elem_of_nil]. }
    apply indexOf_char in Hno. by rewrite Hno. }
  unfold tupleParts. rewrite Hgen, Htuple. cbn [app map].
  pose proof (slice_middle [code "("] args [code ")"]) as H.
  cbn [app] in H. change (Z.of_nat (length [code "("])) with 1 in H.
  replace (Z.of_nat (length (code "(" :: args ++ [code ")"])) - 1)
    with (1 + Z.of_nat (length args))
    by (cbn [length]; rewrite length_app; cbn [length]; lia).
  by rewrite H.
Qed.

Lemma recursiveParseType_tuple_witness :
  recursiveParseType (js "(" ++ js "int, Foo" ++ js ")")
  = {| Type_className := [];
       Type_namespace := js "unknown";
       Type_projectName := js "external";
       subTypes :=
         map recursiveParseType (splitByTopLevelCommas (js "int, Foo")) |}.
Proof.
  apply (recursiveParseType_tuple (js "int, Foo")). compute_done.
Defined.

(** X10.  [isPrimitiveType] and [isSystemClass] look at the text before the
    first ["<"] only: the generic arguments of a type never change their
    answer. *)
Theorem generic_arguments_are_ignored (base args : jsstring) :
  code "<" ∉ base ->
  isPrimitiveType (base ++ js "<" ++ args) = isPrimitiveType base
  /\ isSystemClass (base ++ js "<" ++ args) = isSystemClass base.
Proof.
  intros Hbase.
  assert (H : baseTypeOf (base ++ js "<" ++ args) = baseTypeOf base).
  { unfold baseTypeOf. change (js "<") with [code "<"]. cbn [app].
    rewrite split_app_sep by done. by rewrite (split_not_in base). }
  unfold isPrimitiveType, isSystemClass. by rewrite H.
Qed.

Lemma generic_arguments_are_ignored_witness :
  isPrimitiveType (js "List" ++ js "<" ++ js "Order>") = isPrimitiveType (js "List")
  /\ isSystemClass (js "List" ++ js "<" ++ js "Order>") = isSystemClass (js "List").
Proof.
  apply (generic_arguments_are_ignored (js "List") (js "Order>")).
  compute_done.
Defined.

(** ** Resolving the candidates of a class *)

Lemma resolveDependencies_loop_firstOccurrences
    (currentClassName : jsstring) (classRegistry : ClassMapping)
    (file : File) (dependencies : list DependencyInfo) :
  forall (resolved : gset jsstring) (out : list DependencyInfo)
         (seen : list jsstring),
    (forall b, b ∈ resolved -> b ∈ seen) ->
    (forall b, b ∈ seen ->
       b ∈ resolved
       \/ resolveClassDependency b (File_namespace file) (File_imports file)
            classRegistry = None) ->
    snd (fold_left
           (resolveDependencies_step currentClassName classRegistry file)
           dependencies (resolved, out))
    = out
      ++ omap (fun b => resolveClassDependency b (File_namespace file)
                          (File_imports file) classRegistry)
           (firstOccurrences seen
              (map (fun dep => baseTypeOf (className dep))
                 (filter (fun dep => keptCandidate currentClassName dep = true)
                    dependencies))).
Proof.
  induction dependencies as [|dep deps IH];
    intros resolved out seen Hsub Hseen.
  - simpl. by rewrite app_nil_r.
  - cbn [fold_left].
    destruct (isPrimitiveType (className dep)
              || jsstring_eqb (className dep) currentClassName) eqn:Hskip.
    { rewrite filter_cons_False
        by (unfold keptCandidate; rewrite Hskip; discriminate).
      unfold resolveDependencies_step at 2. rewrite Hskip. by apply IH. }
    rewrite filter_cons_True by (unfold keptCandidate; by rewrite Hskip).
    unfold resolveDependencies_step at 2. rewrite Hskip.
    cbn [map firstOccurrences].
    destruct (decide (baseTypeOf (className dep) ∈ seen)) as [Hin|Hnotin].
    + rewrite (bool_decide_eq_true_2 _ Hin).
      destruct (Hseen _ Hin) as [Hres|Hnone].
      * rewrite (bool_decide_eq_true_2 _ Hres). by apply IH.
      * destruct (bool_decide (baseTypeOf (className dep) ∈ resolved));
          [by apply IH|].
        rewrite Hnone. by apply IH.
    + rewrite (bool_decide_eq_false_2 _ Hnotin).
      assert (Hnres : baseTypeOf (className dep) ∉ resolved) by auto.
      rewrite (bool_decide_eq_false_2 _ Hnres).
      cbn [omap list_omap].
      destruct (resolveClassDependency (baseTypeOf (className dep))
                  (File_namespace file) (File_imports file) classRegistry)
        as [info|] eqn:E.
      * rewrite (IH _ _ (baseTypeOf (className dep) :: seen)).
        -- by rewrite <- app_assoc.
        -- intros b Hb. apply elem_of_union in Hb as [Hb|Hb].
           ++ apply elem_of_singleton in Hb as ->. left.
           ++ right. auto.
        -- intros b Hb. apply elem_of_cons in Hb as [->|Hb].
           ++ left. apply elem_of_union_l. by apply elem_of_singleton.
           ++ destruct (Hseen _ Hb); [left; by apply elem_of_union_r | by right].
      * apply IH.
        -- intros b Hb. right. auto.
        -- intros b Hb. apply elem_of_cons in Hb as [->|Hb]; [by right|].
           by apply Hseen.
Qed.

(** X11.  [resolveDependencies] is a pipeline: the candidates that are
    primitive or bear the name of the current class are dropped, the others
    are reduced to their base name, a base name is kept at its first
    occurrence only, and each remaining name is resolved with the namespace
    and the imports of the file; names that resolve to nothing give no
    entry. *)
Theorem resolveDependencies_pipeline (dependencies : list DependencyInfo)
    (imports : list jsstring) (currentNamespace currentClassName : jsstring)
    (classRegistry : ClassMapping) (file : File) (classItem : Class_) :
  resolveDependencies dependencies imports currentNamespace currentClassName
    classRegistry file classItem
  = omap (fun b => resolveClassDependency b (File_namespace file)
                     (File_imports file) classRegistry)
      (firstOccurrences []
         (map (fun dep => baseTypeOf (className dep))
            (filter (fun dep => keptCandidate currentClassName dep = true)
               dependencies))).
Proof.
  unfold resolveDependencies.
  rewrite (resolveDependencies_loop_firstOccurrences _ _ _ _ ∅ [] []).
  - done.
  - intros b Hb. by apply not_elem_of_empty in Hb.
  - intros b Hb. by apply not_elem_of_nil in Hb.
Qed.

(** X12.  [resolveWithImports] takes the first import, in the order of the
    file, under which the name is registered: the dependency carries the
    name, that import as namespace and the project of the entry.  It
    returns [null] exactly when the name is registered under no import. *)
Theorem resolveWithImports_first_hit (baseType : jsstring)
    (imports : list jsstring) (classRegistry : ClassMapping) :
  (forall before imp after info,
      imports = before ++ imp :: after ->
      Forall (fun i => classRegistry !! (i ++ js "." ++ baseType) = None)
        before ->
      classRegistry !! (imp ++ js "." ++ baseType) = Some info ->
      resolveWithImports baseType imports classRegistry
      = Some {| className := baseType;
                namespace := imp;
                projectName := ClassInfo_projectName info |})
  /\ (resolveWithImports baseType imports classRegistry = None
      <-> Forall (fun i => classRegistry !! (i ++ js "." ++ baseType) = None)
            imports).
Proof.
  split.
  - intros before imp after info -> Hbefore Hhit.
    induction Hbefore as [|i before Hi _ IH]; cbn [app resolveWithImports].
    + by rewrite Hhit.
    + by rewrite Hi.
  - induction imports as [|i imports IH]; cbn [resolveWithImports].
    + split; [constructor | done].
    + destruct (classRegistry !! (i ++ js "." ++ baseType)) eqn:E.
      * split; [done|]. intros H. inversion H; congruence.
      * rewrite IH. split; [by constructor | by inversion 1].
Qed.

Lemma resolveWithImports_first_hit_witness :
  resolveWithImports (js "Bar") [js "System"; js "App"; js "Other"]
    example_registry
  = Some {| className := js "Bar";
            namespace := js "App";
            projectName := js "Shop" |}.
Proof.
  apply (proj1 (resolveWithImports_first_hit (js "Bar")
                  [js "System"; js "App"; js "Other"] example_registry)
           [js "System"] (js "App") [js "Other"]
           {| ClassInfo_namespace := js "App";
              ClassInfo_projectName := js "Shop" |}).
  - reflexivity.
  - constructor; [vm_compute; reflexivity | constructor].
  - vm_compute. reflexivity.
Defined.

(** ** Registering the classes of a file *)

Lemma registrations_loop_declared (fuel : nat) (content : jsstring)
    (namespace projectName : jsstring) :
  forall lastIndex,
    registrations_loop fuel content lastIndex namespace projectName
    = flat_map
        (fun cls =>
           (cls, {| ClassInfo_namespace := namespace;
                    ClassInfo_projectName := projectName |})
           :: (if truthy_string namespace
               then [(namespace ++ js "." ++ cls,
                      {| ClassInfo_namespace := namespace;
                         ClassInfo_projectName := projectName |})]
               else []))
        (declaredClassNames_loop fuel content lastIndex).
Proof.
  induction fuel as [|fuel IH]; intros lastIndex; [done|].
  cbn [registrations_loop declaredClassNames_loop].
  destruct (exec_from _ content lastIndex) as [m|]; [|done].
  cbn [flat_map]. by rewrite IH.
Qed.

Lemma setAll_lookup_const (info : ClassInfo)
    (calls : list (jsstring * ClassInfo)) (key : jsstring) :
  Forall (fun kv => kv.2 = info) calls ->
  key ∈ calls.*1 ->
  forall classRegistry : ClassMapping,
    setAll calls classRegistry !! key = Some info.
Proof.
  induction 1 as [|[k v] calls Hv _ IH]; intros Hkey reg.
  - by apply elem_of_nil in Hkey.
  - simpl in Hv. subst v.
    change (setAll ((k, info) :: calls) reg)
      with (setAll calls (<[k := info]> reg)).
    destruct (decide (key ∈ calls.*1)) as [Hin|Hnotin]; [by apply IH|].
    rewrite setAll_lookup_notin by done.
    cbn [fmap list_fmap fst] in Hkey.
    apply elem_of_cons in Hkey as [->|Hkey]; [|done].
    apply lookup_insert_eq.
Qed.

Lemma registrationsOfFile_const (content projectName : jsstring) :
  Forall (fun kv => kv.2 = {| ClassInfo_namespace := declaredNamespace content;
                              ClassInfo_projectName := projectName |})
    (registrationsOfFile content projectName).
Proof.
  unfold registrationsOfFile. fold (declaredNamespace content).
  rewrite registrations_loop_declared.
  apply Forall_flat_map, Forall_forall. intros cls _.
  destruct (truthy_string _); repeat constructor.
Qed.

Lemma registrationsOfFile_keys (content projectName key : jsstring) :
  key ∈ (registrationsOfFile content projectName).*1
  <-> exists cls,
        cls ∈ declaredClassNames content
        /\ (key = cls
            \/ (declaredNamespace content <> []
                /\ key = declaredNamespace content ++ js "." ++ cls)).
Proof.
  unfold registrationsOfFile. fold (declaredNamespace content).
  rewrite registrations_loop_declared. fold (declaredClassNames content).
  rewrite list_elem_of_fmap. split.
  - intros ([k v] & -> & Hin). apply list_elem_of_In, in_flat_map in Hin.
    destruct Hin as (cls & Hcls & Hin).
    exists cls. split; [by apply list_elem_of_In|].
    destruct (declaredNamespace content) as [|c ns]; simpl in Hin.
    + destruct Hin as [[= <- <-]|[]]. by left.
    + destruct Hin as [[= <- <-]|[[= <- <-]|[]]]; [by left | by right].
  - intros (cls & Hcls & Hkey).
    destruct Hkey as [->|[Hns ->]].
    + exists (cls, {| ClassInfo_namespace := declaredNamespace content;
                       ClassInfo_projectName := projectName |}).
      split; [reflexivity|].
      apply list_elem_of_In, in_flat_map. exists cls.
      split; [by apply list_elem_of_In | by left].
    + exists (declaredNamespace content ++ js "." ++ cls,
              {| ClassInfo_namespace := declaredNamespace content;
                 ClassInfo_projectName := projectName |}).
      split; [reflexivity|].
      apply list_elem_of_In, in_flat_map. exists cls.
      split; [by apply list_elem_of_In|].
      destruct (declaredNamespace content) as [|c ns]; [by destruct Hns|].
      right. left. reflexivity.
Qed.

(** X13.  After [registerClassesFromFile], every class that the content
    declares is registered under its bare name and, when the content has a
    namespace, under [namespace.name]; both entries carry the namespace of
    the content and the project given.  A key that is neither is as it was
    before the call. *)
Theorem registerClassesFromFile_entries (content projectName : jsstring)
    (classRegistry : ClassMapping) :
  (forall cls,
      cls ∈ declaredClassNames content ->
      registerClassesFromFile content projectName classRegistry !! cls
      = Some {| ClassInfo_namespace := declaredNamespace content;
                ClassInfo_projectName := projectName |}
      /\ (declaredNamespace content <> [] ->
          registerClassesFromFile content projectName classRegistry
            !! (declaredNamespace content ++ js "." ++ cls)
          = Some {| ClassInfo_namespace := declaredNamespace content;
                    ClassInfo_projectName := projectName |}))
  /\ (forall key,
        (forall cls,
            cls ∈ declaredClassNames content ->
            key <> cls
            /\ key <> declaredNamespace content ++ js "." ++ cls) ->
        registerClassesFromFile content projectName classRegistry !! key
        = classRegistry !! key).
Proof.
  rewrite registerClassesFromFile_setAll. split.
  - intros cls Hcls. split; [|intros Hns];
      (apply setAll_lookup_const; [apply registrationsOfFile_const|]);
      apply registrationsOfFile_keys; exists cls; auto.
  - intros key Hkey. apply setAll_lookup_notin.
    intros Hin. apply registrationsOfFile_keys in Hin as (cls & Hcls & Hk).
    destruct (Hkey cls Hcls) as [H1 H2].
    destruct Hk as [->|[_ ->]]; done.
Qed.

Lemma registerClassesFromFile_entries_witness :
  registerClassesFromFile FooBar_source (js "Shop") ∅ !! js "App.Bar"
  = Some {| ClassInfo_namespace := js "App";
            ClassInfo_projectName := js "Shop" |}.
Proof.
  apply (proj1 (registerClassesFromFile_entries FooBar_source (js "Shop") ∅)
           (js "Bar")).
  - compute_done.
  - discriminate.
Defined.

(** X14.  Registering the same content for the same project a second time
    changes nothing. *)
Theorem registerClassesFromFile_idempotent (content projectName : jsstring)
    (classRegistry : ClassMapping) :
  registerClassesFromFile content projectName
    (registerClassesFromFile content projectName classRegistry)
  = registerClassesFromFile content projectName classRegistry.
Proof.
  rewrite !registerClassesFromFile_setAll.
  apply map_eq. intros key.
  destruct (decide (key ∈ (registrationsOfFile content projectName).*1))
    as [Hin|Hnotin].
  - rewrite !(setAll_lookup_const _ _ _ (registrationsOfFile_const _ _) Hin).
    done.
  - by rewrite setAll_lookup_notin.
Qed.

(** ** The imports of a file *)

Lemma split_app (a b : jsstring) (c : N) :
  split (a ++ c :: b) c = split a c ++ split b c.
Proof.
  induction a as [|d a IH]; cbn [app split].
  - by rewrite N.eqb_refl.
  - destruct (N.eqb_spec d c) as [->|_]; rewrite IH; [done|].
    pose proof (split_nonempty a c). by destruct (split a c).
Qed.

(** X15.  [extractImports] works line by line: the imports of two texts
    joined by a line break are the imports of the first followed by the
    imports of the second. *)
Theorem extractImports_lines (a b : jsstring) :
  extractImports (a ++ [10%N] ++ b) = extractImports a ++ extractImports b.
Proof.
  unfold extractImports. cbn [app].
  by rewrite split_app, flat_map_app.
Qed.

Lemma isPrefixOf_app (a b : jsstring) : isPrefixOf a (a ++ b) = true.
Proof.
  induction a as [|c a IH]; [done|].
  cbn [app isPrefixOf]. by rewrite N.eqb_refl.
Qed.

Lemma trim_outer (c d : N) (mid : jsstring) :
  isWhiteSpace c = false ->
  isWhiteSpace d = false ->
  trim (c :: mid ++ [d]) = c :: mid ++ [d].
Proof.
  intros Hc Hd. unfold trim. cbn [dropWhile]. rewrite Hc.
  change (c :: mid ++ [d]) with ((c :: mid) ++ [d]).
  rewrite rev_app_distr. change (rev [d]) with [d].
  cbn [app dropWhile]. rewrite Hd.
  change (rev (d :: rev (c :: mid))) with (rev (rev (c :: mid)) ++ [d]).
  by rewrite rev_involutive.
Qed.

Lemma trim_leading_space (s : jsstring) : trim (code " " :: s) = trim s.
Proof. reflexivity. Qed.

Lemma slice_to_last (s : jsstring) (a : Z) :
  s <> [] -> slice s a (-1) = slice s a (Z.of_nat (length s) - 1).
Proof.
  intros Hs. unfold slice. destruct s as [|c s]; [done|].
  cbn [length]. change (-1 <? 0) with true.
  destruct (Z.ltb_spec (Z.of_nat (S (length s)) - 1) 0); [lia|].
  do 3 f_equal. lia.
Qed.

(** X16.  A line made of [using], a space, a text without line break and a
    semicolon gives one import: the text, trimmed, whatever it is. *)
Theorem extractImports_using (imported : jsstring) :
  10%N ∉ imported ->
  extractImports (js "using " ++ imported ++ js ";") = [trim imported].
Proof.
  intros Hline. unfold extractImports.
  assert (Hno : 10%N ∉ js "using " ++ imported ++ js ";").
  { rewrite !not_elem_of_app. repeat split; [compute_done | done | compute_done]. }
  rewrite (split_not_in _ _ Hno). cbn [flat_map]. rewrite app_nil_r.
  assert (Htrim : trim (js "using " ++ imported ++ js ";")
                  = js "using " ++ imported ++ js ";").
  { change (js "using " ++ imported ++ js ";")
      with (code "u" :: (js "sing " ++ imported) ++ [code ";"]).
    by apply (trim_outer (code "u") (code ";") (js "sing " ++ imported)). }
  rewrite Htrim.
  unfold startsWith. rewrite drop_0, isPrefixOf_app.
  change (js "using " ++ imported ++ js ";")
    with (js "using" ++ (code " " :: imported) ++ [code ";"]).
  assert (Hend : endsWith (js "using" ++ (code " " :: imported) ++ [code ";"])
                   (js ";") = true).
  { rewrite app_assoc. change (js ";") with [code ";"].
    rewrite endsWith_snoc. apply N.eqb_refl. }
  rewrite Hend. cbn [andb]. f_equal.
  rewrite slice_to_last by (by destruct imported).
  pose proof (slice_middle (js "using") (code " " :: imported) [code ";"])
    as Hslice.
  replace (Z.of_nat (length (js "using" ++ (code " " :: imported)
                             ++ [code ";"])) - 1)
    with (Z.of_nat (length (js "using"))
          + Z.of_nat (length (code " " :: imported)))
    by (rewrite !length_app; cbn [length]; lia).
  change (Z.of_nat (length (js "using"))) with 5 in *.
  rewrite Hslice. apply trim_leading_space.
Qed.

Lemma extractImports_using_witness :
  extractImports (js "using " ++ js "static System.Math " ++ js ";")
  = [js "static System.Math"].
Proof.
  apply (extractImports_using (js "static System.Math ")). compute_done.
Defined.

(** ** The chunks of a file *)

Lemma classIndices_head (allLines : list jsstring) (m : nat) :
  forall k,
  exists a rest,
    filter (fun i => test REGEX_class (default [] (allLines !! i)) = true)
      (seq k m) ++ [(k + m)%nat]
    = a :: rest
    /\ (k <= a <= k + m)%nat
    /\ (forall i, (k <= i < a)%nat ->
          test REGEX_class (default [] (allLines !! i)) <> true).
Proof.
  induction m as [|m IH]; intros k.
  - exists (k + 0)%nat, []. repeat split; [lia | lia | intros i Hi; lia].
  - cbn [seq].
    destruct (decide (test REGEX_class (default [] (allLines !! k)) = true))
      as [Hk|Hk].
    + rewrite filter_cons_True by done.
      eexists k, _. repeat split; [lia | lia | intros i Hi; lia].
    + rewrite filter_cons_False by done.
      destruct (IH (S k)) as (a & rest & Heq & Hrange & Hbefore).
      exists a, rest. replace (k + S m)%nat with (S k + m)%nat by lia.
      split; [exact Heq|]. split; [lia|].
      intros i Hi. destruct (decide (i = k)) as [->|Hne]; [done|].
      apply Hbefore. lia.
Qed.

Lemma sliceBetween_classIndices (allLines : list jsstring) (m : nat) :
  forall k,
    (k + m <= length allLines)%nat ->
    length (sliceBetween allLines
              (filter (fun i => test REGEX_class
                                  (default [] (allLines !! i)) = true)
                 (seq k m) ++ [(k + m)%nat]))
    = length (filter (fun i => test REGEX_class
                                 (default [] (allLines !! i)) = true)
                (seq k m))
    /\ Forall (fun chunk => exists line,
                   head chunk = Some line
                   /\ test REGEX_class line = true)
         (sliceBetween allLines
            (filter (fun i => test REGEX_class
                                (default [] (allLines !! i)) = true)
               (seq k m) ++ [(k + m)%nat]))
    /\ forall a rest,
         filter (fun i => test REGEX_class
                            (default [] (allLines !! i)) = true)
           (seq k m) ++ [(k + m)%nat]
         = a :: rest ->
         concat (sliceBetween allLines (a :: rest))
         = take (k + m - a) (drop a allLines).
Proof.
  induction m as [|m IH]; intros k Hlen.
  - cbn [seq filter list_filter app sliceBetween].
    repeat split; [constructor|]. intros a rest [= <- <-].
    cbn [sliceBetween concat]. by rewrite Nat.sub_diag.
  - cbn [seq].
    destruct (IH (S k) ltac:(lia)) as (IHlen & IHheads & IHconcat).
    replace (k + S m)%nat with (S k + m)%nat by lia.
    destruct (decide (test REGEX_class (default [] (allLines !! k)) = true))
      as [Hk|Hk].
    + rewrite filter_cons_True by done. cbn [app].
      destruct (classIndices_head allLines m (S k))
        as (b & rest' & Heq & Hrange & _).
      rewrite Heq in IHlen, IHheads, IHconcat |- *.
      change (sliceBetween allLines (k :: b :: rest'))
        with (take (b - k) (drop k allLines)
              :: sliceBetween allLines (b :: rest')).
      destruct (lookup_lt_is_Some_2 allLines k ltac:(lia)) as [x Hx].
      split; [cbn [length]; by rewrite IHlen|]. split.
      * constructor; [|done]. exists x.
        rewrite (drop_S _ _ _ Hx).
        replace (b - k)%nat with (S (b - S k)) by lia.
        split; [done|]. by rewrite Hx in Hk.
      * intros a rest [= <- <-].
        change (sliceBetween allLines (k :: b :: rest'))
          with (take (b - k) (drop k allLines)
                :: sliceBetween allLines (b :: rest')).
        cbn [concat]. rewrite (IHconcat b rest' eq_refl).
        replace (drop b allLines)
          with (drop (b - k) (drop k allLines))
          by (rewrite drop_drop; f_equal; lia).
        rewrite take_take_drop. f_equal. lia.
    + rewrite filter_cons_False by done. done.
Qed.

Lemma filter_seq_lines (lines before : list jsstring) :
  length (filter (fun i => test REGEX_class
                             (default [] ((before ++ lines) !! i)) = true)
            (seq (length before) (length lines)))
  = length (filter (fun line => test REGEX_class line = true) lines).
Proof.
  revert before. induction lines as [|x lines IH]; intros before; [done|].
  cbn [length seq].
  specialize (IH (before ++ [x])).
  rewrite <- app_assoc, length_app in IH. cbn [app length] in IH.
  replace (length before + 1)%nat with (S (length before)) in IH by lia.
  destruct (decide (test REGEX_class x = true)) as [Hx|Hx].
  - rewrite filter_cons_True by (by rewrite list_lookup_middle).
    rewrite (filter_cons_True _ x) by done. cbn [length]. by rewrite IH.
  - rewrite filter_cons_False by (by rewrite list_lookup_middle).
    rewrite (filter_cons_False _ x) by done. exact IH.
Qed.

(** X17.  [splitFileIntoClasses] makes one chunk for each line on which the
    class pattern matches; every chunk begins with such a line; and the
    chunks, put end to end, are the lines of the content from the first such
    line on: the lines before it, none of which matches, are in no chunk. *)
Theorem splitFileIntoClasses_chunks (content : jsstring) :
  length (splitFileIntoClasses content)
  = length (filter (fun line => test REGEX_class line = true)
              (split content 10%N))
  /\ Forall (fun chunk => exists line,
                 head chunk = Some line /\ test REGEX_class line = true)
       (splitFileIntoClasses content)
  /\ exists before,
       split content 10%N = before ++ concat (splitFileIntoClasses content)
       /\ Forall (fun line => test REGEX_class line = false) before.
Proof.
  unfold splitFileIntoClasses.
  set (allLines := split content 10%N).
  destruct (sliceBetween_classIndices allLines (length allLines) 0
              ltac:(lia)) as (Hlen & Hheads & Hconcat).
  cbn [Nat.add] in Hlen, Hheads, Hconcat.
  split; [|split].
  - rewrite Hlen. apply (filter_seq_lines allLines []).
  - exact Hheads.
  - destruct (classIndices_head allLines (length allLines) 0)
      as (a & rest & Heq & Hrange & Hbefore).
    cbn [Nat.add] in Heq, Hrange.
    exists (take a allLines). rewrite Heq, (Hconcat a rest Heq).
    split.
    + rewrite (take_ge (drop a allLines)) by (rewrite length_drop; lia).
      by rewrite take_drop.
    + apply Forall_lookup. intros i line Hline.
      apply lookup_take_Some in Hline as [Hline Hi].
      specialize (Hbefore i ltac:(lia)). rewrite Hline in Hbefore.
      change (test REGEX_class line <> true) in Hbefore.
      by destruct (test REGEX_class line).
Qed.

(** ** The declaration line of a class *)

Lemma indexOf_at_app (before rest search : jsstring) :
  indexOf_at (before ++ rest) search (Z.of_nat (length before))
  = indexOf_from rest search (Z.of_nat (length before)).
Proof.
  unfold indexOf_at. rewrite length_app.
  replace (Z.to_nat (Z.min (Z.max (Z.of_nat (length before)) 0)
                       (Z.of_nat (length before + length rest))))
    with (length before) by lia.
  by rewrite drop_app_length.
Qed.

Lemma indexOf_from_none_char (s : jsstring) (c : N) (i : Z) :
  c ∉ s -> indexOf_from s [c] i = -1.
Proof.
  revert i. induction s as [|d s IH]; intros i H; [done|].
  apply not_elem_of_cons in H as [Hne H]. cbn [indexOf_from isPrefixOf].
  destruct (N.eqb_spec c d) as [->|_]; [done|]. by apply IH.
Qed.

Lemma substring_middle (a b c : jsstring) :
  substring (a ++ b ++ c) (Z.of_nat (length a))
    (Z.of_nat (length a) + Z.of_nat (length b))
  = b.
Proof.
  unfold substring. rewrite !length_app.
  replace (Z.min (Z.max (Z.of_nat (length a)) 0)
             (Z.of_nat (length a + (length b + length c))))
    with (Z.of_nat (length a)) by lia.
  replace (Z.min (Z.max (Z.of_nat (length a) + Z.of_nat (length b)) 0)
             (Z.of_nat (length a + (length b + length c))))
    with (Z.of_nat (length a) + Z.of_nat (length b)) by lia.
  rewrite Z.min_l, Z.max_r by lia.
  replace (Z.to_nat (Z.of_nat (length a) + Z.of_nat (length b)
                     - Z.of_nat (length a))) with (length b) by lia.
  rewrite Nat2Z.id, drop_app_length. apply take_app_length.
Qed.

(** The text between the colon and the brace, or the end, of a declaration
    line. *)
Lemma inheritanceStr_of_line (pre types tail : jsstring) :
  code ":" ∉ pre ->
  code "{" ∉ types ->
  tail = [] \/ head tail = Some (code "{") ->
  let line := pre ++ js ":" ++ types ++ tail in
  substring line (indexOf line (js ":") + 1)
    (if indexOf_at line (js "{") (indexOf line (js ":")) =? -1
     then Z.of_nat (length line)
     else indexOf_at line (js "{") (indexOf line (js ":")))
  = types.
Proof.
  intros Hpre Htypes Htail line. subst line.
  change (js ":") with [code ":"]. change (js "{") with [code "{"].
  cbn [app].
  assert (Hcolon : indexOf (pre ++ code ":" :: types ++ tail) [code ":"]
                   = Z.of_nat (length pre))
    by (unfold indexOf; rewrite indexOf_from_app_char by done; lia).
  rewrite Hcolon, indexOf_at_app.
  pose proof (substring_middle (pre ++ [code ":"]) types tail) as Hsub.
  rewrite <- app_assoc, length_app in Hsub. cbn [app length] in Hsub.
  replace (Z.of_nat (length pre + 1)) with (Z.of_nat (length pre) + 1)
    in Hsub by lia.
  destruct Htail as [-> | Hhead].
  - rewrite indexOf_from_none_char.
    + change (-1 =? -1) with true. cbv iota.
      replace (Z.of_nat (length (pre ++ code ":" :: types ++ [])))
        with (Z.of_nat (length pre) + 1 + Z.of_nat (length types))
        by (rewrite !length_app; cbn [length]; rewrite length_app;
            cbn [length]; lia).
      exact Hsub.
    + rewrite app_nil_r, not_elem_of_cons. split; [done | exact Htypes].
  - destruct tail as [|c tail]; [done|].
    change (Some c = Some (code "{")) in Hhead.
    assert (c = code "{") as -> by congruence.
    change (code ":" :: types ++ code "{" :: tail)
      with ((code ":" :: types) ++ code "{" :: tail).
    rewrite indexOf_from_app_char
      by (rewrite not_elem_of_cons; split; [done | exact Htypes]).
    cbn [length].
    destruct (Z.eqb_spec (Z.of_nat (length pre) + Z.of_nat (S (length types)))
                (-1)); [lia|].
    replace (Z.of_nat (length pre) + Z.of_nat (S (length types)))
      with (Z.of_nat (length pre) + 1 + Z.of_nat (length types)) by lia.
    exact Hsub.
Qed.

(** X18.  [extractInheritanceDependencies] returns [undefined] for a line
    without colon.  For a line with a colon, it parses the top-level parts
    of the text that stands between the first colon and the first opening
    curly bracket after it (or the end of the line), trimmed, and leaves out
    the types named [object] and [System.Object]; when that text is empty
    once trimmed, it returns [undefined]. *)
Theorem extractInheritanceDependencies_shape :
  (forall line,
      code ":" ∉ line -> extractInheritanceDependencies line = None)
  /\ (forall pre types tail,
        code ":" ∉ pre ->
        code "{" ∉ types ->
        tail = [] \/ head tail = Some (code "{") ->
        extractInheritanceDependencies (pre ++ js ":" ++ types ++ tail)
        = if truthy_string (trim types)
          then Some (filter (fun p => notObject p = true)
                       (map recursiveParseType
                          (splitByTopLevelCommas (trim types))))
          else None)
  /\ (forall line inherited,
        extractInheritanceDependencies line = Some inherited ->
        Forall (fun p => Type_className p <> js "object"
                         /\ Type_className p <> js "System.Object")
          inherited).
Proof.
  split; [|split].
  - intros line H. unfold extractInheritanceDependencies.
    change (js ":") with [code ":"].
    apply indexOf_char in H. by rewrite H.
  - intros pre types tail Hpre Htypes Htail.
    unfold extractInheritanceDependencies.
    rewrite (inheritanceStr_of_line pre types tail Hpre Htypes Htail).
    change (js ":") with [code ":"]. cbn [app].
    unfold indexOf. rewrite indexOf_from_app_char by done.
    destruct (Z.eqb_spec (0 + Z.of_nat (length pre)) (-1)); [lia|].
    by destruct (truthy_string (trim types)).
  - intros line inherited H. unfold extractInheritanceDependencies in H.
    destruct (indexOf line (js ":") =? -1); [done|].
    destruct (negb (truthy_string _)); [done|]. injection H as <-.
    apply Forall_forall. intros p Hp.
    apply list_elem_of_filter in Hp as [Hp _].
    unfold notObject, jsstring_eqb in Hp.
    apply andb_true_iff in Hp as [Hobj Hsys].
    apply negb_true_iff, bool_decide_eq_false in Hobj, Hsys. done.
Qed.

Lemma extractInheritanceDependencies_shape_witness :
  extractInheritanceDependencies
    (js "class Foo " ++ js ":" ++ js " Base, object, IList<Bar> " ++ js "{")
  = Some (filter (fun p => notObject p = true)
            (map recursiveParseType
               (splitByTopLevelCommas (trim (js " Base, object, IList<Bar> "))))).
Proof.
  apply (proj1 (proj2 extractInheritanceDependencies_shape)
           (js "class Foo ") (js " Base, object, IList<Bar> ") (js "{")).
  - compute_done.
  - compute_done.
  - right. reflexivity.
Defined.

(** ** The inline constructor and the parameters *)

Lemma lastIndexOf_upto_none (c : N) (str : jsstring) :
  forall i found position,
    c ∉ take (Z.to_nat (position + 1 - i)) str ->
    lastIndexOf_upto str [c] i found position = found.
Proof.
  induction str as [|d str IH]; intros i found position H; [done|].
  cbn [lastIndexOf_upto isPrefixOf]. rewrite andb_true_r.
  destruct (Z.leb_spec i position) as [Hle|Hgt].
  - replace (Z.to_nat (position + 1 - i))
      with (S (Z.to_nat (position + 1 - (i + 1)))) in H by lia.
    cbn [take] in H. apply not_elem_of_cons in H as [Hne H].
    destruct (N.eqb_spec c d) as [->|_]; [done|].
    cbn [andb]. by apply IH.
  - rewrite andb_false_r. apply IH.
    replace (Z.to_nat (position + 1 - (i + 1))) with 0%nat by lia.
    apply not_elem_of_nil.
Qed.

(** X19.  [extractInlineConstructor] returns a constructor only when a
    closing parenthesis stands before the first opening parenthesis of the
    line: it returns [undefined] for a line without parenthesis, for a line
    without curly bracket, and for every line in which no [)] comes before
    the first [(], which is what a parameter list looks like. *)
Theorem extractInlineConstructor_undefined (declarationLine : jsstring) :
  (code "(" ∉ declarationLine ->
   extractInlineConstructor declarationLine = None)
  /\ (code "{" ∉ declarationLine ->
      extractInlineConstructor declarationLine = None)
  /\ (forall before after,
        declarationLine = before ++ js "(" ++ after ->
        code "(" ∉ before ->
        code ")" ∉ before ->
        extractInlineConstructor declarationLine = None).
Proof.
  unfold extractInlineConstructor.
  change (js "(") with [code "("]. change (js "{") with [code "{"].
  change (js ")") with [code ")"].
  split; [|split].
  - intros H. apply indexOf_char in H. by rewrite H.
  - intros H. apply indexOf_char in H. rewrite H.
    destruct (indexOf declarationLine [code "("] =? -1) eqn:E; [done|].
    destruct (indexOf_from_range declarationLine [code "("] 0) as [Hn|Hr];
      [unfold indexOf in E; rewrite Hn in E; done|].
    fold (indexOf declarationLine [code "("]) in Hr.
    destruct (Z.leb_spec (-1) (indexOf declarationLine [code "("])); [done|lia].
  - intros before after -> Hopen Hclose. cbn [app].
    assert (Hstart : indexOf (before ++ code "(" :: after) [code "("]
                     = Z.of_nat (length before))
      by (unfold indexOf; rewrite indexOf_from_app_char by done; lia).
    rewrite Hstart.
    destruct (Z.of_nat (length before) =? -1); [done|].
    destruct (_ <=? Z.of_nat (length before)); [done|].
    unfold lastIndexOf_at. rewrite lastIndexOf_upto_none; [done|].
    replace (Z.to_nat (Z.max (Z.of_nat (length before)) 0 + 1 - 0))
      with (length before + 1)%nat by lia.
    rewrite take_app_add. cbn [take].
    rewrite not_elem_of_app, not_elem_of_cons.
    split; [done|]. split; [done | apply not_elem_of_nil].
Qed.

Lemma extractInlineConstructor_undefined_witness :
  extractInlineConstructor (js "class Point" ++ js "(" ++ js "int x, int y) {")
  = None.
Proof.
  apply (proj2 (proj2 (extractInlineConstructor_undefined
                         (js "class Point" ++ js "(" ++ js "int x, int y) {")))
           (js "class Point") (js "int x, int y) {")).
  - reflexivity.
  - compute_done.
  - compute_done.
Defined.

Lemma substringOf_not_elem_of (c : N) (p s : jsstring) :
  substringOf p s -> c ∉ s -> c ∉ p.
Proof.
  intros (before & after & ->) H.
  rewrite !not_elem_of_app in H. tauto.
Qed.

Lemma addParameterTypeDependency_no_space (param : jsstring) :
  code " " ∉ param -> addParameterTypeDependency param = None.
Proof.
  intros H. unfold addParameterTypeDependency.
  rewrite split_not_in; [done|].
  eapply substringOf_not_elem_of; [apply trim_substringOf | exact H].
Qed.

(** X20.  A parameter is kept only when a space separates its type from a
    name: from a parameter list without any space, [processParameters]
    takes no type. *)
Theorem processParameters_no_space (params : jsstring) :
  code " " ∉ params -> processParameters params = [].
Proof.
  intros H. unfold processParameters.
  destruct (negb (truthy_string params)); [done|].
  pose proof (splitByTopLevelCommas_substringOf params) as Hparts.
  induction Hparts as [|part parts Hpart _ IH]; [done|].
  cbn [omap list_omap].
  rewrite addParameterTypeDependency_no_space; [exact IH|].
  by eapply substringOf_not_elem_of.
Qed.

Lemma processParameters_no_space_witness :
  processParameters (js "Order,Customer,List<Item>") = [].
Proof.
  apply (processParameters_no_space (js "Order,Customer,List<Item>")).
  compute_done.
Defined.

(** ** Flattening a type *)

(** [flattenType] returns one type only, the type it was given without its
    sub-types: what the recursive calls on the sub-types return is
    concatenated to an array that is not kept. *)
Lemma flattenType_drops_subTypes (type : Type_) :
  flattenType type
  = [ {| Type_className := Type_className type;
         Type_namespace := Type_namespace type;
         Type_projectName := Type_projectName type;
         subTypes := [] |} ].
Proof. by destruct type. Qed.

(** ** The outcome of [parseClassDependencies] *)

Lemma for_of_no_progress {A S} (body : S -> A -> outcome S) (l : list A)
    (s : S) :
  (forall s' x, body s' x = Return s' \/ body s' x = OutOfFuel) ->
  for_of body l s = Return s \/ for_of body l s = OutOfFuel.
Proof.
  intros Hbody. induction l as [|x l IH]; [by left|].
  cbn [for_of]. destruct (Hbody s x) as [-> | ->]; [exact IH | by right].
Qed.

Lemma for_of_identity {A S} (body : S -> A -> outcome S) (l : list A)
    (s : S) :
  (forall s' x, body s' x = Return s') -> for_of body l s = Return s.
Proof.
  intros Hbody. induction l as [|x l IH]; [done|].
  cbn [for_of]. by rewrite Hbody.
Qed.

Lemma indexOf_from_none_inv (x : jsstring) (s : jsstring) :
  forall i, 0 <= i ->
    indexOf_from s x i = -1 ->
    forall k, isPrefixOf x (drop k s) = false.
Proof.
  induction s as [|d s IH]; intros i Hi H k; cbn [indexOf_from] in H.
  - rewrite drop_nil. destruct (isPrefixOf x []); [lia | done].
  - destruct (isPrefixOf x (d :: s)) eqn:E; [lia|].
    destruct k as [|k]; [exact E|]. apply (IH (i + 1)); [lia | exact H].
Qed.

Lemma indexOf_from_none_intro (x : jsstring) (s : jsstring) :
  forall i,
    (forall k, isPrefixOf x (drop k s) = false) ->
    indexOf_from s x i = -1.
Proof.
  induction s as [|d s IH]; intros i H; cbn [indexOf_from];
    pose proof (H 0%nat) as H0; rewrite drop_0 in H0; rewrite H0; [done|].
  apply IH. intros k. apply (H (S k)).
Qed.

Lemma isPrefixOf_app_r (x u b : jsstring) :
  isPrefixOf x u = true -> isPrefixOf x (u ++ b) = true.
Proof.
  revert u. induction x as [|c x IH]; intros u H; [done|].
  destruct u as [|d u]; [done|]. cbn [isPrefixOf app] in *.
  apply andb_true_iff in H as [-> H]. by rewrite IH.
Qed.

Lemma indexOf_none_substringOf (x p s : jsstring) :
  x <> [] ->
  substringOf p s ->
  indexOf s x = -1 ->
  indexOf p x = -1.
Proof.
  intros Hx (before & after & ->) H.
  apply indexOf_from_none_intro. intros k.
  destruct (isPrefixOf x (drop k p)) eqn:E; [|done].
  destruct (decide (k <= length p)%nat) as [Hk|Hk].
  - pose proof (indexOf_from_none_inv x _ 0 ltac:(lia) H (length before + k))
      as Hnone.
    rewrite <- drop_drop, drop_app_length, drop_app_le in Hnone by done.
    by rewrite (isPrefixOf_app_r _ _ _ E) in Hnone.
  - rewrite drop_ge in E by lia. by destruct x.
Qed.

Lemma split_head_prefix (s : jsstring) (c : N) :
  exists seg segs rest, split s c = seg :: segs /\ s = seg ++ rest.
Proof.
  induction s as [|d s (seg & segs & rest & Heq & Hs)].
  - by exists [], [], [].
  - cbn [split]. destruct (d =? c)%N.
    + by exists [], (split s c), (d :: s).
    + rewrite Heq. exists (d :: seg), segs, rest. by rewrite Hs at 1.
Qed.

Lemma split_substringOf (s : jsstring) (c : N) :
  Forall (fun p => substringOf p s) (split s c).
Proof.
  induction s as [|d s IH].
  - constructor; [apply substringOf_refl | done].
  - assert (Hshift : forall p, substringOf p s -> substringOf p (d :: s)).
    { intros p (before & after & ->). by exists (d :: before), after. }
    cbn [split]. destruct (d =? c)%N.
    + constructor; [by exists [], (d :: s)|].
      eapply Forall_impl; [exact IH | exact Hshift].
    + destruct (split_head_prefix s c) as (seg & segs & rest & Heq & Hs).
      rewrite Heq in IH |- *. inversion IH as [|? ? _ Hsegs]; subst.
      constructor; [|eapply Forall_impl; [exact Hsegs | exact Hshift]].
      by exists [], rest.
Qed.

Lemma forEach_assign_identity {A} (f : A -> outcome A) (arr : list A) :
  Forall (fun x => f x = Return x) arr -> forEach_assign f arr = Return arr.
Proof.
  induction 1 as [|x arr Hx _ IH]; [done|].
  cbn [forEach_assign]. rewrite Hx. simpl. by rewrite IH.
Qed.

(** On a text without ["//"], no line is cut and [preParseText] throws
    whatever the fuel. *)
Lemma preParseText_throws_without_marker (fuel : nat) (str : jsstring) :
  indexOf str (js "//") = -1 -> preParseText fuel str = Throw TypeError.
Proof.
  intros H. unfold preParseText.
  rewrite forEach_assign_identity; [done|].
  apply Forall_forall. intros line Hline.
  apply list_elem_of_filter in Hline as [_ Hline].
  unfold stripRightComment.
  rewrite (indexOf_none_substringOf (js "//") line str); [done | done | | done].
  pose proof (split_substringOf str 10%N) as Hsub.
  rewrite Forall_forall in Hsub. by apply Hsub.
Qed.

(** X21.  [parseClassDependencies] never throws and never returns a record:
    it returns the empty list or does not return.  When no file that can be
    read holds ["//"], it returns the empty list whatever the fuel. *)
Theorem parseClassDependencies_empty
    (readFile : jsstring -> option jsstring)
    (processSingleClass : list jsstring -> outcome (option Class_))
    (fuel : nat) (projectSourceFiles : list (jsstring * list jsstring))
    (complete includeClassDependencies : bool) :
  (parseClassDependencies readFile processSingleClass fuel projectSourceFiles
     complete includeClassDependencies = Return []
   \/ parseClassDependencies readFile processSingleClass fuel
        projectSourceFiles complete includeClassDependencies = OutOfFuel)
  /\ ((forall filePath content,
          readFile filePath = Some content ->
          indexOf content (js "//") = -1) ->
      parseClassDependencies readFile processSingleClass fuel
        projectSourceFiles complete includeClassDependencies = Return []).
Proof.
  unfold parseClassDependencies, secondPass.
  destruct includeClassDependencies; cbn [negb]; [|by split; [left|]].
  split.
  - apply for_of_no_progress. intros acc [projectName sourceFiles].
    apply for_of_no_progress. intros acc' filePath.
    apply secondPass_file_no_record.
  - intros Hfiles.
    apply for_of_identity. intros acc [projectName sourceFiles].
    apply for_of_identity. intros acc' filePath.
    unfold secondPass_file, await_readFile, extractClassesFromFile.
    destruct (readFile filePath) as [content|] eqn:E; [|done].
    simpl. by rewrite (preParseText_throws_without_marker _ _ (Hfiles _ _ E)).
Qed.

Lemma parseClassDependencies_empty_witness :
  parseClassDependencies example_readFile (fun _ => Return None) 0
    [(js "Shop", [js "Foo.cs"; js "Bar.cs"; js "Gone.cs"])] true true
  = Return [].
Proof.
  apply (proj2 (parseClassDependencies_empty example_readFile
                  (fun _ => Return None) 0
                  [(js "Shop", [js "Foo.cs"; js "Bar.cs"; js "Gone.cs"])]
                  true true)).
  intros filePath content. unfold example_readFile.
  repeat case_match; intros [= <-]; reflexivity.
Defined.

(** ** The names under which classes are registered *)

Lemma rmatch_groupFree {R} (r : regex) :
  groupFree r = true ->
  forall cur caps (k : cursor -> list jsstring -> option R) res,
    rmatch r cur caps k = Some res ->
    exists cur', k cur' caps = Some res.
Proof.
  induction r as [c|cls min max|r1 IH1 r2 IH2|r IH|];
    intros Hfree cur caps k res H; cbn [rmatch groupFree] in *.
  - destruct (cur_rest cur) as [|c' rest]; [done|].
    destruct (c' =? c)%N; [|done]. eauto.
  - apply rep_greedy_spec in H as (cur' & H & _). eauto.
  - apply andb_true_iff in Hfree as [Hfree1 Hfree2].
    apply (IH1 Hfree1) in H as (cur1 & H).
    by apply (IH2 Hfree2) in H.
  - done.
  - destruct (xorb _ _); [|done]. eauto.
Qed.

(** What a quantifier has taken when the match goes on: characters of its
    class, as many as its bounds allow. *)
Lemma rep_greedy_taken {R} (cls : N -> bool) (rest : jsstring) :
  forall min max pos prev (k : cursor -> option R) res,
    rep_greedy cls min max pos prev rest k = Some res ->
    exists taken rest' prev',
      rest = taken ++ rest'
      /\ Forall (fun c => cls c = true) taken
      /\ (min <= length taken)%nat
      /\ (forall m, max = Some m -> (length taken <= m)%nat)
      /\ k (Cursor (pos + length taken) prev' rest') = Some res.
Proof.
  induction rest as [|c rest IH]; intros min max pos prev k res H.
  - simpl in H. destruct min; [|done].
    exists [], [], prev. rewrite Nat.add_0_r.
    repeat split; [constructor | done | intros; simpl; lia | done].
  - cbn [rep_greedy] in H.
    assert (Hstop :
      match min with
      | O => k (Cursor pos prev (c :: rest))
      | S _ => None
      end = Some res ->
      exists taken rest' prev',
        c :: rest = taken ++ rest'
        /\ Forall (fun c => cls c = true) taken
        /\ (min <= length taken)%nat
        /\ (forall m, max = Some m -> (length taken <= m)%nat)
        /\ k (Cursor (pos + length taken) prev' rest') = Some res).
    { intros Hk. destruct min; [|done].
      exists [], (c :: rest), prev. rewrite Nat.add_0_r.
      repeat split; [constructor | done | intros; simpl; lia | done]. }
    destruct (cls c && may_take max) eqn:E; [|by apply Hstop].
    destruct (rep_greedy cls (Nat.pred min) (Nat.pred <$> max) (S pos)
                (Some c) rest k) as [res'|] eqn:E'; [|by apply Hstop].
    injection H as ->. apply andb_true_iff in E as [Hc Hmay].
    destruct (IH _ _ _ _ _ _ E')
      as (taken & rest' & prev' & -> & Hcls & Hmin & Hmax & Hk).
    exists (c :: taken), rest', prev'. cbn [length].
    replace (pos + S (length taken))%nat with (S pos + length taken)%nat
      by lia.
    repeat split; [by constructor | lia | | exact Hk].
    intros m ->. destruct m as [|m]; [done|].
    specialize (Hmax m eq_refl). lia.
Qed.

Lemma rmatch_Seq {R} (r1 r2 : regex) (cur : cursor) (caps : list jsstring)
    (k : cursor -> list jsstring -> option R) :
  rmatch (Seq r1 r2) cur caps k
  = rmatch r1 cur caps (fun cur' caps' => rmatch r2 cur' caps' k).
Proof. reflexivity. Qed.

Lemma rmatch_Group_Rep {R} (cls : N -> bool) (min : nat) (max : option nat)
    (cur : cursor) (caps : list jsstring)
    (k : cursor -> list jsstring -> option R) :
  rmatch (Group (Rep cls min max)) cur caps k
  = rep_greedy cls min max (cur_pos cur) (cur_prev cur) (cur_rest cur)
      (fun cur' =>
         k cur' (<[length caps := take (cur_pos cur' - cur_pos cur)
                                    (cur_rest cur)]> (caps ++ [[]]))).
Proof. reflexivity. Qed.

Lemma classRegex_rmatch (cur cur' : cursor) (caps : list jsstring) :
  rmatch (source classRegex) cur [] (fun cur caps => Some (cur, caps))
  = Some (cur', caps) ->
  exists taken,
    caps = [taken]
    /\ Forall (fun c => isWordChar c = true) taken
    /\ (1 <= length taken <= MAX_CLASS_NAME_LENGTH)%nat.
Proof.
  intros E. unfold classRegex, source in E.
  rewrite rmatch_Seq in E.
  apply (rmatch_groupFree WordBoundary eq_refl) in E as (cur1 & E).
  rewrite rmatch_Seq in E.
  apply (rmatch_groupFree (Word (js "class")) eq_refl) in E as (cur2 & E).
  rewrite rmatch_Seq in E.
  apply (rmatch_groupFree (Rep isWhiteSpace 1 None) eq_refl) in E
    as (cur3 & E).
  rewrite rmatch_Group_Rep in E.
  apply rep_greedy_taken in E
    as (taken & rest' & prev' & Hrest & Hcls & Hmin & Hmax & E).
  injection E as _ <-. exists taken.
  cbn [cur_pos length app]. rewrite Hrest.
  replace (cur_pos cur3 + length taken - cur_pos cur3)%nat
    with (length taken) by lia.
  rewrite take_app_length.
  split; [done|]. split; [exact Hcls|]. split; [exact Hmin|]. by apply Hmax.
Qed.

Lemma classRegex_exec_loop (rest : jsstring) :
  forall pos prev m,
    exec_loop (source classRegex) pos prev rest = Some m ->
    Forall (fun c => isWordChar c = true) (group1 m)
    /\ (1 <= length (group1 m) <= MAX_CLASS_NAME_LENGTH)%nat.
Proof.
  induction rest as [|c rest IH]; intros pos prev m H; cbn [exec_loop] in H.
  all: destruct (rmatch (source classRegex) _ _ _) as [[cur caps]|] eqn:E;
    [|try done; by eapply IH].
  all: injection H as <-;
    apply classRegex_rmatch in E as (taken & -> & Hcls & Hlen);
    by unfold group1.
Qed.

Lemma classRegex_group (content : jsstring) (lastIndex : nat)
    (m : MatchResult) :
  exec_from (source classRegex) content lastIndex = Some m ->
  Forall (fun c => isWordChar c = true) (group1 m)
  /\ (1 <= length (group1 m) <= MAX_CLASS_NAME_LENGTH)%nat.
Proof.
  unfold exec_from. case_bool_decide; [|done]. apply classRegex_exec_loop.
Qed.

Lemma declaredClassNames_loop_bounded (content : jsstring) (fuel : nat) :
  forall lastIndex,
    Forall (fun cls => Forall (fun c => isWordChar c = true) cls
                       /\ (1 <= length cls <= MAX_CLASS_NAME_LENGTH)%nat)
      (declaredClassNames_loop fuel content lastIndex).
Proof.
  induction fuel as [|fuel IH]; intros lastIndex; [constructor|].
  cbn [declaredClassNames_loop].
  destruct (exec_from _ content lastIndex) as [m|] eqn:E; [|constructor].
  constructor; [by eapply classRegex_group | apply IH].
Qed.

Lemma isWordChar_no_space (c : N) :
  isWordChar c = true -> isWhiteSpace c = false.
Proof.
  unfold isWordChar, isWhiteSpace.
  rewrite !orb_true_iff, !andb_true_iff, !N.leb_le, !N.eqb_eq. intros H.
  apply orb_false_iff. split.
  - apply bool_decide_eq_false. rewrite !elem_of_cons, elem_of_nil. lia.
  - apply andb_false_iff. left. apply N.leb_gt. lia.
Qed.

(** A greedy quantifier whose continuation succeeds takes the longest run
    that its class and its bounds allow. *)
Lemma rep_greedy_longest {R} (cls : N -> bool) (taken rest' : jsstring) :
  forall (min : nat) (max : option nat) (pos : nat) (prev : option N)
         (k : cursor -> option R),
    Forall (fun c => cls c = true) taken ->
    (min <= length taken)%nat ->
    (forall m, max = Some m -> (length taken <= m)%nat) ->
    (max = Some (length taken)
     \/ match head rest' with Some c => cls c = false | None => True end) ->
    (forall prev', is_Some (k (Cursor (pos + length taken) prev' rest'))) ->
    exists prev',
      rep_greedy cls min max pos prev (taken ++ rest') k
      = k (Cursor (pos + length taken) prev' rest').
Proof.
  induction taken as [|c taken IH];
    intros min max pos prev k Hcls Hmin Hmax Hstop Hk.
  - exists prev. cbn [app length] in *. rewrite Nat.add_0_r.
    assert (min = 0%nat) as -> by lia.
    destruct rest' as [|c rest']; [done|].
    cbn [rep_greedy].
    destruct Hstop as [->|Hc]; [by rewrite andb_false_r|].
    cbn [head] in Hc. by rewrite Hc.
  - apply Forall_cons in Hcls as [Hc Hcls]. cbn [length] in *.
    assert (Hmay : may_take max = true).
    { destruct max as [[|m]|]; [|done|done].
      specialize (Hmax 0%nat eq_refl). lia. }
    destruct (IH (Nat.pred min) (Nat.pred <$> max) (S pos) (Some c) k)
      as [prev' Hrec].
    + exact Hcls.
    + lia.
    + intros m Hm. destruct max as [m'|]; [|done].
      injection Hm as <-. specialize (Hmax m' eq_refl). lia.
    + destruct Hstop as [->|Hhead]; [by left | by right].
    + intros prev'. specialize (Hk prev').
      by replace (S pos + length taken)%nat
        with (pos + S (length taken))%nat by lia.
    + exists prev'. cbn [app rep_greedy]. rewrite Hc, Hmay. cbn [andb].
      rewrite Hrec.
      replace (S pos + length taken)%nat
        with (pos + S (length taken))%nat by lia.
      by destruct (Hk prev') as [res ->].
Qed.

(** A match at the position where the search starts is the one that is
    returned. *)
Lemma exec_loop_here (r : regex) (pos : nat) (prev : option N)
    (rest : jsstring) (cur : cursor) (caps : list jsstring) :
  rmatch r (Cursor pos prev rest) [] (fun cur caps => Some (cur, caps))
  = Some (cur, caps) ->
  exec_loop r pos prev rest
  = Some {| m_index := pos; m_end := cur_pos cur; m_groups := caps |}.
Proof. intros H. destruct rest; cbn [exec_loop]; by rewrite H. Qed.

(** At the start of [class], a space and a word character, the class
    pattern comes to its group after the space. *)
Lemma classRegex_rmatch_name (w : N) (name' rest : jsstring) :
  isWordChar w = true ->
  rmatch (source classRegex)
    (Cursor 0 None (js "class " ++ (w :: name') ++ rest)) []
    (fun cur caps => Some (cur, caps))
  = rep_greedy isWordChar 1 (Some 60%nat) 6 (Some 32%N)
      ((w :: name') ++ rest)
      (fun cur' =>
         Some (cur',
               <[0%nat := take (cur_pos cur' - 6)
                            ((w :: name') ++ rest)]> [[]])).
Proof.
  intros Hw.
  change (js "class ") with [99; 108; 97; 115; 115; 32]%N.
  unfold classRegex, source, MAX_CLASS_NAME_LENGTH.
  change (Word (js "class"))
    with (Seq (Lit 99) (Seq (Lit 108) (Seq (Lit 97)
            (Seq (Lit 115) (Lit 115)))))%N.
  cbn [app rmatch cur_prev cur_rest cur_pos is_word head].
  change (isWordChar 99) with true. cbn [xorb N.eqb Pos.eqb].
  set (k := fun cur' : cursor =>
              rep_greedy isWordChar 1 (Some 60%nat) _ _ _ _).
  set (rhs := rep_greedy isWordChar _ _ _ _ _ _).
  cbn [rep_greedy]. change (isWhiteSpace 32) with true.
  rewrite (isWordChar_no_space w Hw).
  cbn [andb may_take Nat.pred].
  change (k _) with rhs. by destruct rhs.
Qed.

(** On a content that begins with [class], a space and a name, the class
    pattern matches at the start and captures the name, cut at sixty
    characters. *)
Lemma classRegex_exec_name (name rest : jsstring) :
  name <> [] ->
  Forall (fun c => isWordChar c = true) name ->
  is_word (head rest) = false ->
  exists m,
    exec_from (source classRegex) (js "class " ++ name ++ rest) 0 = Some m
    /\ group1 m = take 60 name.
Proof.
  intros Hne Hname Hrest.
  destruct name as [|w name']; [done|]. clear Hne.
  pose proof Hname as Hw. apply Forall_cons in Hw as [Hw _].
  destruct (rep_greedy_longest isWordChar (take 60 (w :: name'))
              (drop 60 (w :: name') ++ rest) 1 (Some 60%nat) 6 (Some 32%N)
              (fun cur' =>
                 Some (cur',
                       <[0%nat := take (cur_pos cur' - 6)
                                    ((w :: name') ++ rest)]> [[]])))
    as [prev' Hgroup].
  - by apply Forall_take.
  - cbn [take length]. lia.
  - intros m [= <-]. rewrite length_take. lia.
  - destruct (decide (60 <= length (w :: name'))%nat) as [Hlong|Hshort].
    + left. by rewrite length_take, Nat.min_l.
    + right. rewrite drop_ge by lia. cbn [app].
      destruct rest as [|c rest]; [done|]. exact Hrest.
  - intros prev''. by eexists.
  - rewrite (app_assoc (take 60 (w :: name')) (drop 60 (w :: name')) rest),
      take_drop in Hgroup.
    rewrite <- (classRegex_rmatch_name w name' rest Hw) in Hgroup.
    apply exec_loop_here in Hgroup.
    eexists. split.
    + unfold exec_from. rewrite bool_decide_eq_true_2 by lia.
      rewrite drop_0. exact Hgroup.
    + unfold group1. cbn [m_groups cur_pos].
      replace (6 + length (take 60 (w :: name')) - 6)%nat
        with (length (take 60 (w :: name'))) by lia.
      rewrite <- (take_drop 60 (w :: name')) at 2.
      rewrite <- app_assoc, take_app_length. reflexivity.
Qed.

(** X22.  The keys that [registerClassesFromFile] sets are class names of
    one to sixty word characters, bare or behind the namespace of the
    content and a dot.  A name of more than sixty characters is registered
    under its first sixty characters and not under its own: on a content
    that begins with [class], a space and a name, the entry is set under
    the name cut at sixty characters, and a longer name is left as it was
    in the registry. *)
Theorem registerClassesFromFile_keys_bounded (projectName : jsstring)
    (classRegistry : ClassMapping) :
  (forall content : jsstring,
      registerClassesFromFile content projectName classRegistry
      = setAll (registrationsOfFile content projectName) classRegistry
      /\ forall key : jsstring,
           key ∈ (registrationsOfFile content projectName).*1 ->
           exists cls,
             Forall (fun c => isWordChar c = true) cls
             /\ (1 <= length cls <= 60)%nat
             /\ (key = cls
                 \/ key = declaredNamespace content ++ js "." ++ cls))
  /\ (forall name rest : jsstring,
        name <> [] ->
        Forall (fun c => isWordChar c = true) name ->
        is_word (head rest) = false ->
        registerClassesFromFile (js "class " ++ name ++ rest) projectName
          classRegistry !! take 60 name
        = Some {| ClassInfo_namespace :=
                    declaredNamespace (js "class " ++ name ++ rest);
                  ClassInfo_projectName := projectName |}
        /\ ((60 < length name)%nat ->
            registerClassesFromFile (js "class " ++ name ++ rest) projectName
              classRegistry !! name
            = classRegistry !! name)).
Proof.
  assert (Hkeys : forall content key : jsstring,
             key ∈ (registrationsOfFile content projectName).*1 ->
             exists cls,
               Forall (fun c => isWordChar c = true) cls
               /\ (1 <= length cls <= 60)%nat
               /\ (key = cls
                   \/ key = declaredNamespace content ++ js "." ++ cls)).
  { intros content key Hin.
    apply registrationsOfFile_keys in Hin as (cls & Hcls & Hk).
    pose proof (declaredClassNames_loop_bounded content
                  (S (length content)) 0) as Hall.
    rewrite Forall_forall in Hall. destruct (Hall cls Hcls) as [Hword Hlen].
    exists cls. split; [exact Hword|]. split; [exact Hlen|].
    destruct Hk as [->|[_ ->]]; auto. }
  split.
  - intros content. split; [apply registerClassesFromFile_setAll|].
    apply Hkeys.
  - intros name rest Hne Hname Hrest.
    set (content := js "class " ++ name ++ rest).
    rewrite registerClassesFromFile_setAll. split.
    + apply setAll_lookup_const; [apply registrationsOfFile_const|].
      apply registrationsOfFile_keys. exists (take 60 name).
      split; [|by left].
      destruct (classRegex_exec_name name rest Hne Hname Hrest)
        as (m & Hexec & Hgroup).
      unfold declaredClassNames. cbn [declaredClassNames_loop].
      fold content in Hexec. rewrite Hexec, Hgroup. left.
    + intros Hlong. apply setAll_lookup_notin. intros Hin.
      apply Hkeys in Hin as (cls & Hword & Hlen & [Hkey|Hkey]).
      * rewrite Hkey in Hlong. lia.
      * rewrite Forall_forall in Hname.
        assert (Hdot : code "." ∈ name).
        { rewrite Hkey. apply elem_of_app. right. left. }
        by apply Hname in Hdot.
Qed.

Lemma registerClassesFromFile_keys_bounded_witness :
  registerClassesFromFile (js "class " ++ example_longName ++ js " { }")
    (js "Shop") ∅ !! replicate 60 (code "N")
  = Some {| ClassInfo_namespace := [];
            ClassInfo_projectName := js "Shop" |}
  /\ registerClassesFromFile (js "class " ++ example_longName ++ js " { }")
       (js "Shop") ∅ !! example_longName
     = None.
Proof.
  destruct (registerClassesFromFile_keys_bounded (js "Shop") ∅)
    as [_ Hcut].
  destruct (Hcut example_longName (js " { }")) as [Hset Hlong].
  - discriminate.
  - apply Forall_forall. intros c Hc.
    apply elem_of_replicate in Hc as [-> _]. reflexivity.
  - reflexivity.
  - split; [exact Hset|]. apply Hlong. vm_compute. lia.
Defined.

(** ** Static calls *)

Lemma rmatch_Group {R} (r : regex) (cur : cursor) (caps : list jsstring)
    (k : cursor -> list jsstring -> option R) :
  rmatch (Group r) cur caps k
  = rmatch r cur (caps ++ [[]])
      (fun cur' caps' =>
         k cur' (<[length caps := take (cur_pos cur' - cur_pos cur)
                                    (cur_rest cur)]> caps')).
Proof. reflexivity. Qed.

Lemma rmatch_Rep {R} (cls : N -> bool) (min : nat) (max : option nat)
    (cur : cursor) (caps : list jsstring)
    (k : cursor -> list jsstring -> option R) :
  rmatch (Rep cls min max) cur caps k
  = rep_greedy cls min max (cur_pos cur) (cur_prev cur) (cur_rest cur)
      (fun cur' => k cur' caps).
Proof. reflexivity. Qed.

(** What [REGEX.staticMethodCall] captures: an upper-case letter and then
    word characters and dots. *)
Lemma staticMethodCall_rmatch (cur cur' : cursor) (caps : list jsstring) :
  rmatch (source REGEX_staticMethodCall) cur []
    (fun cur caps => Some (cur, caps))
  = Some (cur', caps) ->
  exists c name,
    caps = [c :: name]
    /\ isUpper c = true
    /\ Forall (fun c => isWordOrDot c = true) name.
Proof.
  intros E. unfold REGEX_staticMethodCall, source in E.
  rewrite rmatch_Seq in E.
  apply (rmatch_groupFree WordBoundary eq_refl) in E as (cur1 & E).
  rewrite rmatch_Seq, rmatch_Group, rmatch_Seq, rmatch_Rep in E.
  apply rep_greedy_taken in E
    as (t1 & rest1 & prev1 & Hrest1 & Hcls1 & Hmin1 & Hmax1 & E).
  rewrite rmatch_Rep in E.
  apply rep_greedy_taken in E
    as (t2 & rest2 & prev2 & Hrest2 & Hcls2 & _ & _ & E).
  cbn [cur_pos cur_rest] in E.
  apply rmatch_groupFree in E as (cur3 & E); [|reflexivity].
  injection E as _ <-.
  specialize (Hmax1 1%nat eq_refl).
  destruct t1 as [|c [|d t1]]; cbn [length] in Hmin1, Hmax1; try lia.
  apply Forall_cons in Hcls1 as [Hc _].
  exists c, t2. split; [|done].
  cbn [cur_rest] in Hrest2. rewrite Hrest1, Hrest2. cbn [length app].
  replace (cur_pos cur1 + 1 + length t2 - cur_pos cur1)%nat
    with (S (length t2)) by lia.
  cbn [take]. by rewrite take_app_length.
Qed.

Lemma staticMethodCall_exec_loop (rest : jsstring) :
  forall pos prev m,
    exec_loop (source REGEX_staticMethodCall) pos prev rest = Some m ->
    exists c name,
      group1 m = c :: name
      /\ isUpper c = true
      /\ Forall (fun c => isWordOrDot c = true) name.
Proof.
  induction rest as [|c rest IH]; intros pos prev m H; cbn [exec_loop] in H.
  all: destruct (rmatch (source REGEX_staticMethodCall) _ _ _)
         as [[cur caps]|] eqn:E;
    [|try done; by eapply IH].
  all: injection H as <-;
    apply staticMethodCall_rmatch in E as (d & name & -> & Hd & Hname);
    by exists d, name.
Qed.

Lemma staticMethodCall_group (content : jsstring) (lastIndex : nat)
    (m : MatchResult) :
  exec_from (source REGEX_staticMethodCall) content lastIndex = Some m ->
  exists c name,
    group1 m = c :: name
    /\ isUpper c = true
    /\ Forall (fun c => isWordOrDot c = true) name.
Proof.
  unfold exec_from. case_bool_decide; [|done].
  apply staticMethodCall_exec_loop.
Qed.

Lemma isUpper_isWordOrDot (c : N) : isUpper c = true -> isWordOrDot c = true.
Proof.
  unfold isUpper, isWordOrDot, isWordChar. intros ->.
  by rewrite orb_true_r.
Qed.

Lemma isWordOrDot_range (c : N) :
  isWordOrDot c = true -> (46 <= c <= 122)%N.
Proof.
  unfold isWordOrDot, isWordChar. change (code ".") with 46%N.
  rewrite !orb_true_iff, !andb_true_iff, !N.leb_le, !N.eqb_eq. lia.
Qed.

Lemma isWordOrDot_no_space (c : N) :
  isWordOrDot c = true -> isWhiteSpace c = false.
Proof.
  intros H%isWordOrDot_range. unfold isWhiteSpace.
  apply orb_false_iff. split.
  - apply bool_decide_eq_false. rewrite !elem_of_cons, elem_of_nil. lia.
  - apply andb_false_iff. left. apply N.leb_gt. lia.
Qed.

Lemma dropWhile_head {A} (p : A -> bool) (l : list A) :
  match head l with Some x => p x = false | None => True end ->
  dropWhile p l = l.
Proof. destruct l as [|x l]; [done|]. simpl. by intros ->. Qed.

Lemma trim_no_space (s : jsstring) :
  Forall (fun c => isWhiteSpace c = false) s -> trim s = s.
Proof.
  intros Hs. unfold trim.
  rewrite (dropWhile_head _ s) by (by destruct Hs).
  rewrite dropWhile_head; [apply rev_involutive|].
  apply Forall_rev in Hs. by destruct Hs.
Qed.

(** A name of word characters and dots is parsed to a leaf that carries the
    name as it is. *)
Lemma recursiveParseType_name (name : jsstring) :
  Forall (fun c => isWordOrDot c = true) name ->
  recursiveParseType name = mkType name (js "unknown") (js "external") []
  /\ baseTypeOf name = name.
Proof.
  intros Hname.
  assert (Hlt : code "<" ∉ name).
  { intros Hin. rewrite Forall_forall in Hname.
    by apply Hname in Hin. }
  assert (Hparen : head name <> Some (code "(")).
  { destruct name as [|c name]; [done|]. intros [= ->].
    apply Forall_cons in Hname as [Hc%isWordOrDot_range _].
    change (code "(") with 40%N in Hc. lia. }
  assert (Htrim : trim name = name).
  { apply trim_no_space. eapply Forall_impl; [exact Hname|].
    apply isWordOrDot_no_space. }
  split; [|by unfold baseTypeOf; rewrite (split_not_in _ _ Hlt)].
  rewrite recursiveParseType_unfold. unfold recursiveParseType_node.
  assert (Hgen : genericParts name = []).
  { unfold genericParts. change (js "<") with [code "<"].
    apply indexOf_char in Hlt. by rewrite Hlt. }
  assert (Htup : isTuple name = false).
  { unfold isTuple, startsWith. rewrite drop_0.
    change (js "(") with [code "("].
    destruct (isPrefixOf [code "("] name) eqn:E; [|done].
    by apply isPrefixOf_singleton in E. }
  unfold tupleParts. rewrite Hgen, Htup, (split_not_in _ _ Hlt).
  change (default [] (head [name])) with name. by rewrite Htrim.
Qed.

Lemma staticCallNames_loop_shape (content : jsstring) (fuel : nat) :
  forall lastIndex,
    Forall (fun name => exists c rest,
                name = c :: rest
                /\ isUpper c = true
                /\ Forall (fun c => isWordOrDot c = true) rest)
      (staticCallNames_loop fuel content lastIndex).
Proof.
  induction fuel as [|fuel IH]; intros lastIndex; [constructor|].
  cbn [staticCallNames_loop].
  destruct (exec_from _ content lastIndex) as [m|] eqn:E; [|constructor].
  constructor; [by eapply staticMethodCall_group | apply IH].
Qed.

Lemma upper_name_no_keyword (c : N) (rest : jsstring) :
  isUpper c = true -> c :: rest ∉ staticCallKeywords.
Proof.
  unfold isUpper. rewrite andb_true_iff, !N.leb_le. intros Hc Hin.
  unfold staticCallKeywords in Hin. cbn [map] in Hin.
  rewrite !elem_of_cons, elem_of_nil in Hin.
  assert (Hlow : (97 <= c)%N); [|lia].
  destruct Hin as [H|[H|[H|[H|[H|[]]]]]]; injection H as -> _; done.
Qed.

Lemma findStaticCalls_loop_names (content : jsstring) (fuel : nat) :
  forall lastIndex,
    findStaticCalls_loop fuel content lastIndex
    = map (fun name => mkType name (js "unknown") (js "external") [])
        (filter (fun name => isPrimitiveType name = false
                             /\ isSystemClass name = false)
           (staticCallNames_loop fuel content lastIndex)).
Proof.
  induction fuel as [|fuel IH]; intros lastIndex; [done|].
  cbn [findStaticCalls_loop staticCallNames_loop].
  destruct (exec_from _ content lastIndex) as [m|] eqn:E; [|done].
  apply staticMethodCall_group in E as (c & rest & -> & Hc & Hrest).
  rewrite IH.
  rewrite (bool_decide_eq_false_2 _ (upper_name_no_keyword c rest Hc)).
  destruct (recursiveParseType_name (c :: rest)) as [Hparse _].
  { constructor; [by apply isUpper_isWordOrDot | done]. }
  rewrite Hparse.
  destruct (isPrimitiveType (c :: rest)) eqn:Hprim;
    [by rewrite filter_cons_False by (intros [H1 H2]; congruence)|].
  destruct (isSystemClass (c :: rest)) eqn:Hsys;
    [by rewrite filter_cons_False by (intros [H1 H2]; congruence)|].
  by rewrite filter_cons_True.
Qed.

(** The loop of [findStaticCalls] ends before its fuel is used up. *)
Lemma findStaticCalls_loop_fuel (content : jsstring) (fuel1 : nat) :
  forall fuel2 lastIndex,
    (length content - lastIndex < fuel1)%nat ->
    (length content - lastIndex < fuel2)%nat ->
    findStaticCalls_loop fuel1 content lastIndex
    = findStaticCalls_loop fuel2 content lastIndex.
Proof.
  induction fuel1 as [|fuel1 IH]; intros [|fuel2] lastIndex H1 H2; try lia.
  cbn [findStaticCalls_loop].
  destruct (exec_from _ content lastIndex) as [m|] eqn:E; [|done].
  apply exec_from_spec in E as (Hstart & Hlen & Hend).
  change (minLength (source REGEX_staticMethodCall)) with 4%nat in Hlen.
  rewrite (IH fuel2) by lia. done.
Qed.

(** X23.  [findStaticCalls] returns one leaf for every static call whose
    receiver is neither a primitive type nor a system class, in the order of
    the calls: the receiver is the class name as it stands, dots included,
    and the test against the keywords never rejects a call. *)
Theorem findStaticCalls_leaves (content : jsstring) :
  findStaticCalls content
  = map (fun name => mkType name (js "unknown") (js "external") [])
      (filter (fun name => isPrimitiveType name = false
                           /\ isSystemClass name = false)
         (staticCallNames content)).
Proof. apply findStaticCalls_loop_names. Qed.

(** X24.  Every type that [findStaticCalls] returns has a class name that
    starts with an upper-case letter and goes on with word characters and
    dots, and has no sub-types. *)
Theorem findStaticCalls_names (content : jsstring) :
  Forall (fun type =>
            subTypes type = []
            /\ exists c rest,
                 Type_className type = c :: rest
                 /\ isUpper c = true
                 /\ Forall (fun c => isWordOrDot c = true) rest)
    (findStaticCalls content).
Proof.
  unfold findStaticCalls. rewrite findStaticCalls_loop_names.
  apply Forall_forall. intros type Hin.
  apply list_elem_of_fmap in Hin as (name & -> & Hin).
  apply list_elem_of_filter in Hin as [_ Hin].
  split; [reflexivity|].
  pose proof (staticCallNames_loop_shape content (S (length content)) 0)
    as Hall.
  rewrite Forall_forall in Hall. by apply Hall.
Qed.

(** ** The name that [processSingleClass] gives a class *)

Lemma exec_loop_groupFree (r : regex) (rest : jsstring) :
  groupFree r = true ->
  forall pos prev m,
    exec_loop r pos prev rest = Some m -> m_groups m = [].
Proof.
  intros Hfree.
  induction rest as [|c rest IH]; intros pos prev m H; cbn [exec_loop] in H.
  all: destruct (rmatch r _ _ _) as [[cur caps]|] eqn:E;
    [|try done; by eapply IH].
  all: injection H as <-;
    apply (rmatch_groupFree r Hfree) in E as (cur' & [= _ <-]);
    reflexivity.
Qed.

(** X25.  [processSingleClass] never gives a class a string as its name:
    [REGEX.class] has no group, so that [classNameMatch[1]] is [undefined]
    on every line that the pattern matches, and the function returns [null]
    on the others. *)
Theorem processSingleClass_className_undefined (line : jsstring) :
  processSingleClass_className line
  = if test REGEX_class line then Some None else None.
Proof.
  unfold processSingleClass_className, test.
  destruct (exec REGEX_class line) as [m|] eqn:E.
  - rewrite bool_decide_eq_true_2 by (by eexists).
    unfold exec, exec_from in E. case_bool_decide; [|done].
    apply (exec_loop_groupFree (source REGEX_class) _ eq_refl) in E.
    unfold group1_untyped. by rewrite E.
  - rewrite bool_decide_eq_false_2; [done|]. by intros [? ?].
Qed.
